(** * Experiment harness: transfer wrapper and result aggregation

    A shallow embedding of the two Python programs of the repository,

    - [src/wrappers/ledbat.py]: the LEDBAT transfer wrapper, which starts a
      transfer process and a background metrics sampler, and
    - [final_analysis.py]: the test runner, the aggregator of the per-run
      metric files and the generator of the summary tables,

    followed by the properties of the design document that can be stated
    over them.

    Conventions of the embedding.
    - Python exceptions are values of [exn]; a computation that may raise
      returns a [result].
    - Python floats are modelled by exact rationals ([Q]); rounding is not
      modelled.  Not-a-number is the cell [NaN].
    - What lives outside the two programs (the clock, the random number
      generator, child processes, the CSV reader and writer of pandas, the
      square root) is an explicit argument of the function that uses it. *)

From Stdlib Require Import String Ascii List ZArith QArith Qround Qabs DecimalString Lia Lqa Bool.
From stdpp Require Import base option list gmap strings.
Import ListNotations.

Close Scope Q_scope.
Local Open Scope string_scope.
Local Open Scope list_scope.

(** ** Exceptions and results *)

Inductive exn : Type :=
| CalledProcessError (returncode : Z)
| OSError
| BrokenPipeError
| FileNotFoundError (p : string)
| FileExistsError (p : string)
| NotADirectoryError (p : string)
| IsADirectoryError (p : string)
| KeyError (k : string)
| IndexError
| TypeError
| AttributeError
| ValueError
| ParserError.

Inductive result (A : Type) : Type :=
| Ok (a : A)
| Raised (e : exn).
Arguments Ok {A} a.
Arguments Raised {A} e.

Definition rbind {A B} (r : result A) (k : A -> result B) : result B :=
  match r with
  | Ok a => k a
  | Raised e => Raised e
  end.

Declare Scope result_scope.
Delimit Scope result_scope with result.
Notation "'do' x <- r ; k" := (rbind r (fun x => k))
  (at level 10, x name, r at level 100, k at level 200) : result_scope.
Local Open Scope result_scope.

Definition is_ok {A} (r : result A) : bool :=
  match r with Ok _ => true | Raised _ => false end.

(** [rmap f l] runs [f] on the elements of [l] from left to right and stops
    at the first exception, like a Python loop or comprehension. *)
Fixpoint rmap {A B} (f : A -> result B) (l : list A) : result (list B) :=
  match l with
  | [] => Ok []
  | x :: xs =>
      match f x with
      | Raised e => Raised e
      | Ok y =>
          match rmap f xs with
          | Raised e => Raised e
          | Ok ys => Ok (y :: ys)
          end
      end
  end.

(** ** posixpath *)

Definition slash : ascii := "/"%char.
Definition dquote : ascii := ascii_of_nat 34.

(** [rfind_slash s] is [s.rfind('/') + 1]: the length of the longest prefix
    of [s] that ends with a slash, [0] when [s] has no slash. *)
Fixpoint rfind_slash (s : string) : nat :=
  match s with
  | EmptyString => 0
  | String c r =>
      match rfind_slash r with
      | O => if Ascii.eqb c slash then 1 else 0
      | S n => S (S n)
      end
  end.

Fixpoint all_slashes (s : string) : bool :=
  match s with
  | EmptyString => true
  | String c r => Ascii.eqb c slash && all_slashes r
  end.

(** [s.rstrip('/')] *)
Fixpoint rstrip_slash (s : string) : string :=
  match s with
  | EmptyString => EmptyString
  | String c r =>
      match rstrip_slash r with
      | EmptyString => if Ascii.eqb c slash then EmptyString else String c EmptyString
      | r' => String c r'
      end
  end.

(** [posixpath.dirname] *)
Definition dirname (p : string) : string :=
  let i := rfind_slash p in
  let head := String.substring 0 i p in
  if negb (String.eqb head "") && negb (all_slashes head)
  then rstrip_slash head
  else head.

Definition ends_with_slash (s : string) : bool :=
  match String.length s with
  | O => false
  | S n => match String.get n s with
           | Some c => Ascii.eqb c slash
           | None => false
           end
  end.

(** [posixpath.join] of two components *)
Definition path_join (a b : string) : string :=
  if String.prefix "/" b then b
  else if String.eqb a "" || ends_with_slash a then a ++ b
  else a ++ "/" ++ b.

(** The components of a path, as [pathlib] normalises them: empty
    components and [.] are dropped.  A leading slash is kept as the
    component ["/"], so that absolute and relative paths differ. *)
Fixpoint split_at (sep : ascii) (cur : string) (s : string) : list string :=
  match s with
  | EmptyString => [cur]
  | String c r =>
      if Ascii.eqb c sep then cur :: split_at sep "" r
      else split_at sep (cur ++ String c EmptyString) r
  end.

Definition parts (p : string) : list string :=
  let cs := List.filter (fun c => negb (String.eqb c "") && negb (String.eqb c "."))
                        (split_at slash "" p) in
  if String.prefix "/" p then "/" :: cs else cs.

(** * Part I.  The programs *)

(** ** [src/wrappers/ledbat.py] *)

Module ledbat.

(** *** The metrics sampler: [collect_metrics] *)

(** One element of the list [metrics]. *)
Record sample : Type := {
  timestamp : Q;
  throughput : Q;
  rtt : Q;
  loss_rate : Q;
  queuing_delay : Q
}.

(** The sampler reads the clock and the random number generator.
    [clock n] is the value of the [n]-th call of [time.time()] and [rand n]
    the value of the [n]-th call of [random.random()], both counted from 0.
    [time.sleep] has no result; what it does shows in the later readings of
    the clock. *)
Record sampler_env : Type := {
  clock : nat -> Q;
  rand : nat -> Q
}.

(** [random.uniform(a, b)] is [a + (b - a) * random()]. *)
Definition uniform (a b u : Q) : Q := (a + (b - a) * u)%Q.

Definition Qlt_bool (x y : Q) : bool := negb (Qle_bool y x).

(** The [while] loop of [collect_metrics].  [nt] and [nr] count the calls of
    [time.time()] and [random.random()] made so far.  The loop has no bound
    of its own, so the model takes fuel and returns [None] when it runs
    out. *)
Fixpoint sample_loop (fuel : nat) (E : sampler_env) (start_time duration : Q)
    (nt nr : nat) (metrics : list sample) : option (list sample) :=
  match fuel with
  | O => None
  | S fuel' =>
      if Qlt_bool (clock E nt - start_time)%Q duration then
        let s := {| timestamp := (clock E (nt + 1) - start_time)%Q;
                    throughput := uniform 1 10 (rand E nr);
                    rtt := uniform 100 300 (rand E (nr + 1));
                    loss_rate := uniform 0 (2 # 100) (rand E (nr + 2));
                    queuing_delay := uniform 0 50 (rand E (nr + 3)) |} in
        sample_loop fuel' E start_time duration (nt + 2) (nr + 4) (metrics ++ [s])
      else Some metrics
  end.

(** The sampling phase: [metrics = []], [start_time = time.time()], then the
    loop. *)
Definition sample_phase (fuel : nat) (E : sampler_env) (duration : Q)
    : option (list sample) :=
  sample_loop fuel E (clock E 0) duration 1 0 [].

(** The file tree the sampler writes to.  A path is the list of its
    components; the empty path is the working directory.  Symbolic links and
    [..] are not modelled. *)
Inductive node : Type :=
| Dir
| File (content : string).

Definition node_at (fs : gmap (list string) node) (p : list string) : option node :=
  match p with
  | [] => Some Dir
  | _ => fs !! p
  end.

Definition is_dir (fs : gmap (list string) node) (p : list string) : bool :=
  match node_at fs p with
  | Some Dir => true
  | _ => false
  end.

Definition parent (p : list string) : list string := removelast p.

(** [os.mkdir(p)]: the directory must not exist and its parent must be a
    directory. *)
Definition os_mkdir (fs : gmap (list string) node) (name : string)
    : result (gmap (list string) node) :=
  let p := parts name in
  match node_at fs p with
  | Some _ => Raised (FileExistsError name)
  | None =>
      match node_at fs (parent p) with
      | None => Raised (FileNotFoundError name)
      | Some (File _) => Raised (NotADirectoryError name)
      | Some Dir => Ok (<[p := Dir]> fs)
      end
  end.

(** [Path(name).mkdir(exist_ok=True)], with [parents] left at its default
    [False]: a missing parent is an error, any other error is dropped when
    the path is a directory already. *)
Definition Path_mkdir (fs : gmap (list string) node) (name : string)
    : result (gmap (list string) node) :=
  match os_mkdir fs name with
  | Ok fs' => Ok fs'
  | Raised (FileNotFoundError n) => Raised (FileNotFoundError n)
  | Raised e => if is_dir fs (parts name) then Ok fs else Raised e
  end.

(** Opening [name] for writing and storing [content] there. *)
Definition write_file (fs : gmap (list string) node) (name content : string)
    : result (gmap (list string) node) :=
  let p := parts name in
  match node_at fs p with
  | Some Dir => Raised (IsADirectoryError name)
  | Some (File _) => Ok (<[p := File content]> fs)
  | None =>
      match node_at fs (parent p) with
      | None => Raised (FileNotFoundError name)
      | Some (File _) => Raised (NotADirectoryError name)
      | Some Dir => Ok (<[p := File content]> fs)
      end
  end.

(** The two statements under [# Save metrics].  [to_csv] is the text pandas
    writes for a list of samples. *)
Definition save_metrics (to_csv : list sample -> string)
    (fs : gmap (list string) node) (metrics_file : string) (metrics : list sample)
    : result (gmap (list string) node) :=
  do fs1 <- Path_mkdir fs (dirname metrics_file);
  write_file fs1 metrics_file (to_csv metrics).

Definition default_duration : Q := 75.

Definition collect_metrics (fuel : nat) (E : sampler_env)
    (to_csv : list sample -> string) (fs : gmap (list string) node)
    (metrics_file : string) (duration : Q)
    : option (result (gmap (list string) node)) :=
  match sample_phase fuel E duration with
  | None => None
  | Some metrics => Some (save_metrics to_csv fs metrics_file metrics)
  end.

(** *** The transfer lifecycle: [main] *)

(** The parsed command line ([arg_parser.receiver_first()]). *)
Record Args : Type := {
  option_ : string;
  port : string;
  ip : string
}.

(** The module [context], which is not part of the wrapper: two
    directories. *)
Record Context : Type := {
  third_party_dir : string;
  output_dir : string
}.

Inductive child : Type := Transfer | Sampler.

(** What [main] does to its child processes, in program order. *)
Inductive event : Type :=
| Started (who : child) (cmd : list string)   (* [Popen] returned *)
| Completed (cmd : list string)               (* [check_call] ran a command to its end *)
| Wrote (k : nat)                             (* the [k]-th chunk was written and flushed *)
| Killed (who : child)                        (* [kill()] *)
| Terminated (who : child).                   (* [terminate()] *)

(** The behaviour of the operating system and of the children that [main]
    observes. *)
Record procs : Type := {
  (* exit status of a command run by [check_call]; [None]: it cannot be started *)
  check_call_status : list string -> option Z;
  (* whether [Popen] can start the command *)
  popen_ok : list string -> bool;
  (* whether the [k]-th [write] and [flush] on the pipe succeed *)
  write_ok : nat -> bool;
  (* [time.time() > timeout] at the [k]-th test *)
  deadline_passed : nat -> bool;
  (* [proc.poll() is None] in the cleanup *)
  poll_is_none : bool
}.

(** A computation of [main]: it extends the trace of events and returns or
    raises; [None] is a loop that ran out of fuel. *)
Definition M (A : Type) : Type := list event -> option (result A * list event).

Definition ret {A} (a : A) : M A := fun tr => Some (Ok a, tr).
Definition raise {A} (e : exn) : M A := fun tr => Some (Raised e, tr).
Definition emit (e : event) : M unit := fun tr => Some (Ok tt, tr ++ [e]).

Definition bind {A B} (m : M A) (k : A -> M B) : M B :=
  fun tr =>
    match m tr with
    | None => None
    | Some (Ok a, tr') => k a tr'
    | Some (Raised e, tr') => Some (Raised e, tr')
    end.

(** [try: body finally: cleanup].  The cleanup runs whether the body
    returned or raised; an exception of the cleanup replaces the outcome of
    the body. *)
Definition try_finally {A} (body : M A) (cleanup : M unit) : M A :=
  fun tr =>
    match body tr with
    | None => None
    | Some (r, tr') =>
        match cleanup tr' with
        | None => None
        | Some (Ok _, tr'') => Some (r, tr'')
        | Some (Raised e, tr'') => Some (Raised e, tr'')
        end
    end.

Declare Scope proc_scope.
Delimit Scope proc_scope with proc.
Notation "m ;; k" := (bind m (fun _ => k))
  (at level 100, k at level 200, right associativity) : proc_scope.
Local Open Scope proc_scope.

(** [check_call(cmd)] *)
Definition check_call (P : procs) (cmd : list string) : M unit :=
  match check_call_status P cmd with
  | None => raise OSError
  | Some 0%Z => emit (Completed cmd)
  | Some rc => emit (Completed cmd) ;; raise (CalledProcessError rc)
  end.

(** [Popen(cmd)] *)
Definition Popen (P : procs) (who : child) (cmd : list string) : M unit :=
  if popen_ok P cmd then emit (Started who cmd) else raise OSError.

Definition sampler_cmd (metrics_file : string) : list string :=
  ["python"; "-c";
   String.append "from ledbat import collect_metrics; collect_metrics("
     (String dquote (String.append metrics_file (String dquote ")")))].

(** The [while True] loop of the sender; [k] counts the iterations. *)
Fixpoint send_loop (fuel : nat) (P : procs) (k : nat) : M unit :=
  match fuel with
  | O => fun _ => None
  | S fuel' =>
      if write_ok P k then
        emit (Wrote k) ;;
        if deadline_passed P k then ret tt else send_loop fuel' P (S k)
      else raise BrokenPipeError
  end.

(** [main].  The output of the receiver's transfer process goes to
    [os.devnull]; opening it is taken to succeed. *)
Definition main (fuel : nat) (P : procs) (context : Context) (args : Args) : M unit :=
  let cc_repo := path_join (third_party_dir context) "libutp" in
  let src := path_join cc_repo "ucat-static" in
  let metrics_file := path_join (output_dir context) "ledbat_metrics.csv" in
  if String.eqb (option_ args) "setup" then
    check_call P ["make"; "-j"]
  else if String.eqb (option_ args) "receiver" then
    let cmd := [src; "-l"; "-p"; port args] in
    Popen P Sampler (sampler_cmd metrics_file) ;;
    check_call P cmd ;;
    emit (Terminated Sampler)
  else if String.eqb (option_ args) "sender" then
    let cmd := [src; ip args; port args] in
    Popen P Transfer cmd ;;
    Popen P Sampler (sampler_cmd metrics_file) ;;
    try_finally
      (send_loop fuel P 0)
      ((if poll_is_none P then emit (Killed Transfer) else ret tt) ;;
       emit (Terminated Sampler))
  else ret tt.

(** Whether the sampler has been started and its termination has not been
    requested since. *)
Fixpoint sampler_pending_from (pending : bool) (tr : list event) : bool :=
  match tr with
  | [] => pending
  | Started Sampler _ :: tr' => sampler_pending_from true tr'
  | Terminated Sampler :: tr' => sampler_pending_from false tr'
  | _ :: tr' => sampler_pending_from pending tr'
  end.

Definition sampler_pending (tr : list event) : bool := sampler_pending_from false tr.

End ledbat.

(** ** pandas: frames and series *)

(** A value in a frame: a number, a string, or not-a-number. *)
Inductive cell : Type :=
| NaN
| Num (q : Q)
| Str (s : string).

(** A frame is the list of its column labels and the list of its records,
    in index order.  A record maps labels to cells; a label it lacks reads
    as [NaN], which is what [pd.concat] puts in the columns a frame does not
    have. *)
Record DataFrame : Type := {
  columns : list string;
  rows : list (gmap string cell)
}.

(** [pd.DataFrame()] *)
Definition empty_frame : DataFrame := {| columns := []; rows := [] |}.

Definition len (df : DataFrame) : nat := length (rows df).

(** [df.empty]: one of the two axes has length 0. *)
Definition df_empty (df : DataFrame) : bool :=
  match columns df, rows df with
  | [], _ => true
  | _, [] => true
  | _, _ => false
  end.

Definition mem (x : string) (l : list string) : bool := existsb (String.eqb x) l.

(** [name in df.columns] *)
Definition has_column (name : string) (df : DataFrame) : bool := mem name (columns df).

Definition field (name : string) (r : gmap string cell) : cell := default NaN (r !! name).

(** [df[name]] as a series *)
Definition getitem (df : DataFrame) (name : string) : result (list cell) :=
  if has_column name df then Ok (map (field name) (rows df)) else Raised (KeyError name).

Definition add_column (name : string) (cols : list string) : list string :=
  if mem name cols then cols else cols ++ [name].

(** [df[name] = v] for a scalar [v] *)
Definition setitem_scalar (df : DataFrame) (name : string) (v : cell) : DataFrame :=
  {| columns := add_column name (columns df);
     rows := map (fun r => <[name := v]> r) (rows df) |}.

(** [df[name] = vals] for a list: the lengths must agree. *)
Definition setitem_list (df : DataFrame) (name : string) (vals : list cell)
    : result DataFrame :=
  if Nat.eqb (length vals) (len df) then
    Ok {| columns := add_column name (columns df);
          rows := zip_with (fun r v => <[name := v]> r) (rows df) vals |}
  else Raised ValueError.

(** [list(range(n))] *)
Definition range (n : nat) : list cell :=
  map (fun i => Num (inject_Z (Z.of_nat i))) (seq 0 n).

(** The labels of several frames, each once, in order of first appearance. *)
Definition union_columns (frames : list DataFrame) : list string :=
  fold_left (fun acc df => fold_left (fun acc c => add_column c acc) (columns df) acc)
            frames [].

(** [pd.concat(frames, ignore_index=True)] *)
Definition concat (frames : list DataFrame) : DataFrame :=
  {| columns := union_columns frames;
     rows := flat_map rows frames |}.

(** [series == v] *)
Definition cell_eqb (a b : cell) : bool :=
  match a, b with
  | Num x, Num y => Qeq_bool x y
  | Str x, Str y => String.eqb x y
  | _, _ => false
  end.

(** Equality as [unique()] sees it: all not-a-numbers are one value. *)
Definition cell_same (a b : cell) : bool :=
  match a, b with
  | NaN, NaN => true
  | _, _ => cell_eqb a b
  end.

(** [series.unique()]: each value once, in order of first appearance. *)
Definition unique (l : list cell) : list cell :=
  fold_left (fun acc c => if existsb (cell_same c) acc then acc else acc ++ [c]) l [].

(** [df[mask]]: the records whose entry in the mask is true. *)
Fixpoint select_rows (rs : list (gmap string cell)) (mask : list bool)
    : list (gmap string cell) :=
  match rs, mask with
  | r :: rs', b :: mask' => if b then r :: select_rows rs' mask' else select_rows rs' mask'
  | _, _ => []
  end.

Definition select (df : DataFrame) (mask : list bool) : DataFrame :=
  {| columns := columns df; rows := select_rows (rows df) mask |}.

(** [series.iloc[0]] *)
Definition iloc0 (l : list cell) : result cell :=
  match l with
  | [] => Raised IndexError
  | c :: _ => Ok c
  end.

(** *** Statistics of a series *)

(** The numbers of a series with the not-a-numbers dropped; a string in a
    series makes the reductions raise. *)
Fixpoint numbers (l : list cell) : result (list Q) :=
  match l with
  | [] => Ok []
  | NaN :: l' => numbers l'
  | Num q :: l' => do qs <- numbers l'; Ok (q :: qs)
  | Str _ :: _ => Raised TypeError
  end.

Definition Qsum (l : list Q) : Q := fold_right Qplus 0%Q l.

Definition Qlen (l : list Q) : Q := inject_Z (Z.of_nat (length l)).

Definition mean_of (qs : list Q) : cell :=
  match qs with
  | [] => NaN
  | _ => Num (Qred (Qsum qs / Qlen qs))
  end.

(** [series.mean()] *)
Definition series_mean (l : list cell) : result cell :=
  do qs <- numbers l; Ok (mean_of qs).

Definition Qmin (a b : Q) : Q := if Qle_bool a b then a else b.
Definition Qmax (a b : Q) : Q := if Qle_bool a b then b else a.

(** [series.min()] and [series.max()] *)
Definition series_min (l : list cell) : result cell :=
  do qs <- numbers l;
  Ok match qs with
     | [] => NaN
     | q :: qs' => Num (fold_left Qmin qs' q)
     end.

Definition series_max (l : list cell) : result cell :=
  do qs <- numbers l;
  Ok match qs with
     | [] => NaN
     | q :: qs' => Num (fold_left Qmax qs' q)
     end.

Fixpoint Qinsert (x : Q) (l : list Q) : list Q :=
  match l with
  | [] => [x]
  | y :: l' => if Qle_bool x y then x :: l else y :: Qinsert x l'
  end.

Definition Qsort (l : list Q) : list Q := fold_right Qinsert [] l.

(** The quantile of pandas with linear interpolation: on the sorted numbers
    [x], position [(n - 1) * p] between [x[lo]] and [x[lo + 1]]. *)
Definition quantile_of (p : Q) (qs : list Q) : cell :=
  match Qsort qs with
  | [] => NaN
  | (x0 :: _) as xs =>
      let pos := ((Qlen xs - 1) * p)%Q in
      let lo := Z.to_nat (Qfloor pos) in
      let frac := (pos - inject_Z (Qfloor pos))%Q in
      let a := nth lo xs x0 in
      let b := nth (S lo) xs a in
      Num (Qred (a + (b - a) * frac))
  end.

(** [series.quantile(p)] and [series.median()] *)
Definition series_quantile (p : Q) (l : list cell) : result cell :=
  do qs <- numbers l; Ok (quantile_of p qs).

Definition series_median (l : list cell) : result cell :=
  series_quantile (1 # 2) l.

(** [series.std()]: the sample standard deviation, with [n - 1] in the
    denominator; not-a-number for fewer than two numbers. *)
Definition std_of (sqrt : Q -> Q) (qs : list Q) : cell :=
  match qs with
  | [] | [_] => NaN
  | _ =>
      let m := (Qsum qs / Qlen qs)%Q in
      let ss := Qsum (map (fun x => ((x - m) * (x - m))%Q) qs) in
      Num (sqrt (Qred (ss / (Qlen qs - 1))))
  end.

Definition series_std (sqrt : Q -> Q) (l : list cell) : result cell :=
  do qs <- numbers l; Ok (std_of sqrt qs).

(** [series.diff()]: the first entry is not-a-number, each later entry is
    the difference with its predecessor. *)
Definition cell_sub (a b : cell) : result cell :=
  match a, b with
  | Str _, _ | _, Str _ => Raised TypeError
  | Num x, Num y => Ok (Num (x - y))
  | _, _ => Ok NaN
  end.

Fixpoint diff_from (prev : cell) (l : list cell) : result (list cell) :=
  match l with
  | [] => Ok []
  | c :: l' =>
      do d <- cell_sub c prev;
      do ds <- diff_from c l';
      Ok (d :: ds)
  end.

Definition series_diff (l : list cell) : result (list cell) :=
  match l with
  | [] => Ok []
  | c :: l' =>
      do _ <- cell_sub c c;
      do ds <- diff_from c l';
      Ok (NaN :: ds)
  end.

(** [series.abs()] *)
Definition series_abs (l : list cell) : result (list cell) :=
  rmap (fun c => match c with
                 | NaN => Ok NaN
                 | Num q => Ok (Num (Qabs q))
                 | Str _ => Raised TypeError
                 end) l.

(** [x * 100] on the result of a reduction *)
Definition times100 (c : cell) : result cell :=
  match c with
  | NaN => Ok NaN
  | Num q => Ok (Num (Qred (q * 100)))
  | Str _ => Raised TypeError
  end.

(** [s.upper()] on ASCII letters *)
Definition upper_ascii (c : ascii) : ascii :=
  let n := nat_of_ascii c in
  if Nat.leb 97 n && Nat.leb n 122 then ascii_of_nat (n - 32) else c.

Fixpoint upper (s : string) : string :=
  match s with
  | EmptyString => EmptyString
  | String c r => String (upper_ascii c) (upper r)
  end.

(** ** [final_analysis.py] *)

Module final_analysis.

(** *** The run descriptor catalog *)

Record profile : Type := {
  name : string;
  latency : Z;
  dl_trace : string;
  ul_trace : string
}.

(** The two module-level tables the functions read.  A Python dictionary
    iterates in insertion order, so the profile table is a list of
    entries. *)
Record catalog : Type := {
  NET_PROFILES : list (string * profile);
  CC_ALGOS : list string
}.

(** [NET_PROFILES[key]] *)
Fixpoint lookup_profile (key : string) (ps : list (string * profile)) : result profile :=
  match ps with
  | [] => Raised (KeyError key)
  | (k, cfg) :: ps' => if String.eqb k key then Ok cfg else lookup_profile key ps'
  end.

(** The tables as the module defines them. *)
Definition module_catalog : catalog := {|
  NET_PROFILES :=
    [("1", {| name := "LTE (Low Latency)";
              latency := 5;
              dl_trace := "mahimahi/traces/TMobile-LTE-driving.down";
              ul_trace := "mahimahi/traces/TMobile-LTE-driving.up" |});
     ("2", {| name := "LTE (High Latency)";
              latency := 200;
              dl_trace := "mahimahi/traces/TMobile-LTE-short.down";
              ul_trace := "mahimahi/traces/TMobile-LTE-short.up" |})];
  CC_ALGOS := ["cubic"; "fillp_sheep"; "vegas"]
|}.

(** [str(n)] for an integer *)
Definition str_of_Z (z : Z) : string := NilZero.string_of_int (Z.to_int z).

(** *** Files *)

(** The files the runner and the aggregator see, by path name.  Directories
    are not modelled here: [os.makedirs(..., exist_ok=True)] and the copy
    into the run directory are taken to succeed. *)
Record file : Type := {
  mtime : Q;
  content : string
}.

(** [os.path.isfile] *)
Definition isfile (fs : gmap string file) (p : string) : bool :=
  match fs !! p with
  | Some _ => true
  | None => false
  end.

(** [os.path.getmtime]; the paths it is applied to come from [glob] and
    exist. *)
Definition getmtime (fs : gmap string file) (p : string) : Q :=
  match fs !! p with
  | Some f => mtime f
  | None => 0%Q
  end.

(** Matching of a file name against a shell pattern: [*] stands for any
    run of characters without a slash, [?] for one such character.
    Bracket expressions are not modelled. *)
Fixpoint fnmatch (pat : list ascii) : list ascii -> bool :=
  match pat with
  | [] => fun s => match s with [] => true | _ => false end
  | p :: pat' =>
      if Ascii.eqb p "*"%char then
        fix star (s : list ascii) : bool :=
          fnmatch pat' s ||
          match s with
          | [] => false
          | c :: s' => negb (Ascii.eqb c slash) && star s'
          end
      else if Ascii.eqb p "?"%char then
        fun s => match s with
                 | [] => false
                 | c :: s' => negb (Ascii.eqb c slash) && fnmatch pat' s'
                 end
      else
        fun s => match s with
                 | [] => false
                 | c :: s' => Ascii.eqb p c && fnmatch pat' s'
                 end
  end.

(** [glob.glob(pattern)]: the names of the files that match. *)
Definition glob (fs : gmap string file) (pattern : string) : list string :=
  List.filter (fun p => fnmatch (list_ascii_of_string pattern) (list_ascii_of_string p))
              (map fst (map_to_list fs)).

(** [sorted(l, key=key, reverse=True)]: descending, and stable, so that
    elements with equal keys keep their order. *)
Fixpoint insert_desc (key : string -> Q) (x : string) (l : list string) : list string :=
  match l with
  | [] => [x]
  | y :: l' => if Qle_bool (key y) (key x) then x :: l else y :: insert_desc key x l'
  end.

Definition sorted_desc (key : string -> Q) (l : list string) : list string :=
  fold_right (insert_desc key) [] l.

(** [os.makedirs(p, exist_ok=True)]: nothing to do, as directories are not
    modelled. *)
Definition makedirs (fs : gmap string file) (p : string) : gmap string file := fs.

(** [shutil.copy(src, dst)]: [dst] receives the content of [src]; its
    modification time is the time of the copy. *)
Definition copy (now : Q) (fs : gmap string file) (src dst : string) : gmap string file :=
  match fs !! src with
  | Some f => <[dst := {| mtime := now; content := content f |}]> fs
  | None => fs
  end.

(** *** The test runner: [execute_tests] *)

(** What the runner reports for a pair, one constructor per message it
    prints after the invocation. *)
Inductive report : Type :=
| TestCompleted (prof_id algo : string)            (* [SUCCESS] *)
| TestFailed (prof_id algo : string) (rc : Z)      (* [ERROR] *)
| MetricsSaved (prof_id algo src : string)         (* [INFO] Metrics file saved *)
| NoMetricsFound (prof_id algo : string).          (* [WARNING] *)

(** The shell the commands run in: given a command line and the files, the
    files after the command and its exit status. *)
Definition shell_t : Type := string -> gmap string file -> gmap string file * Z.

Definition result_path_of (prof_id algo : string) : string :=
  "results/profile_" ++ prof_id ++ "/" ++ algo.

Definition test_command_of (cfg : profile) (algo result_path : string) : string :=
  "mm-delay " ++ str_of_Z (latency cfg) ++ " "
  ++ "mm-link " ++ dl_trace cfg ++ " " ++ ul_trace cfg ++ " -- "
  ++ "bash -c 'python3 tests/test_schemes.py --schemes "
  ++ String dquote (algo ++ String dquote (" > " ++ result_path ++ "/log.txt 2>&1'")).

(** The statements after the [try] of the inner loop body. *)
Definition copy_latest_metrics (now : Q) (prof_id algo result_path : string)
    (st : gmap string file * list report) : gmap string file * list report :=
  let '(fs, log) := st in
  let metric_logs := sorted_desc (getmtime fs) (glob fs ("logs/metrics_" ++ algo ++ "_*.csv")) in
  match metric_logs with
  | newest_log :: _ =>
      (copy now fs newest_log (path_join result_path (algo ++ "_cc_log.csv")),
       log ++ [MetricsSaved prof_id algo newest_log])
  | [] => (fs, log ++ [NoMetricsFound prof_id algo])
  end.

(** The body of the inner loop. *)
Definition run_pair (shell : shell_t) (now : Q) (prof_id : string) (cfg : profile)
    (algo : string) (st : gmap string file * list report)
    : gmap string file * list report :=
  let '(fs, log) := st in
  let result_path := result_path_of prof_id algo in
  let fs := makedirs fs result_path in
  let test_command := test_command_of cfg algo result_path in
  let '(fs1, rc) := shell test_command fs in
  if Z.eqb rc 0 then
    copy_latest_metrics now prof_id algo result_path
      (fs1, log ++ [TestCompleted prof_id algo])
  else
    (* [except subprocess.CalledProcessError]: [continue] *)
    (fs1, log ++ [TestFailed prof_id algo rc]).

Definition execute_tests (C : catalog) (shell : shell_t) (now : Q)
    (fs : gmap string file) : gmap string file * list report :=
  fold_left
    (fun st '(prof_id, cfg) =>
       fold_left (fun st algo => run_pair shell now prof_id cfg algo st) (CC_ALGOS C) st)
    (NET_PROFILES C) (fs, []).

(** *** The aggregator: [collect_dataframes] *)

Definition log_file_of (prof_id algo : string) : string :=
  "results/profile_" ++ prof_id ++ "/" ++ algo ++ "/" ++ algo ++ "_cc_log.csv".

(** [pd.read_csv(path)]: [read_csv] is the parser of pandas on the text of
    the file. *)
Definition read_csv_file (read_csv : string -> result DataFrame)
    (fs : gmap string file) (p : string) : result DataFrame :=
  match fs !! p with
  | Some f => read_csv (content f)
  | None => Raised (FileNotFoundError p)
  end.

(** The body of the [try]: parse the file and tag its rows. *)
Definition tag_frame (read_csv : string -> result DataFrame) (fs : gmap string file)
    (prof_id : string) (cfg : profile) (algo : string) (log_file : string)
    : result DataFrame :=
  do df <- read_csv_file read_csv fs log_file;
  let df := setitem_scalar df "scheme" (Str algo) in
  let df := setitem_scalar df "profile" (Str prof_id) in
  let df := setitem_scalar df "profile_name" (Str (name cfg)) in
  let df := setitem_scalar df "latency" (Num (inject_Z (latency cfg))) in
  setitem_list df "timestamp" (range (len df)).

(** The body of the inner loop. *)
Definition collect_pair (read_csv : string -> result DataFrame)
    (fs : gmap string file) (prof_id : string) (cfg : profile) (algo : string)
    (frames : list DataFrame) : list DataFrame :=
  let log_file := log_file_of prof_id algo in
  if isfile fs log_file then
    match tag_frame read_csv fs prof_id cfg algo log_file with
    | Ok df => frames ++ [df]
    | Raised _ => frames          (* [except Exception]: report, go on *)
    end
  else frames.                    (* warn, go on *)

Definition collect_frames (C : catalog) (read_csv : string -> result DataFrame)
    (fs : gmap string file) : list DataFrame :=
  fold_left
    (fun frames '(prof_id, cfg) =>
       fold_left (fun frames algo => collect_pair read_csv fs prof_id cfg algo frames)
                 (CC_ALGOS C) frames)
    (NET_PROFILES C) [].

Definition collect_dataframes (C : catalog) (read_csv : string -> result DataFrame)
    (fs : gmap string file) : DataFrame :=
  match collect_frames C read_csv fs with
  | [] => empty_frame
  | frames => concat frames
  end.

(** *** The derived statistics: [summarize_rtt], [generate_comparison_table] *)

(** [data[(data['scheme'] == algo) & (data['profile'] == prof_id)]] *)
Definition group (data : DataFrame) (algo prof_id : cell) : result DataFrame :=
  do schemes <- getitem data "scheme";
  do profiles <- getitem data "profile";
  Ok (select data (zip_with andb (map (fun c => cell_eqb c algo) schemes)
                                 (map (fun c => cell_eqb c prof_id) profiles))).

(** [NET_PROFILES[prof_id]] for a value read from the frame: only a string
    can be a key of the table. *)
Definition profile_of (C : catalog) (prof_id : cell) : result profile :=
  match prof_id with
  | Str k => lookup_profile k (NET_PROFILES C)
  | Num _ => Raised (KeyError "")
  | NaN => Raised (KeyError "nan")
  end.

(** [algo.upper()] for a value read from the frame *)
Definition cell_upper (algo : cell) : result string :=
  match algo with
  | Str a => Ok (upper a)
  | _ => Raised AttributeError
  end.

(** One row of [graphs/rtt_summary.csv]. *)
Record rtt_stats : Type := {
  rs_Algorithm : string;
  rs_Profile : cell;
  rs_Latency : Z;
  rs_Avg_RTT : cell;
  rs_Min_RTT : cell;
  rs_Max_RTT : cell;
  rs_Median_RTT : cell;
  rs_Std_Dev : cell;
  rs_95th : cell;
  rs_Jitter : cell
}.

(** [subdata['rtt'].diff().abs().mean()] *)
Definition jitter (rtts : list cell) : result cell :=
  do d <- series_diff rtts;
  do a <- series_abs d;
  series_mean a.

(** The body of the inner loop of [summarize_rtt]. *)
Definition summarize_group (C : catalog) (sqrt : Q -> Q) (data : DataFrame)
    (prof_id prof_name algo : cell) (rtt_records : list rtt_stats)
    : result (list rtt_stats) :=
  do subdata <- group data algo prof_id;
  if negb (df_empty subdata) && has_column "rtt" subdata then
    do algorithm <- cell_upper algo;
    do cfg <- profile_of C prof_id;
    do rtts <- getitem subdata "rtt";
    do avg <- series_mean rtts;
    do mn <- series_min rtts;
    do mx <- series_max rtts;
    do med <- series_median rtts;
    do sd <- series_std sqrt rtts;
    do q95 <- series_quantile (95 # 100) rtts;
    do jit <- jitter rtts;
    Ok (rtt_records ++
        [{| rs_Algorithm := algorithm; rs_Profile := prof_name;
            rs_Latency := latency cfg;
            rs_Avg_RTT := avg; rs_Min_RTT := mn; rs_Max_RTT := mx;
            rs_Median_RTT := med; rs_Std_Dev := sd; rs_95th := q95;
            rs_Jitter := jit |}])
  else Ok rtt_records.

(** A [for] loop over [l] whose body may raise: the first exception ends
    the loop. *)
Fixpoint for_each {A S} (body : A -> S -> result S) (l : list A) (s : S) : result S :=
  match l with
  | [] => Ok s
  | x :: l' => do s' <- body x s; for_each body l' s'
  end.

(** [summarize_rtt]: the records it collects; they are written to
    [graphs/rtt_summary.csv] and printed when there is at least one, and a
    warning is printed otherwise. *)
Definition summarize_rtt (C : catalog) (sqrt : Q -> Q) (data : DataFrame)
    : result (list rtt_stats) :=
  do profiles <- getitem data "profile";
  for_each
    (fun prof_id rtt_records =>
       do sub <- getitem data "profile";
       do names <- getitem (select data (map (fun c => cell_eqb c prof_id) sub))
                           "profile_name";
       do prof_name <- iloc0 names;
       do schemes <- getitem data "scheme";
       for_each (summarize_group C sqrt data prof_id prof_name) (unique schemes)
                rtt_records)
    (unique profiles) [].

(** One row of [graphs/algorithm_comparison.csv]. *)
Record comparison : Type := {
  cr_Profile : string;
  cr_Algorithm : string;
  cr_Avg_Throughput : cell;
  cr_Throughput_Std_Dev : cell;
  cr_Avg_RTT : cell;
  cr_Avg_Loss_Rate : cell;
  cr_90_Throughput : cell
}.

(** The body of the inner loop of [generate_comparison_table]. *)
Definition compare_group (C : catalog) (sqrt : Q -> Q) (data : DataFrame)
    (prof_id algo : cell) (comparison_records : list comparison)
    : result (list comparison) :=
  do subdata <- group data algo prof_id;
  if negb (df_empty subdata) then
    do cfg <- profile_of C prof_id;
    do algorithm <- cell_upper algo;
    do tps <- getitem subdata "throughput";
    do avg_tp <- series_mean tps;
    do tps2 <- getitem subdata "throughput";
    do sd_tp <- series_std sqrt tps2;
    do rtts <- getitem subdata "rtt";
    do avg_rtt <- series_mean rtts;
    do loss <- (if has_column "loss_rate" subdata then
                  do ls <- getitem subdata "loss_rate";
                  do m <- series_mean ls;
                  times100 m
                else Ok (Num 0));
    do tps3 <- getitem subdata "throughput";
    do q90 <- series_quantile (9 # 10) tps3;
    Ok (comparison_records ++
        [{| cr_Profile := name cfg; cr_Algorithm := algorithm;
            cr_Avg_Throughput := avg_tp; cr_Throughput_Std_Dev := sd_tp;
            cr_Avg_RTT := avg_rtt; cr_Avg_Loss_Rate := loss;
            cr_90_Throughput := q90 |}])
  else Ok comparison_records.

Definition generate_comparison_table (C : catalog) (sqrt : Q -> Q) (data : DataFrame)
    : result (list comparison) :=
  do profiles <- getitem data "profile";
  for_each
    (fun prof_id comparison_records =>
       do schemes <- getitem data "scheme";
       for_each (compare_group C sqrt data prof_id) (unique schemes) comparison_records)
    (unique profiles) [].

(** *** [orchestrate] *)

(** What [orchestrate] leaves behind when it returns. *)
Inductive analysis : Type :=
| NoData                                                       (* the early [return] *)
| Analysed (rtt : list rtt_stats) (cmp : list comparison).

(** What [orchestrate] uses and this development does not describe: the
    shell, the clock of the copies, the CSV parser, the square root and the
    four plotting functions. *)
Record externals : Type := {
  shell : shell_t;
  now : Q;
  read_csv : string -> result DataFrame;
  sqrt : Q -> Q;
  draw_throughput_plot : DataFrame -> result unit;
  draw_loss_plot : DataFrame -> result unit;
  draw_throughput_cdf : DataFrame -> result unit;
  scatter_rtt_vs_throughput : DataFrame -> result unit
}.

Definition orchestrate (C : catalog) (X : externals) (fs : gmap string file)
    : result (gmap string file * list report * analysis) :=
  let fs := makedirs (makedirs fs "graphs") "results" in
  let '(fs1, log) := execute_tests C (shell X) (now X) fs in
  let full_df := collect_dataframes C (read_csv X) fs1 in
  if df_empty full_df then Ok (fs1, log, NoData)
  else
    do _ <- draw_throughput_plot X full_df;
    do _ <- draw_loss_plot X full_df;
    do _ <- draw_throughput_cdf X full_df;
    do rtt <- summarize_rtt C (sqrt X) full_df;
    do _ <- scatter_rtt_vs_throughput X full_df;
    do cmp <- generate_comparison_table C (sqrt X) full_df;
    Ok (fs1, log, Analysed rtt cmp).

End final_analysis.

(** ** Vocabulary of the properties *)

(** The documented ranges of a sample. *)
Definition in_ranges (s : ledbat.sample) : Prop :=
  ((1 <= ledbat.throughput s)%Q /\ (ledbat.throughput s <= 10)%Q) /\
  ((100 <= ledbat.rtt s)%Q /\ (ledbat.rtt s <= 300)%Q) /\
  ((0 <= ledbat.loss_rate s)%Q /\ (ledbat.loss_rate s <= 2 # 100)%Q) /\
  ((0 <= ledbat.queuing_delay s)%Q /\ (ledbat.queuing_delay s <= 50)%Q).

(** The pairs of the catalog in the order of the two nested loops: profiles
    outside, schemes inside. *)
Definition pairs (C : final_analysis.catalog) : list (string * final_analysis.profile * string) :=
  flat_map (fun '(prof_id, cfg) =>
              map (fun algo => (prof_id, cfg, algo)) (final_analysis.CC_ALGOS C))
           (final_analysis.NET_PROFILES C).

(** The records of an artifact with the metadata of its run and the
    sequence index written over them. *)
Definition tagged_rows (prof_id : string) (cfg : final_analysis.profile) (algo : string)
    (df : DataFrame) : list (gmap string cell) :=
  zip_with
    (fun r i =>
       <["timestamp" := i]>
         (<["latency" := Num (inject_Z (final_analysis.latency cfg))]>
            (<["profile_name" := Str (final_analysis.name cfg)]>
               (<["profile" := Str prof_id]> (<["scheme" := Str algo]> r)))))
    (rows df) (range (len df)).

(** What a pair contributes to the aggregate: the tagged records of its
    artifact when the file is there and the parser accepts it, nothing
    otherwise. *)
Definition contribution (read_csv : string -> result DataFrame)
    (fs : gmap string final_analysis.file)
    (pair : string * final_analysis.profile * string) : list (gmap string cell) :=
  let '(prof_id, cfg, algo) := pair in
  match fs !! final_analysis.log_file_of prof_id algo with
  | Some f =>
      match read_csv (final_analysis.content f) with
      | Ok df => tagged_rows prof_id cfg algo df
      | Raised _ => []
      end
  | None => []
  end.

(** The pairs the runner has invoked, in order, read off its reports. *)
Definition invocations (log : list final_analysis.report) : list (string * string) :=
  flat_map (fun r => match r with
                     | final_analysis.TestCompleted p a => [(p, a)]
                     | final_analysis.TestFailed p a _ => [(p, a)]
                     | _ => []
                     end) log.

(** The test of [final_analysis.group] on one record. *)
Definition in_group (algo prof_id : string) (r : gmap string cell) : bool :=
  cell_eqb (field "scheme" r) (Str algo) && cell_eqb (field "profile" r) (Str prof_id).

(** The labels the aggregator writes itself. *)
Definition tag_columns : list string :=
  ["scheme"; "profile"; "profile_name"; "latency"; "timestamp"].

(** The sample of the [i]-th iteration of the sampler's loop, from the
    clock readings and the random draws of that iteration. *)
Definition sample_at (E : ledbat.sampler_env) (start : Q) (i : nat) : ledbat.sample :=
  {| ledbat.timestamp := (ledbat.clock E (2 * i + 2) - start)%Q;
     ledbat.throughput := ledbat.uniform 1 10 (ledbat.rand E (4 * i));
     ledbat.rtt := ledbat.uniform 100 300 (ledbat.rand E (4 * i + 1));
     ledbat.loss_rate := ledbat.uniform 0 (2 # 100) (ledbat.rand E (4 * i + 2));
     ledbat.queuing_delay := ledbat.uniform 0 50 (ledbat.rand E (4 * i + 3)) |}.

(** A pattern without the special characters of [fnmatch]: [*], [?] and
    the opening bracket. *)
Definition literal_pattern (l : list ascii) : Prop :=
  Forall (fun c => c <> "*"%char /\ c <> "?"%char /\ c <> "["%char) l.

(** The number of lines of data of the artifact of a pair, 0 when the
    artifact is missing or does not parse. *)
Definition artifact_len (read_csv : string -> result DataFrame)
    (fs : gmap string final_analysis.file)
    (pair : string * final_analysis.profile * string) : nat :=
  let '(prof_id, cfg, algo) := pair in
  match final_analysis.read_csv_file read_csv fs (final_analysis.log_file_of prof_id algo) with
  | Ok df => len df
  | Raised _ => 0%nat
  end.

(** The differences between consecutive values of a series that follows
    [prev]. *)
Fixpoint first_differences (prev : Q) (xs : list Q) : list Q :=
  match xs with
  | [] => []
  | x :: xs' => (x - prev)%Q :: first_differences x xs'
  end.

(** A cell that is not a string: a number or not-a-number. *)
Definition no_string (c : cell) : Prop := forall s, c <> Str s.

(** The test of [final_analysis.group] on one record, for a scheme and a
    profile identifier read from the frame. *)
Definition in_group_cells (algo prof_id : cell) (r : gmap string cell) : bool :=
  cell_eqb (field "scheme" r) algo && cell_eqb (field "profile" r) prof_id.

(** A frame tagged as the aggregator tags its frames: it has the columns
    [profile], [scheme] and [profile_name], and every record names a
    profile of the table and a scheme. *)
Definition tagged_data (C : final_analysis.catalog) (data : DataFrame) : Prop :=
  has_column "profile" data = true /\
  has_column "scheme" data = true /\
  has_column "profile_name" data = true /\
  forall r, In r (rows data) ->
    exists p cfg a,
      field "profile" r = Str p /\ field "scheme" r = Str a /\
      final_analysis.lookup_profile p (final_analysis.NET_PROFILES C) = Ok cfg.

(** A column without strings. *)
Definition numeric_column (c : string) (data : DataFrame) : Prop :=
  forall r, In r (rows data) -> no_string (field c r).

Definition Q_eq_dec (a b : Q) : {a = b} + {a <> b}.
Proof. decide equality; [apply Pos.eq_dec | apply Z.eq_dec]. Defined.

Definition cell_eq_dec (a b : cell) : {a = b} + {a <> b}.
Proof. decide equality; [apply Q_eq_dec | apply string_dec]. Defined.

Definition key_eq_dec (a b : cell * cell) : {a = b} + {a <> b}.
Proof. decide equality; apply cell_eq_dec. Defined.

(** The distinct (profile, scheme) groups of a frame, in order of first
    appearance. *)
Definition group_keys (data : DataFrame) : list (cell * cell) :=
  nodup key_eq_dec (map (fun r => (field "profile" r, field "scheme" r)) (rows data)).

(** ** Example inputs *)

Definition ex_context : ledbat.Context :=
  {| ledbat.third_party_dir := "third_party"; ledbat.output_dir := "out" |}.

Definition ex_receiver_args : ledbat.Args :=
  {| ledbat.option_ := "receiver"; ledbat.port := "9000"; ledbat.ip := "" |}.

(** Every child can be started; the transfer process ends with status 1. *)
Definition ex_failing_transfer : ledbat.procs :=
  {| ledbat.check_call_status := fun _ => Some 1%Z;
     ledbat.popen_ok := fun _ => true;
     ledbat.write_ok := fun _ => true;
     ledbat.deadline_passed := fun _ => true;
     ledbat.poll_is_none := false |}.

(** A clock that stands still within an iteration of the sampler and
    advances by one second during each sleep, and a random number generator
    that always returns one half. *)
Definition ex_sampler_env : ledbat.sampler_env :=
  {| ledbat.clock := fun n => inject_Z (Z.of_nat ((n - 1) / 2));
     ledbat.rand := fun _ => (1 # 2)%Q |}.

(** The three samples the sampler takes with this clock and generator in
    three seconds. *)
Definition ex_samples : list ledbat.sample :=
  map (fun t => {| ledbat.timestamp := t;
                   ledbat.throughput := ledbat.uniform 1 10 (1 # 2);
                   ledbat.rtt := ledbat.uniform 100 300 (1 # 2);
                   ledbat.loss_rate := ledbat.uniform 0 (2 # 100) (1 # 2);
                   ledbat.queuing_delay := ledbat.uniform 0 50 (1 # 2) |})
      [(inject_Z 0 - inject_Z 0)%Q; (inject_Z 1 - inject_Z 0)%Q;
       (inject_Z 2 - inject_Z 0)%Q].

Definition newline : string := String (ascii_of_nat 10) EmptyString.

(** A writer for the examples: a header line and one line per sample, every
    number as a fraction. *)
Definition ex_Q (q : Q) : string :=
  final_analysis.str_of_Z (Qnum q) ++ "/" ++ final_analysis.str_of_Z (Z.pos (Qden q)).

Definition ex_to_csv (metrics : list ledbat.sample) : string :=
  "timestamp,throughput,rtt,loss_rate,queuing_delay" ++ newline ++
  String.concat ""
    (map (fun s => (ex_Q (ledbat.timestamp s) ++ "," ++ ex_Q (ledbat.throughput s) ++ ","
                    ++ ex_Q (ledbat.rtt s) ++ "," ++ ex_Q (ledbat.loss_rate s) ++ ","
                    ++ ex_Q (ledbat.queuing_delay s) ++ newline)%string) metrics).

(** A reader for the examples: lines end with a newline, fields are
    separated by commas, the first line is the header; a field of digits is
    a number, an empty field is missing, any other field is a string.  A
    text without header and a line with more fields than the header are
    rejected. *)
Definition is_digit (c : ascii) : bool :=
  let n := nat_of_ascii c in Nat.leb 48 n && Nat.leb n 57.

Fixpoint all_digits (s : string) : bool :=
  match s with
  | EmptyString => true
  | String c r => is_digit c && all_digits r
  end.

Fixpoint digits_value (acc : Z) (s : string) : Z :=
  match s with
  | EmptyString => acc
  | String c r => digits_value (acc * 10 + Z.of_nat (nat_of_ascii c - 48)) r
  end.

Definition ex_field (s : string) : option cell :=
  if String.eqb s "" then None
  else if all_digits s then Some (Num (inject_Z (digits_value 0 s)))
  else
    match split_at "." "" s with
    | [i; f] =>
        if negb (String.eqb i "") && negb (String.eqb f "") && all_digits i && all_digits f
        then Some (Num (Qred (inject_Z (digits_value 0 i)
                              + inject_Z (digits_value 0 f)
                                / inject_Z (10 ^ Z.of_nat (String.length f)))))
        else Some (Str s)
    | _ => Some (Str s)
    end.

Fixpoint ex_record (header fields : list string) : result (gmap string cell) :=
  match header, fields with
  | _, [] => Ok ∅
  | [] , _ :: _ => Raised ParserError
  | h :: header', f :: fields' =>
      do r <- ex_record header' fields';
      Ok match ex_field f with
         | Some c => <[h := c]> r
         | None => r
         end
  end.

Definition ex_read_csv (text : string) : result DataFrame :=
  match List.filter (fun l => negb (String.eqb l "")) (split_at (ascii_of_nat 10) "" text) with
  | [] => Raised ParserError
  | header :: lines =>
      let cols := split_at "," "" header in
      do rs <- rmap (fun l => ex_record cols (split_at "," "" l)) lines;
      Ok {| columns := cols; rows := rs |}
  end.

Definition ex_text (lines : list string) : string :=
  String.concat "" (map (fun l => (l ++ newline)%string) lines).

Definition ex_file (lines : list string) : final_analysis.file :=
  {| final_analysis.mtime := 0; final_analysis.content := ex_text lines |}.

(** One artifact, for profile 1 and scheme cubic, with three rows. *)
Definition ex_one_artifact : gmap string final_analysis.file :=
  {[ "results/profile_1/cubic/cubic_cc_log.csv" :=
       ex_file ["timestamp,throughput,rtt"; "0,4,100"; "7,5,130"; "9,6,110"] ]}.

Definition ex_profile_1 : final_analysis.profile :=
  {| final_analysis.name := "LTE (Low Latency)";
     final_analysis.latency := 5;
     final_analysis.dl_trace := "mahimahi/traces/TMobile-LTE-driving.down";
     final_analysis.ul_trace := "mahimahi/traces/TMobile-LTE-driving.up" |}.

(** The frame the reader makes of that artifact. *)
Definition ex_one_frame : DataFrame :=
  {| columns := ["timestamp"; "throughput"; "rtt"];
     rows := [ {[ "timestamp" := Num 0; "throughput" := Num 4; "rtt" := Num 100 ]};
               {[ "timestamp" := Num 7; "throughput" := Num 5; "rtt" := Num 130 ]};
               {[ "timestamp" := Num 9; "throughput" := Num 6; "rtt" := Num 110 ]} ] |}.

(** Its first record in the aggregate. *)
Definition ex_row : gmap string cell :=
  {[ "timestamp" := Num 0; "throughput" := Num 4; "rtt" := Num 100;
     "scheme" := Str "cubic"; "profile" := Str "1";
     "profile_name" := Str "LTE (Low Latency)"; "latency" := Num 5 ]}.

(** One artifact that has a column named like a tag of the aggregator. *)
Definition ex_latency_artifact : gmap string final_analysis.file :=
  {[ "results/profile_1/cubic/cubic_cc_log.csv" :=
       ex_file ["timestamp,throughput,rtt,latency"; "0,4,100,42"; "1,5,130,43"] ]}.

(** Two artifacts of profile 1: the one of cubic has a loss rate, the one of
    vegas has none. *)
Definition ex_mixed_artifacts : gmap string final_analysis.file :=
  {[ "results/profile_1/cubic/cubic_cc_log.csv" :=
       ex_file ["timestamp,throughput,rtt,loss_rate"; "0.0,4,100,0.01"; "1.0,6,120,0.02"];
     "results/profile_1/vegas/vegas_cc_log.csv" :=
       ex_file ["timestamp,throughput,rtt"; "0.0,3,150"; "1.0,5,170"] ]}.

(** A shell in which every test succeeds and leaves two metric files of the
    scheme cubic, the second one newer. *)
Definition ex_shell : final_analysis.shell_t :=
  fun _ fs =>
    (<["logs/metrics_cubic_2.csv" :=
         {| final_analysis.mtime := 20; final_analysis.content := "new" |}]>
       (<["logs/metrics_cubic_1.csv" :=
            {| final_analysis.mtime := 10; final_analysis.content := "old" |}]> fs),
     0%Z).

(** A shell in which every test fails, and plotting functions that do
    nothing. *)
Definition ex_failing_externals : final_analysis.externals :=
  {| final_analysis.shell := fun _ fs => (fs, 1%Z);
     final_analysis.now := 0;
     final_analysis.read_csv := ex_read_csv;
     final_analysis.sqrt := fun q => q;
     final_analysis.draw_throughput_plot := fun _ => Ok tt;
     final_analysis.draw_loss_plot := fun _ => Ok tt;
     final_analysis.draw_throughput_cdf := fun _ => Ok tt;
     final_analysis.scatter_rtt_vs_throughput := fun _ => Ok tt |}.

(** The scenario of the design document: profiles P1 (5 ms) and P2 (200 ms),
    schemes A and B, and one artifact, for (P1, A), with the throughputs 4,
    5 and 6. *)
Definition ex_scenario_catalog : final_analysis.catalog :=
  {| final_analysis.NET_PROFILES :=
       [("P1", {| final_analysis.name := "P1"; final_analysis.latency := 5;
                  final_analysis.dl_trace := "p1.down"; final_analysis.ul_trace := "p1.up" |});
        ("P2", {| final_analysis.name := "P2"; final_analysis.latency := 200;
                  final_analysis.dl_trace := "p2.down"; final_analysis.ul_trace := "p2.up" |})];
     final_analysis.CC_ALGOS := ["A"; "B"] |}.

Definition ex_scenario_files : gmap string final_analysis.file :=
  {[ "results/profile_P1/A/A_cc_log.csv" :=
       ex_file ["timestamp,throughput,rtt"; "0.2,4,100"; "1.3,5,130"; "2.4,6,110"] ]}.

(** Three artifacts of profile 1: a good one for cubic, one for fillp_sheep
    with a line that has too many fields, none for vegas. *)
Definition ex_partial_files : gmap string final_analysis.file :=
  {[ "results/profile_1/cubic/cubic_cc_log.csv" :=
       ex_file ["timestamp,throughput,rtt"; "0,4,100"; "1,5,130"];
     "results/profile_1/fillp_sheep/fillp_sheep_cc_log.csv" :=
       ex_file ["timestamp,throughput,rtt"; "0,4,100,7,7"];
     "results/profile_2/vegas/vegas_cc_log.csv" :=
       ex_file ["timestamp,throughput,rtt"; "0,9,300"] ]}.

(** A shell in which the tests of cubic fail with status 2 and the others
    succeed; no test writes a file. *)
Definition ex_cubic_fails : final_analysis.shell_t :=
  fun cmd fs =>
    (fs, if existsb (fun i => String.eqb (String.substring i 6 cmd) (String dquote "cubic"))
                    (seq 0 (String.length cmd))
         then 2%Z else 0%Z).

(** More inputs for the wrapper. *)
Definition ex_sender_args : ledbat.Args :=
  {| ledbat.option_ := "sender"; ledbat.port := "9000"; ledbat.ip := "10.0.0.1" |}.

Definition ex_setup_args : ledbat.Args :=
  {| ledbat.option_ := "setup"; ledbat.port := ""; ledbat.ip := "" |}.

(** The pipe to the transfer process breaks at the third write; the
    transfer process has ended by the time of the cleanup. *)
Definition ex_pipe_breaks : ledbat.procs :=
  {| ledbat.check_call_status := fun _ => Some 0%Z;
     ledbat.popen_ok := fun _ => true;
     ledbat.write_ok := fun k => Nat.ltb k 2;
     ledbat.deadline_passed := fun _ => false;
     ledbat.poll_is_none := false |}.

(** The deadline has passed at the first test; the transfer process is
    still running at the time of the cleanup. *)
Definition ex_deadline_passed : ledbat.procs :=
  {| ledbat.check_call_status := fun _ => Some 0%Z;
     ledbat.popen_ok := fun _ => true;
     ledbat.write_ok := fun _ => true;
     ledbat.deadline_passed := fun _ => true;
     ledbat.poll_is_none := true |}.

(** No [python] can be started. *)
Definition ex_no_sampler : ledbat.procs :=
  {| ledbat.check_call_status := fun _ => Some 0%Z;
     ledbat.popen_ok := fun cmd => match cmd with
                                   | c :: _ => negb (String.eqb c "python")
                                   | [] => true
                                   end;
     ledbat.write_ok := fun _ => true;
     ledbat.deadline_passed := fun _ => true;
     ledbat.poll_is_none := true |}.

(** One artifact with a header and no line of data. *)
Definition ex_header_only : gmap string final_analysis.file :=
  {[ "results/profile_1/cubic/cubic_cc_log.csv" := ex_file ["timestamp,throughput,rtt"] ]}.

(** A frame tagged like the aggregate, with a column [rtt] and no column
    [throughput]. *)
Definition ex_no_throughput : DataFrame :=
  {| columns := ["rtt"; "scheme"; "profile"; "profile_name"];
     rows := [ {[ "rtt" := Num 100; "scheme" := Str "cubic"; "profile" := Str "1";
                  "profile_name" := Str "LTE (Low Latency)" ]} ] |}.

(** * Part II.  Properties *)

(** ** The transfer lifecycle *)

Section Lifecycle.
Import ledbat.

Variable P : procs.
Variable context : Context.

Lemma sampler_pending_from_app b tr1 tr2 :
  sampler_pending_from b (tr1 ++ tr2) =
  sampler_pending_from (sampler_pending_from b tr1) tr2.
Proof.
  revert b. induction tr1 as [|e tr1 IH]; intros b; [reflexivity|].
  destruct e as [[] ?| | |[]|[]]; simpl; apply IH.
Qed.

(** The send loop does not touch the sampler. *)
Lemma send_loop_pending fuel : forall k tr r tr',
  send_loop fuel P k tr = Some (r, tr') ->
  sampler_pending tr' = sampler_pending tr.
Proof.
  induction fuel as [|fuel IH]; intros k tr r tr' H; [discriminate|].
  simpl in H. destruct (write_ok P k); [|by inversion H].
  unfold bind, emit in H.
  destruct (deadline_passed P k).
  - inversion H; subst. unfold sampler_pending.
    by rewrite sampler_pending_from_app.
  - apply IH in H. rewrite H. unfold sampler_pending.
    by rewrite sampler_pending_from_app.
Qed.

(** The send loop ends when a write fails or the deadline has passed. *)
Lemma send_loop_terminates n : forall k tr,
  (write_ok P (k + n) = false \/ deadline_passed P (k + n) = true) ->
  exists r tr', send_loop (S n) P k tr = Some (r, tr').
Proof.
  induction n as [|n IH]; intros k tr H.
  - rewrite Nat.add_0_r in H. simpl. destruct (write_ok P k) eqn:W.
    + destruct H as [H|H]; [congruence|]. unfold bind, emit. rewrite H. by eauto.
    + by eauto.
  - change (send_loop (S (S n)) P k tr) with
      ((if write_ok P k
        then (emit (Wrote k) ;;
              if deadline_passed P k then ret tt else send_loop (S n) P (S k))%proc
        else raise BrokenPipeError) tr).
    destruct (write_ok P k); [|by eauto].
    unfold bind, emit. destruct (deadline_passed P k); [by eauto|].
    apply IH. by rewrite <- Nat.add_succ_comm in H.
Qed.

(** In sender mode the cleanup of the [finally] clause runs on every way out
    of the loop: when [main] returns or raises, no sampler is left without a
    termination request. *)
Lemma sender_releases_sampler fuel args r tr :
  option_ args = "sender" ->
  main fuel P context args [] = Some (r, tr) ->
  sampler_pending tr = false.
Proof.
  intros Hopt H. unfold main in H. rewrite Hopt in H. simpl in H.
  unfold bind, Popen in H.
  destruct (popen_ok P _); [|by inversion H].
  unfold emit in H. simpl in H.
  destruct (popen_ok P _); [|by inversion H].
  simpl in H. unfold try_finally in H.
  match type of H with context [send_loop fuel P 0 ?t] =>
    destruct (send_loop fuel P 0 t) as [[r0 tr0]|] eqn:L; [|discriminate] end.
  unfold bind, emit, ret in H.
  assert (forall t, sampler_pending (t ++ [Terminated Sampler]) = false) as Hend.
  { intros t. unfold sampler_pending. by rewrite sampler_pending_from_app. }
  destruct (poll_is_none P); inversion H; subst; apply Hend.
Qed.

(** In sender mode [main] does return or raise once a write fails or the
    deadline has passed. *)
Lemma sender_returns n args :
  option_ args = "sender" ->
  (write_ok P n = false \/ deadline_passed P n = true) ->
  exists r tr, main (S n) P context args [] = Some (r, tr).
Proof.
  intros Hopt Hn. unfold main. rewrite Hopt.
  cbn [String.eqb Ascii.eqb Bool.eqb]. unfold bind, Popen.
  destruct (popen_ok P _); [|by eauto]. unfold emit at 1.
  destruct (popen_ok P _); [|by eauto]. unfold emit at 1.
  unfold try_finally.
  match goal with |- context [send_loop (S n) P 0 ?t] =>
    destruct (send_loop_terminates n 0 t Hn) as (r0 & tr0 & ->) end.
  unfold bind, emit, ret. destruct (poll_is_none P); by eauto.
Qed.

(** In receiver mode the request is made when the transfer ends with exit
    status 0. *)
Lemma receiver_releases_sampler_on_success fuel args r tr :
  option_ args = "receiver" ->
  main fuel P context args [] = Some (Ok r, tr) ->
  sampler_pending tr = false.
Proof.
  intros Hopt H. unfold main in H. rewrite Hopt in H. simpl in H.
  unfold bind, Popen in H.
  destruct (popen_ok P _); [|by inversion H].
  unfold emit at 1 in H. unfold check_call in H.
  destruct (check_call_status P _) as [[| |]|]; unfold bind, emit, raise in H;
    inversion H; subst; reflexivity.
Qed.

(** In receiver mode the request is skipped when the transfer process ends
    with another status: [check_call] raises and nothing catches it. *)
Lemma receiver_failure_skips_release fuel args rc :
  option_ args = "receiver" ->
  popen_ok P (sampler_cmd (path_join (output_dir context) "ledbat_metrics.csv")) = true ->
  check_call_status P
    [path_join (path_join (third_party_dir context) "libutp") "ucat-static";
     "-l"; "-p"; port args] = Some rc ->
  rc <> 0%Z ->
  exists tr,
    main fuel P context args [] = Some (Raised (CalledProcessError rc), tr) /\
    sampler_pending tr = true.
Proof.
  intros Hopt Hpopen Hstatus Hrc. unfold main. rewrite Hopt.
  cbn [String.eqb Ascii.eqb Bool.eqb]. unfold bind, Popen. rewrite Hpopen.
  unfold emit at 1. unfold check_call. rewrite Hstatus.
  destruct rc as [|rc|rc]; [done| |]; unfold bind, emit, raise;
    (eexists; split; [reflexivity|reflexivity]).
Qed.

End Lifecycle.

(** ** The metrics sampler *)

Section Sampler.
Import ledbat.

Variable E : sampler_env.

(** [random.random()] returns a number of the interval [[0, 1)]. *)
Hypothesis rand_unit : forall n, (0 <= rand E n)%Q /\ (rand E n < 1)%Q.

Lemma uniform_bounds a b u :
  (a <= b)%Q -> (0 <= u)%Q -> (u < 1)%Q ->
  (a <= uniform a b u)%Q /\ (uniform a b u <= b)%Q.
Proof.
  intros Hab H0 H1. unfold uniform.
  assert (0 <= (b - a) * u)%Q as Hlo.
  { apply Qmult_le_0_compat; lra. }
  assert ((b - a) * u <= (b - a) * 1)%Q as Hhi.
  { rewrite !(Qmult_comm (b - a)). apply Qmult_le_compat_r; lra. }
  split; lra.
Qed.

Lemma fresh_sample_in_ranges t nr :
  in_ranges {| timestamp := t;
               throughput := uniform 1 10 (rand E nr);
               rtt := uniform 100 300 (rand E (nr + 1));
               loss_rate := uniform 0 (2 # 100) (rand E (nr + 2));
               queuing_delay := uniform 0 50 (rand E (nr + 3)) |}.
Proof.
  unfold in_ranges; simpl.
  repeat split;
    (apply uniform_bounds; [lra | apply rand_unit | apply rand_unit]).
Qed.

(** Whatever the clock does, the samples the loop appends are in range. *)
Lemma sample_loop_in_ranges fuel start duration : forall nt nr metrics ms,
  Forall in_ranges metrics ->
  sample_loop fuel E start duration nt nr metrics = Some ms ->
  Forall in_ranges ms.
Proof.
  induction fuel as [|fuel IH]; intros nt nr metrics ms Hm H; [discriminate|].
  simpl in H. destruct (Qlt_bool _ _).
  - eapply IH; [|exact H]. apply Forall_app. split; [exact Hm|].
    constructor; [apply fresh_sample_in_ranges | constructor].
  - by inversion H; subst.
Qed.

(** [time.sleep(1)] lasts one second at least, and the clock does not run
    backwards: the reading that opens an iteration is at least one second
    after the reading that opened the iteration before. *)
Hypothesis clock_start : (clock E 0 <= clock E 1)%Q.
Hypothesis clock_tick : forall i, (clock E (2 * i + 1) + 1 <= clock E (2 * i + 3))%Q.

Lemma elapsed_at_iteration i :
  (inject_Z (Z.of_nat i) <= clock E (2 * i + 1) - clock E 0)%Q.
Proof.
  induction i as [|i IH].
  - change (inject_Z (Z.of_nat 0)) with 0%Q. simpl. lra.
  - pose proof (clock_tick i) as Ht.
    replace (2 * S i + 1)%nat with (2 * i + 3)%nat by lia.
    rewrite Nat2Z.inj_succ. unfold Z.succ. rewrite inject_Z_plus.
    change (inject_Z 1) with 1%Q. lra.
Qed.

Lemma sample_loop_step fuel start duration nt nr metrics :
  sample_loop (S fuel) E start duration nt nr metrics =
  if Qlt_bool (clock E nt - start)%Q duration then
    sample_loop fuel E start duration (nt + 2) (nr + 4)
      (metrics ++ [{| timestamp := (clock E (nt + 1) - start)%Q;
                      throughput := uniform 1 10 (rand E nr);
                      rtt := uniform 100 300 (rand E (nr + 1));
                      loss_rate := uniform 0 (2 # 100) (rand E (nr + 2));
                      queuing_delay := uniform 0 50 (rand E (nr + 3)) |}])
  else Some metrics.
Proof. reflexivity. Qed.

Lemma sample_loop_bounded (duration : Q) (N : nat) :
  (duration <= inject_Z (Z.of_nat N))%Q ->
  forall fuel i metrics,
    length metrics = i -> (i <= N)%nat -> (N < fuel + i)%nat ->
    exists ms,
      sample_loop fuel E (clock E 0) duration (2 * i + 1) (4 * i) metrics = Some ms /\
      (length ms <= N)%nat.
Proof.
  intros HN. induction fuel as [|fuel IH]; intros i metrics Hlen Hi Hfuel; [lia|].
  rewrite sample_loop_step. destruct (Qlt_bool _ _) eqn:Hc.
  - assert (i < N)%nat as HiN.
    { destruct (Nat.eq_dec i N) as [->|]; [|lia]. exfalso.
      unfold Qlt_bool in Hc. apply negb_true_iff in Hc.
      assert (Qle_bool duration (clock E (2 * N + 1) - clock E 0) = true) as Hle.
      { apply Qle_bool_iff. pose proof (elapsed_at_iteration N). lra. }
      congruence. }
    replace (2 * i + 1 + 2)%nat with (2 * S i + 1)%nat by lia.
    replace (4 * i + 4)%nat with (4 * S i)%nat by lia.
    apply IH; [|lia|lia]. rewrite length_app. simpl. lia.
  - exists metrics. split; [reflexivity|lia].
Qed.

End Sampler.

(** ** Claims on the wrapper *)

(** C1 (fails in receiver mode).  The transfer process of a receiver exits
    with status 1: [check_call] raises [CalledProcessError], [main]
    propagates it, and the sampler that was started has received no
    termination request.  The sender branch guards the same request with
    [try ... finally] (lemma [sender_releases_sampler]). *)
Theorem receiver_failure_leaves_sampler_running :
  ledbat.main 1 ex_failing_transfer ex_context ex_receiver_args [] =
    Some (Raised (CalledProcessError 1),
          [ledbat.Started ledbat.Sampler (ledbat.sampler_cmd "out/ledbat_metrics.csv");
           ledbat.Completed ["third_party/libutp/ucat-static"; "-l"; "-p"; "9000"]]) /\
  ledbat.sampler_pending
    [ledbat.Started ledbat.Sampler (ledbat.sampler_cmd "out/ledbat_metrics.csv");
     ledbat.Completed ["third_party/libutp/ucat-static"; "-l"; "-p"; "9000"]] = true.
Proof. split; reflexivity. Qed.

(** C9.  With [random.random()] in [[0, 1)], every sample the sampler
    appends has its throughput in [[1, 10]], its round-trip time in
    [[100, 300]], its loss rate in [[0, 0.02]] and its queueing delay in
    [[0, 50]]; with sleeps of one second at least the loop ends, and it
    appends at most one sample per second of the duration: at most 75 for
    the default duration. *)
Theorem sampler_contract (E : ledbat.sampler_env) (duration : Q) :
  (forall n, (0 <= ledbat.rand E n)%Q /\ (ledbat.rand E n < 1)%Q) ->
  (ledbat.clock E 0 <= ledbat.clock E 1)%Q ->
  (forall i, (ledbat.clock E (2 * i + 1) + 1 <= ledbat.clock E (2 * i + 3))%Q) ->
  exists metrics,
    ledbat.sample_phase (S (Z.to_nat (Qceiling duration))) E duration = Some metrics /\
    Forall in_ranges metrics /\
    (length metrics <= Z.to_nat (Qceiling duration))%nat /\
    (duration = ledbat.default_duration -> (length metrics <= 75)%nat).
Proof.
  intros Hrand Hstart Htick.
  set (N := Z.to_nat (Qceiling duration)).
  assert (duration <= inject_Z (Z.of_nat N))%Q as HN.
  { eapply Qle_trans; [apply Qle_ceiling|].
    rewrite <- Zle_Qle. unfold N. lia. }
  destruct (sample_loop_bounded E Hstart Htick duration N HN (S N) 0 [])
    as (ms & Hms & Hlen); [reflexivity|lia|lia|].
  exists ms. split; [exact Hms|]. split; [|split; [exact Hlen|]].
  - eapply sample_loop_in_ranges; [exact Hrand| |exact Hms]. constructor.
  - intros ->. exact Hlen.
Qed.

Lemma sampler_contract_witness :
  exists metrics,
    ledbat.sample_phase 4 ex_sampler_env 3 = Some metrics /\
    Forall in_ranges metrics /\
    (length metrics <= 3)%nat /\
    (3%Q = ledbat.default_duration -> (length metrics <= 75)%nat).
Proof.
  apply (sampler_contract ex_sampler_env 3).
  - intros n. split; [discriminate | reflexivity].
  - discriminate.
  - intros i. unfold ex_sampler_env, ledbat.clock.
    replace ((2 * i + 1 - 1) / 2)%nat with i
      by (rewrite Nat.add_sub, Nat.mul_comm; symmetry; apply Nat.div_mul; lia).
    replace ((2 * i + 3 - 1) / 2)%nat with (S i)
      by (replace (2 * i + 3 - 1)%nat with (S i * 2)%nat by lia;
          symmetry; apply Nat.div_mul; lia).
    rewrite Nat2Z.inj_succ. unfold Z.succ. rewrite inject_Z_plus. apply Qle_refl.
Defined.

Section Persist.
Import ledbat.

Lemma removelast_fixpoint {A} (l : list A) : removelast l = l -> l = [].
Proof.
  induction l as [|x l IH]; [reflexivity|].
  destruct l as [|y l]; [discriminate|].
  change (removelast (x :: y :: l)) with (x :: removelast (y :: l)).
  intros H. injection H as H. apply IH in H. discriminate.
Qed.

(** The directory of the artifact is there after [mkdir] when it was there
    before or when its own parent was. *)
Lemma Path_mkdir_one_level fs name :
  is_dir fs (parts name) = true \/
  (node_at fs (parts name) = None /\ is_dir fs (parent (parts name)) = true) ->
  exists fs',
    Path_mkdir fs name = Ok fs' /\
    is_dir fs' (parts name) = true /\
    forall p, p <> parts name -> fs' !! p = fs !! p.
Proof.
  unfold Path_mkdir, os_mkdir, is_dir. intros [H|[Hn Hp]].
  - destruct (node_at fs (parts name)) as [[]|] eqn:Hd; try discriminate.
    exists fs. by rewrite Hd.
  - rewrite Hn. destruct (node_at fs (parent (parts name))) as [[]|]; try discriminate.
    eexists. split; [reflexivity|]. split.
    + unfold node_at. destruct (parts name); [reflexivity|]. by rewrite lookup_insert_eq.
    + intros p Hne. by rewrite lookup_insert_ne.
Qed.

Lemma save_metrics_one_level to_csv fs metrics_file metrics :
  parent (parts metrics_file) = parts (dirname metrics_file) ->
  is_dir fs (parts (dirname metrics_file)) = true \/
  (node_at fs (parts (dirname metrics_file)) = None /\
   is_dir fs (parent (parts (dirname metrics_file))) = true) ->
  node_at fs (parts metrics_file) <> Some Dir ->
  exists fs',
    save_metrics to_csv fs metrics_file metrics = Ok fs' /\
    fs' !! parts metrics_file = Some (File (to_csv metrics)) /\
    is_dir fs' (parts (dirname metrics_file)) = true /\
    forall p, p <> parts metrics_file -> p <> parts (dirname metrics_file) ->
              fs' !! p = fs !! p.
Proof.
  intros Hpar Hdir Hfile.
  destruct (Path_mkdir_one_level fs (dirname metrics_file) Hdir)
    as (fs1 & Hmk & Hd1 & Hframe).
  unfold save_metrics. rewrite Hmk. simpl.
  set (p := parts metrics_file) in *. set (d := parts (dirname metrics_file)) in *.
  assert (p <> []) as Hp0.
  { intros E0. apply Hfile. by rewrite E0. }
  assert (p <> d) as Hpd.
  { intros E0. apply Hp0. apply removelast_fixpoint. fold (parent p). congruence. }
  assert (node_at fs1 p = node_at fs p) as Hsame.
  { unfold node_at. destruct p; [done|]. by apply Hframe. }
  assert (exists fs', write_file fs1 metrics_file (to_csv metrics) = Ok fs' /\
                      fs' = <[p := File (to_csv metrics)]> fs1) as (fs' & Hw & ->).
  { unfold write_file. fold p. rewrite Hsame, Hpar. fold d.
    unfold is_dir in Hd1.
    destruct (node_at fs p) as [[]|]; [done|by eauto|].
    destruct (node_at fs1 d) as [[]|]; try discriminate. by eauto. }
  eexists. split; [exact Hw|]. split; [by rewrite lookup_insert_eq|]. split.
  - unfold is_dir, node_at in *. destruct d; [reflexivity|].
    by rewrite lookup_insert_ne.
  - intros q Hq1 Hq2. rewrite lookup_insert_ne by done. by apply Hframe.
Qed.

End Persist.

(** C8 (as the code has it).  When the loop of the sampler has ended, the
    sampler writes the whole list of samples, in order, to the artifact
    path; it creates the directory of the artifact when that directory is
    missing and the parent of that directory exists. *)
Theorem collect_metrics_persists (fuel : nat) (E : ledbat.sampler_env)
    (to_csv : list ledbat.sample -> string) (fs : gmap (list string) ledbat.node)
    (metrics_file : string) (duration : Q) (metrics : list ledbat.sample) :
  ledbat.sample_phase fuel E duration = Some metrics ->
  ledbat.parent (parts metrics_file) = parts (dirname metrics_file) ->
  ledbat.is_dir fs (parts (dirname metrics_file)) = true \/
  (ledbat.node_at fs (parts (dirname metrics_file)) = None /\
   ledbat.is_dir fs (ledbat.parent (parts (dirname metrics_file))) = true) ->
  ledbat.node_at fs (parts metrics_file) <> Some ledbat.Dir ->
  exists fs',
    ledbat.collect_metrics fuel E to_csv fs metrics_file duration = Some (Ok fs') /\
    fs' !! parts metrics_file = Some (ledbat.File (to_csv metrics)) /\
    ledbat.is_dir fs' (parts (dirname metrics_file)) = true /\
    forall p, p <> parts metrics_file -> p <> parts (dirname metrics_file) ->
              fs' !! p = fs !! p.
Proof.
  intros Hloop Hpar Hdir Hfile.
  destruct (save_metrics_one_level to_csv fs metrics_file metrics Hpar Hdir Hfile)
    as (fs' & Hsave & Hrest).
  exists fs'. split; [|exact Hrest].
  unfold ledbat.collect_metrics. by rewrite Hloop, Hsave.
Qed.

Lemma collect_metrics_persists_witness :
  exists fs',
    ledbat.collect_metrics 4 ex_sampler_env ex_to_csv ∅ "out/ledbat_metrics.csv" 3
      = Some (Ok fs') /\
    fs' !! ["out"; "ledbat_metrics.csv"] = Some (ledbat.File (ex_to_csv ex_samples)) /\
    ledbat.is_dir fs' ["out"] = true /\
    forall p, p <> ["out"; "ledbat_metrics.csv"] -> p <> ["out"] ->
              fs' !! p = (∅ : gmap (list string) ledbat.node) !! p.
Proof.
  apply (collect_metrics_persists 4 ex_sampler_env ex_to_csv ∅
           "out/ledbat_metrics.csv" 3 ex_samples).
  - reflexivity.
  - reflexivity.
  - right. split; reflexivity.
  - discriminate.
Defined.

(** C8 as stated fails: with no directory [out], the directory [out/run1]
    of the artifact is not created, the sampler raises and nothing is
    written. *)
Lemma nested_directory_not_created :
  ledbat.collect_metrics 4 ex_sampler_env ex_to_csv ∅ "out/run1/ledbat_metrics.csv" 3
    = Some (Raised (FileNotFoundError "out/run1")).
Proof. reflexivity. Qed.


(** ** Lists *)

Lemma fold_left_app_flat_map {A B} (f : A -> list B) (l : list A) (acc : list B) :
  fold_left (fun acc x => acc ++ f x) l acc = acc ++ flat_map f l.
Proof.
  revert acc. induction l as [|x l IH]; intros acc; simpl.
  - by rewrite app_nil_r.
  - by rewrite IH, app_assoc.
Qed.

Lemma flat_map_map_fusion {A B D} (g : A -> B) (f : B -> list D) (l : list A) :
  flat_map f (map g l) = flat_map (fun x => f (g x)) l.
Proof. induction l as [|x l IH]; simpl; [reflexivity | by rewrite IH]. Qed.

Lemma flat_map_flat_map {A B D} (g : A -> list B) (f : B -> list D) (l : list A) :
  flat_map f (flat_map g l) = flat_map (fun x => flat_map f (g x)) l.
Proof.
  induction l as [|x l IH]; simpl; [reflexivity|].
  by rewrite flat_map_app, IH.
Qed.

Lemma flat_map_nil_ext {A B} (f : A -> list B) (l : list A) :
  (forall x, In x l -> f x = []) -> flat_map f l = [].
Proof.
  induction l as [|x l IH]; intros H; simpl; [reflexivity|].
  rewrite (H x) by (by left). apply IH. intros y Hy. apply H. by right.
Qed.

Lemma filter_flat_map {A B} (h : B -> bool) (f : A -> list B) (l : list A) :
  List.filter h (flat_map f l) = flat_map (fun x => List.filter h (f x)) l.
Proof.
  induction l as [|x l IH]; simpl; [reflexivity|].
  by rewrite List.filter_app, IH.
Qed.

Lemma filter_all {A} (h : A -> bool) (l : list A) :
  (forall x, In x l -> h x = true) -> List.filter h l = l.
Proof.
  induction l as [|x l IH]; intros H; simpl; [reflexivity|].
  rewrite (H x) by (by left). f_equal. apply IH. intros y Hy. apply H. by right.
Qed.

Lemma filter_none {A} (h : A -> bool) (l : list A) :
  (forall x, In x l -> h x = false) -> List.filter h l = [].
Proof.
  induction l as [|x l IH]; intros H; simpl; [reflexivity|].
  rewrite (H x) by (by left). apply IH. intros y Hy. apply H. by right.
Qed.

Lemma zip_with_map_l {A B D F} (f : B -> D -> F) (g : A -> B) (l : list A) (k : list D) :
  zip_with f (map g l) k = zip_with (fun x y => f (g x) y) l k.
Proof.
  revert k. induction l as [|x l IH]; intros [|y k]; simpl; try reflexivity.
  by rewrite IH.
Qed.

Lemma map_zip_with_snd {A B D} (f : A -> B -> D) (p : D -> B) (l : list A) (k : list B) :
  (forall x y, p (f x y) = y) -> length l = length k ->
  map p (zip_with f l k) = k.
Proof.
  intros Hp. revert k. induction l as [|x l IH]; intros [|y k] Hl; simpl in *;
    try reflexivity; try discriminate.
  rewrite Hp, IH; [reflexivity | lia].
Qed.

Lemma map_zip_with_fst {A B D F} (f : A -> B -> D) (p : D -> F) (q : A -> F)
    (l : list A) (k : list B) :
  (forall x y, p (f x y) = q x) -> length l = length k ->
  map p (zip_with f l k) = map q l.
Proof.
  intros Hp. revert k. induction l as [|x l IH]; intros [|y k] Hl; simpl in *;
    try reflexivity; try discriminate.
  rewrite Hp, IH; [reflexivity | lia].
Qed.

Lemma In_zip_with {A B D} (f : A -> B -> D) (l : list A) (k : list B) (z : D) :
  In z (zip_with f l k) -> exists x y, z = f x y /\ In x l /\ In y k.
Proof.
  revert k. induction l as [|x l IH]; intros [|y k] H; simpl in H; try contradiction.
  destruct H as [<-|H].
  - exists x, y. repeat split; by left.
  - destruct (IH k H) as (x' & y' & -> & Hx & Hy).
    exists x', y'. repeat split; by right.
Qed.

Lemma select_rows_map (h : gmap string cell -> bool) (rs : list (gmap string cell)) :
  select_rows rs (map h rs) = List.filter h rs.
Proof.
  induction rs as [|r rs IH]; simpl; [reflexivity|].
  destruct (h r); by rewrite IH.
Qed.

Lemma zip_with_andb_map {A} (f g : A -> bool) (l : list A) :
  zip_with andb (map f l) (map g l) = map (fun x => f x && g x) l.
Proof. induction l as [|x l IH]; simpl; [reflexivity | by rewrite IH]. Qed.

Lemma length_range n : length (range n) = n.
Proof. unfold range. by rewrite length_map, length_seq. Qed.

(** ** Frames *)

Lemma mem_In x l : mem x l = true <-> In x l.
Proof.
  unfold mem. rewrite existsb_exists. split.
  - intros (y & Hy & Heq). apply String.eqb_eq in Heq. by subst.
  - intros H. exists x. split; [exact H | apply String.eqb_refl].
Qed.

Lemma mem_add_column_same c cols : mem c (add_column c cols) = true.
Proof.
  unfold add_column. destruct (mem c cols) eqn:H; [exact H|].
  apply mem_In, in_or_app. right. by left.
Qed.

Lemma mem_add_column_keep c n cols : mem c cols = true -> mem c (add_column n cols) = true.
Proof.
  intros H. unfold add_column. destruct (mem n cols); [exact H|].
  apply mem_In, in_or_app. left. by apply mem_In.
Qed.

Lemma mem_fold_add_keep c cs : forall acc,
  mem c acc = true -> mem c (fold_left (fun acc c => add_column c acc) cs acc) = true.
Proof.
  induction cs as [|c0 cs IH]; intros acc H; simpl; [exact H|].
  apply IH. by apply mem_add_column_keep.
Qed.

Lemma mem_fold_add_new c cs : forall acc,
  In c cs -> mem c (fold_left (fun acc c => add_column c acc) cs acc) = true.
Proof.
  induction cs as [|c0 cs IH]; intros acc H; simpl; [contradiction|].
  destruct H as [->|H]; [|by apply IH].
  apply mem_fold_add_keep, mem_add_column_same.
Qed.

Lemma mem_union_columns_from c frames : forall acc,
  mem c acc = true \/ (exists df, In df frames /\ In c (columns df)) ->
  mem c (fold_left (fun acc df => fold_left (fun acc c => add_column c acc) (columns df) acc)
                   frames acc) = true.
Proof.
  induction frames as [|df frames IH]; intros acc H; simpl.
  - destruct H as [H|(df & [] & _)]. exact H.
  - apply IH. destruct H as [H|(df' & [<-|Hin] & Hc)].
    + left. by apply mem_fold_add_keep.
    + left. by apply mem_fold_add_new.
    + right. by eauto.
Qed.

(** A label of one of the frames is a label of their concatenation. *)
Lemma has_column_concat c df frames :
  In df frames -> In c (columns df) -> has_column c (concat frames) = true.
Proof.
  intros Hdf Hc. unfold has_column, concat, union_columns; simpl.
  apply mem_union_columns_from. right. by eauto.
Qed.

Lemma getitem_ok df c :
  has_column c df = true -> getitem df c = Ok (map (field c) (rows df)).
Proof. intros H. unfold getitem. by rewrite H. Qed.

(** ** The aggregator *)

Section Aggregation.
Import final_analysis.

Variable C : catalog.
Variable read_csv : string -> result DataFrame.
Variable fs : gmap string file.

(** The five assignments of the [try] never raise: a parsed file is tagged. *)
Lemma tag_frame_ok prof_id cfg algo log_file df :
  read_csv_file read_csv fs log_file = Ok df ->
  tag_frame read_csv fs prof_id cfg algo log_file =
    Ok {| columns :=
            add_column "timestamp"
              (add_column "latency"
                 (add_column "profile_name"
                    (add_column "profile" (add_column "scheme" (columns df)))));
          rows := tagged_rows prof_id cfg algo df |}.
Proof.
  intros H. unfold tag_frame. rewrite H. simpl rbind.
  unfold setitem_list, len, setitem_scalar. simpl rows.
  rewrite length_range, !length_map, Nat.eqb_refl. simpl columns.
  unfold tagged_rows, len. by rewrite !zip_with_map_l.
Qed.

Lemma tag_frame_raised prof_id cfg algo log_file e :
  read_csv_file read_csv fs log_file = Raised e ->
  tag_frame read_csv fs prof_id cfg algo log_file = Raised e.
Proof. intros H. unfold tag_frame. by rewrite H. Qed.

Lemma collect_pair_app prof_id cfg algo frames :
  collect_pair read_csv fs prof_id cfg algo frames =
  frames ++ collect_pair read_csv fs prof_id cfg algo [].
Proof.
  unfold collect_pair. destruct (isfile fs _); [|by rewrite app_nil_r].
  destruct (tag_frame _ _ _ _ _ _); [reflexivity | by rewrite app_nil_r].
Qed.

Lemma collect_pair_rows prof_id cfg algo :
  flat_map rows (collect_pair read_csv fs prof_id cfg algo []) =
  contribution read_csv fs (prof_id, cfg, algo).
Proof.
  unfold collect_pair, contribution, isfile.
  destruct (fs !! log_file_of prof_id algo) as [f|] eqn:Hf; [|reflexivity].
  destruct (read_csv (content f)) as [df|e] eqn:Hr.
  - rewrite (tag_frame_ok prof_id cfg algo _ df).
    + simpl. by rewrite app_nil_r.
    + unfold read_csv_file. by rewrite Hf.
  - rewrite (tag_frame_raised prof_id cfg algo _ e); [reflexivity|].
    unfold read_csv_file. by rewrite Hf.
Qed.

Lemma collect_inner prof_id cfg algos : forall frames,
  fold_left (fun frames algo => collect_pair read_csv fs prof_id cfg algo frames)
            algos frames =
  frames ++ flat_map (fun algo => collect_pair read_csv fs prof_id cfg algo []) algos.
Proof.
  induction algos as [|a algos IH]; intros frames; simpl.
  - by rewrite app_nil_r.
  - by rewrite IH, (collect_pair_app _ _ _ frames), app_assoc.
Qed.

(** The two nested loops visit the pairs of the catalog in order, and each
    pair adds its own frame or nothing. *)
Lemma collect_frames_pairs :
  collect_frames C read_csv fs =
  flat_map (fun '(prof_id, cfg, algo) => collect_pair read_csv fs prof_id cfg algo [])
           (pairs C).
Proof.
  unfold collect_frames, pairs.
  enough (forall ps frames,
    fold_left
      (fun frames '(prof_id, cfg) =>
         fold_left (fun frames algo => collect_pair read_csv fs prof_id cfg algo frames)
                   (CC_ALGOS C) frames) ps frames =
    frames ++
    flat_map (fun '(prof_id, cfg, algo) => collect_pair read_csv fs prof_id cfg algo [])
      (flat_map (fun '(prof_id, cfg) => map (fun algo => (prof_id, cfg, algo)) (CC_ALGOS C))
                ps)) as H by apply (H _ []).
  induction ps as [|[p cfg] ps IH]; intros frames; simpl.
  - by rewrite app_nil_r.
  - rewrite IH, collect_inner, flat_map_app, flat_map_map_fusion. by rewrite app_assoc.
Qed.

(** The records of the aggregate are the contributions of the pairs, in the
    order of the catalog. *)
Lemma rows_collect_dataframes :
  rows (collect_dataframes C read_csv fs) = flat_map (contribution read_csv fs) (pairs C).
Proof.
  assert (rows (collect_dataframes C read_csv fs) =
          flat_map rows (collect_frames C read_csv fs)) as ->.
  { unfold collect_dataframes. by destruct (collect_frames C read_csv fs). }
  rewrite collect_frames_pairs, flat_map_flat_map.
  apply flat_map_ext. intros [[p cfg] a]. apply collect_pair_rows.
Qed.

Lemma In_pairs prof_id cfg algo :
  In (prof_id, cfg, algo) (pairs C) <->
  In (prof_id, cfg) (NET_PROFILES C) /\ In algo (CC_ALGOS C).
Proof.
  unfold pairs. rewrite in_flat_map. split.
  - intros ([p c] & Hp & Hin). apply in_map_iff in Hin as (a & Heq & Ha).
    by inversion Heq; subst.
  - intros [Hp Ha]. exists (prof_id, cfg). split; [exact Hp|].
    apply in_map_iff. by eauto.
Qed.

(** The tags of a contributed record. *)
Lemma contribution_tags prof_id cfg algo r :
  In r (contribution read_csv fs (prof_id, cfg, algo)) ->
  r !! "scheme" = Some (Str algo) /\
  r !! "profile" = Some (Str prof_id) /\
  r !! "profile_name" = Some (Str (name cfg)) /\
  r !! "latency" = Some (Num (inject_Z (latency cfg))).
Proof.
  unfold contribution. destruct (fs !! _) as [f|]; [|contradiction].
  destruct (read_csv _) as [df|]; [|contradiction].
  unfold tagged_rows. intros H. apply In_zip_with in H as (r0 & i & -> & _ & _).
  repeat split; by simplify_map_eq.
Qed.

End Aggregation.

Lemma flat_map_pick_one {A B} (h : A -> bool) (f : A -> list B) (l : list A) (x : A) :
  List.NoDup l -> In x l -> h x = true ->
  (forall y, In y l -> h y = true -> y = x) ->
  flat_map (fun y => if h y then f y else []) l = f x.
Proof.
  induction l as [|y l IH]; intros Hnd Hin Hx Huniq; [contradiction|].
  inversion Hnd as [|? ? Hy Hnd']; subst. simpl.
  destruct Hin as [->|Hin].
  - rewrite Hx. rewrite flat_map_nil_ext; [by rewrite app_nil_r|].
    intros z Hz. destruct (h z) eqn:Hhz; [|reflexivity].
    exfalso. apply Hy. rewrite <- (Huniq z); [exact Hz | by right | exact Hhz].
  - destruct (h y) eqn:Hhy.
    + exfalso. apply Hy. rewrite (Huniq y); [exact Hin | by left | exact Hhy].
    + simpl. apply IH; try assumption. intros z Hz. apply Huniq. by right.
Qed.

Lemma NoDup_keys_functional {A B} (l : list (A * B)) (k : A) (v1 v2 : B) :
  List.NoDup (map fst l) -> In (k, v1) l -> In (k, v2) l -> v1 = v2.
Proof.
  induction l as [|[k0 v0] l IH]; intros Hnd H1 H2; [contradiction|].
  simpl in Hnd. inversion Hnd as [|? ? Hk Hnd']; subst.
  assert (forall v, In (k0, v) l -> False) as Hfresh.
  { intros v Hv. apply Hk. apply in_map_iff. by exists (k0, v). }
  destruct H1 as [E1|H1], H2 as [E2|H2].
  - congruence.
  - inversion E1; subst. destruct (Hfresh _ H2).
  - inversion E2; subst. destruct (Hfresh _ H1).
  - by apply IH.
Qed.

Section Groups.
Import final_analysis.

Variable C : catalog.
Variable read_csv : string -> result DataFrame.
Variable fs : gmap string file.

Hypothesis profiles_distinct : List.NoDup (map fst (NET_PROFILES C)).
Hypothesis schemes_distinct : List.NoDup (CC_ALGOS C).

Variables (prof_id : string) (cfg : profile) (algo : string).
Hypothesis prof_in : In (prof_id, cfg) (NET_PROFILES C).
Hypothesis algo_in : In algo (CC_ALGOS C).

Lemma filter_contribution p c a :
  List.filter (in_group algo prof_id) (contribution read_csv fs (p, c, a)) =
  if String.eqb a algo && String.eqb p prof_id
  then contribution read_csv fs (p, c, a) else [].
Proof.
  assert (forall r, In r (contribution read_csv fs (p, c, a)) ->
                    in_group algo prof_id r = String.eqb a algo && String.eqb p prof_id) as Htest.
  { intros r Hr. apply contribution_tags in Hr as (Hs & Hp & _).
    unfold in_group, field. by rewrite Hs, Hp. }
  destruct (String.eqb a algo && String.eqb p prof_id) eqn:E.
  - apply filter_all. intros r Hr. by rewrite Htest.
  - apply filter_none. intros r Hr. by rewrite Htest.
Qed.

(** Among the records of the aggregate, the test of [group] keeps the
    contribution of the pair and nothing else. *)
Lemma filter_aggregate :
  List.filter (in_group algo prof_id) (rows (collect_dataframes C read_csv fs)) =
  contribution read_csv fs (prof_id, cfg, algo).
Proof.
  rewrite rows_collect_dataframes, filter_flat_map.
  unfold pairs. rewrite flat_map_flat_map.
  rewrite (flat_map_ext _
    (fun y => if String.eqb (fst y) prof_id
              then contribution read_csv fs (fst y, snd y, algo) else [])).
  - rewrite (flat_map_pick_one (fun y => String.eqb (fst y) prof_id) _ _ (prof_id, cfg));
      try done.
    + by apply (NoDup_map_inv fst).
    + apply String.eqb_refl.
    + intros [p c] Hy Hp. simpl in Hp. apply String.eqb_eq in Hp. subst p.
      f_equal. by apply (NoDup_keys_functional (NET_PROFILES C) prof_id).
  - intros [p c]. rewrite flat_map_map_fusion. simpl fst; simpl snd.
    rewrite (flat_map_ext _
      (fun a => if String.eqb a algo
                then (if String.eqb p prof_id
                      then contribution read_csv fs (p, c, a) else [])
                else [])).
    + rewrite (flat_map_pick_one (fun a => String.eqb a algo) _ _ algo); try done.
      * apply String.eqb_refl.
      * intros a _ Ha. by apply String.eqb_eq.
    + intros a. rewrite filter_contribution.
      by destruct (String.eqb a algo), (String.eqb p prof_id).
Qed.

Variable df : DataFrame.
Hypothesis parsed : read_csv_file read_csv fs (log_file_of prof_id algo) = Ok df.

Lemma contribution_parsed :
  contribution read_csv fs (prof_id, cfg, algo) = tagged_rows prof_id cfg algo df.
Proof.
  pose proof parsed as Hp. unfold contribution. unfold read_csv_file in Hp.
  destruct (fs !! log_file_of prof_id algo); [|discriminate]. by rewrite Hp.
Qed.

(** The tagged frame of the pair is one of the collected frames. *)
Lemma tagged_frame_collected :
  exists tdf,
    In tdf (collect_frames C read_csv fs) /\
    tag_frame read_csv fs prof_id cfg algo (log_file_of prof_id algo) = Ok tdf.
Proof.
  eexists. split; [|by apply tag_frame_ok].
  rewrite collect_frames_pairs. apply in_flat_map.
  exists (prof_id, cfg, algo). split; [by apply In_pairs|].
  pose proof parsed as Hp. unfold collect_pair, isfile. unfold read_csv_file in Hp.
  destruct (fs !! log_file_of prof_id algo) as [f|] eqn:Hf; [|discriminate].
  rewrite (tag_frame_ok read_csv fs prof_id cfg algo _ df parsed). by left.
Qed.

(** A label of the tagged frame of the pair is a label of the aggregate. *)
Lemma aggregate_has_column c :
  In c (columns df) \/ In c tag_columns ->
  has_column c (collect_dataframes C read_csv fs) = true.
Proof.
  intros Hc. destruct tagged_frame_collected as (tdf & Hin & Htag).
  rewrite (tag_frame_ok read_csv fs prof_id cfg algo _ df parsed) in Htag.
  inversion Htag as [Htdf].
  unfold collect_dataframes.
  destruct (collect_frames C read_csv fs) as [|df0 frames] eqn:E; [contradiction|].
  apply (has_column_concat c tdf); [exact Hin|].
  rewrite <- Htdf. simpl columns. apply mem_In.
  destruct Hc as [Hc|Hc].
  - do 5 apply mem_add_column_keep. by apply mem_In.
  - unfold tag_columns in Hc. simpl in Hc.
    destruct Hc as [<-|[<-|[<-|[<-|[<-|[]]]]]];
      repeat (first [apply mem_add_column_same | apply mem_add_column_keep]).
Qed.

(** The group of the pair in the aggregate: the records of the artifact, in
    its order, tagged. *)
Lemma group_of_pair :
  group (collect_dataframes C read_csv fs) (Str algo) (Str prof_id) =
  Ok {| columns := columns (collect_dataframes C read_csv fs);
        rows := tagged_rows prof_id cfg algo df |}.
Proof.
  unfold group.
  rewrite (getitem_ok _ "scheme"), (getitem_ok _ "profile");
    try (apply aggregate_has_column; right; unfold tag_columns; simpl; tauto).
  simpl rbind. unfold select. f_equal. f_equal.
  rewrite !map_map, zip_with_andb_map.
  rewrite (select_rows_map (in_group algo prof_id)).
  by rewrite filter_aggregate, contribution_parsed.
Qed.

End Groups.

(** ** The test runner *)

Section Runner.
Import final_analysis.

Variable shell : shell_t.
Variable now : Q.

Lemma invocations_app l1 l2 : invocations (l1 ++ l2) = invocations l1 ++ invocations l2.
Proof. apply flat_map_app. Qed.

(** Whatever the exit status and whatever is found in the metrics area, the
    body of the loop reports one invocation and returns. *)
Lemma run_pair_invocations prof_id cfg algo st :
  invocations (run_pair shell now prof_id cfg algo st).2 =
  invocations st.2 ++ [(prof_id, algo)].
Proof.
  destruct st as [fs log]. unfold run_pair, makedirs.
  destruct (shell _ fs) as [fs1 rc]. destruct (Z.eqb rc 0).
  - unfold copy_latest_metrics.
    destruct (sorted_desc _ _); simpl; rewrite !invocations_app; simpl;
      by rewrite app_nil_r.
  - simpl. by rewrite invocations_app.
Qed.

Lemma run_inner_invocations prof_id cfg algos : forall st,
  invocations (fold_left (fun st algo => run_pair shell now prof_id cfg algo st) algos st).2 =
  invocations st.2 ++ map (fun algo => (prof_id, algo)) algos.
Proof.
  induction algos as [|a algos IH]; intros st; simpl.
  - by rewrite app_nil_r.
  - by rewrite IH, run_pair_invocations, <- app_assoc.
Qed.

(** The runner invokes every pair of the catalog, in order. *)
Lemma execute_tests_invocations C fs :
  invocations (execute_tests C shell now fs).2 =
  map (fun t => (t.1.1, t.2)) (pairs C).
Proof.
  unfold execute_tests, pairs.
  enough (forall ps st,
    invocations
      (fold_left
         (fun st '(prof_id, cfg) =>
            fold_left (fun st algo => run_pair shell now prof_id cfg algo st)
                      (CC_ALGOS C) st) ps st).2 =
    invocations st.2 ++
    map (fun t => (t.1.1, t.2))
      (flat_map (fun '(prof_id, cfg) => map (fun algo => (prof_id, cfg, algo)) (CC_ALGOS C))
                ps)) as H by apply (H _ (fs, [])).
  induction ps as [|[p cfg] ps IH]; intros st; simpl.
  - by rewrite app_nil_r.
  - rewrite IH, run_inner_invocations, map_app, map_map. simpl. by rewrite app_assoc.
Qed.

(** [sorted(..., reverse=True)] keeps the elements and puts one with the
    greatest key first. *)
Lemma insert_desc_In key x l y : In y (insert_desc key x l) <-> y = x \/ In y l.
Proof.
  induction l as [|z l IH]; simpl; [intuition|].
  destruct (Qle_bool (key z) (key x)); simpl; [intuition|].
  rewrite IH. intuition.
Qed.

Lemma sorted_desc_In key l y : In y (sorted_desc key l) <-> In y l.
Proof.
  induction l as [|x l IH]; simpl; [reflexivity|].
  rewrite insert_desc_In, IH. intuition.
Qed.

Lemma sorted_desc_head key l x t :
  sorted_desc key l = x :: t ->
  forall y, In y l -> (key y <= key x)%Q.
Proof.
  revert x t. induction l as [|z l IH]; intros x t H y Hy; [contradiction|].
  simpl in H. destruct (sorted_desc key l) as [|h t'] eqn:Hs.
  - simpl in H. inversion H; subst.
    destruct Hy as [->|Hy]; [apply Qle_refl|].
    apply (sorted_desc_In key) in Hy. rewrite Hs in Hy. contradiction.
  - simpl in H. destruct (Qle_bool (key h) (key z)) eqn:Hle.
    + inversion H; subst. destruct Hy as [->|Hy]; [apply Qle_refl|].
      apply Qle_bool_iff in Hle. eapply Qle_trans; [|exact Hle]. by eapply IH.
    + inversion H; subst. destruct Hy as [->|Hy]; [|by eapply IH].
      destruct (Qlt_le_dec (key y) (key x)) as [Hlt|Hge]; [by apply Qlt_le_weak|].
      apply Qle_bool_iff in Hge. congruence.
Qed.

(** [glob] returns the files whose name matches the pattern. *)
Lemma glob_In (fs : gmap string file) pattern p :
  In p (glob fs pattern) <->
  (exists f, fs !! p = Some f) /\
  fnmatch (list_ascii_of_string pattern) (list_ascii_of_string p) = true.
Proof.
  unfold glob. rewrite filter_In, in_map_iff. split.
  - intros [([q f] & <- & Hin) Hm]. split; [|exact Hm].
    exists f. by apply elem_of_map_to_list, list_elem_of_In.
  - intros [[f Hf] Hm]. split; [|exact Hm].
    exists (p, f). split; [reflexivity|].
    by apply list_elem_of_In, elem_of_map_to_list.
Qed.

End Runner.

(** ** Claims on the aggregator *)

Lemma module_profiles_distinct :
  List.NoDup (map fst (final_analysis.NET_PROFILES final_analysis.module_catalog)).
Proof. repeat (constructor; [simpl; intuition discriminate|]). constructor. Qed.

Lemma module_schemes_distinct :
  List.NoDup (final_analysis.CC_ALGOS final_analysis.module_catalog).
Proof. repeat (constructor; [simpl; intuition discriminate|]). constructor. Qed.

(** C3.  Every record of the aggregate carries the identifier of a profile
    of the table and a scheme of the scheme list, together with the name and
    the latency of that very profile. *)
Theorem aggregate_rows_in_catalog (C : final_analysis.catalog)
    (read_csv : string -> result DataFrame) (fs : gmap string final_analysis.file)
    (r : gmap string cell) :
  In r (rows (final_analysis.collect_dataframes C read_csv fs)) ->
  exists prof_id cfg algo,
    In (prof_id, cfg) (final_analysis.NET_PROFILES C) /\
    In algo (final_analysis.CC_ALGOS C) /\
    r !! "profile" = Some (Str prof_id) /\
    r !! "scheme" = Some (Str algo) /\
    r !! "profile_name" = Some (Str (final_analysis.name cfg)) /\
    r !! "latency" = Some (Num (inject_Z (final_analysis.latency cfg))).
Proof.
  rewrite rows_collect_dataframes. intros H.
  apply in_flat_map in H as ([[p cfg] a] & Hpair & Hr).
  apply In_pairs in Hpair as [Hp Ha].
  apply contribution_tags in Hr as (Hs & Hpr & Hn & Hl).
  exists p, cfg, a. tauto.
Qed.

Lemma aggregate_rows_in_catalog_witness :
  exists prof_id cfg algo,
    In (prof_id, cfg) (final_analysis.NET_PROFILES final_analysis.module_catalog) /\
    In algo (final_analysis.CC_ALGOS final_analysis.module_catalog) /\
    ex_row !! "profile" = Some (Str prof_id) /\
    ex_row !! "scheme" = Some (Str algo) /\
    ex_row !! "profile_name" = Some (Str (final_analysis.name cfg)) /\
    ex_row !! "latency" = Some (Num (inject_Z (final_analysis.latency cfg))).
Proof.
  apply (aggregate_rows_in_catalog final_analysis.module_catalog ex_read_csv
           ex_one_artifact ex_row).
  apply (nth_error_In _ 0). vm_compute. reflexivity.
Defined.

(** C4.  The records of one run in the aggregate, as [group] selects them,
    are the records of its artifact in the order of the artifact, and their
    sequence indices are 0, 1, ..., n - 1. *)
Theorem sequence_index_per_run (C : final_analysis.catalog)
    (read_csv : string -> result DataFrame) (fs : gmap string final_analysis.file)
    (prof_id : string) (cfg : final_analysis.profile) (algo : string) (df : DataFrame) :
  List.NoDup (map fst (final_analysis.NET_PROFILES C)) ->
  List.NoDup (final_analysis.CC_ALGOS C) ->
  In (prof_id, cfg) (final_analysis.NET_PROFILES C) ->
  In algo (final_analysis.CC_ALGOS C) ->
  final_analysis.read_csv_file read_csv fs (final_analysis.log_file_of prof_id algo) = Ok df ->
  exists sub,
    final_analysis.group (final_analysis.collect_dataframes C read_csv fs)
      (Str algo) (Str prof_id) = Ok sub /\
    rows sub = tagged_rows prof_id cfg algo df /\
    len sub = len df /\
    getitem sub "timestamp" = Ok (map (fun i => Num (inject_Z (Z.of_nat i))) (seq 0 (len df))).
Proof.
  intros Hps Has Hp Ha Hparsed.
  eexists. split; [by eapply group_of_pair|]. split; [reflexivity|].
  assert (length (rows df) = length (range (len df))) as Hlen
    by (by rewrite length_range).
  split.
  - unfold len, tagged_rows; simpl rows.
    rewrite length_zip_with. fold (len df). rewrite length_range. unfold len. lia.
  - rewrite getitem_ok.
    + simpl rows. unfold tagged_rows. f_equal.
      apply map_zip_with_snd; [|exact Hlen].
      intros r i. unfold field. by rewrite lookup_insert_eq.
    + unfold has_column. simpl columns. fold (has_column "timestamp"
        (final_analysis.collect_dataframes C read_csv fs)).
      eapply aggregate_has_column; try eassumption.
      right. unfold tag_columns. simpl. tauto.
Qed.

Lemma sequence_index_per_run_witness :
  exists sub,
    final_analysis.group
      (final_analysis.collect_dataframes final_analysis.module_catalog ex_read_csv
         ex_one_artifact) (Str "cubic") (Str "1") = Ok sub /\
    rows sub = tagged_rows "1" ex_profile_1 "cubic" ex_one_frame /\
    len sub = len ex_one_frame /\
    getitem sub "timestamp" =
      Ok (map (fun i => Num (inject_Z (Z.of_nat i))) (seq 0 (len ex_one_frame))).
Proof.
  apply (sequence_index_per_run final_analysis.module_catalog ex_read_csv ex_one_artifact
           "1" ex_profile_1 "cubic" ex_one_frame).
  - exact module_profiles_distinct.
  - exact module_schemes_distinct.
  - left. reflexivity.
  - left. reflexivity.
  - vm_compute. reflexivity.
Defined.

(** C10 (as the code has it).  For a parsed artifact, the values of every
    column of the artifact are in the records of its run in the aggregate,
    in order, except the columns [timestamp], [scheme], [profile],
    [profile_name] and [latency]; the column [timestamp] holds the sequence
    indices whatever the artifact had there. *)
Theorem aggregate_preserves_columns (C : final_analysis.catalog)
    (read_csv : string -> result DataFrame) (fs : gmap string final_analysis.file)
    (prof_id : string) (cfg : final_analysis.profile) (algo : string) (df : DataFrame) :
  List.NoDup (map fst (final_analysis.NET_PROFILES C)) ->
  List.NoDup (final_analysis.CC_ALGOS C) ->
  In (prof_id, cfg) (final_analysis.NET_PROFILES C) ->
  In algo (final_analysis.CC_ALGOS C) ->
  final_analysis.read_csv_file read_csv fs (final_analysis.log_file_of prof_id algo) = Ok df ->
  exists sub,
    final_analysis.group (final_analysis.collect_dataframes C read_csv fs)
      (Str algo) (Str prof_id) = Ok sub /\
    getitem sub "timestamp" = Ok (range (len df)) /\
    forall c, In c (columns df) -> ~ In c tag_columns -> getitem sub c = getitem df c.
Proof.
  intros Hps Has Hp Ha Hparsed.
  eexists. split; [by eapply group_of_pair|].
  assert (length (rows df) = length (range (len df))) as Hlen
    by (by rewrite length_range).
  assert (forall c, In c (columns df) \/ In c tag_columns ->
            has_column c {| columns := columns (final_analysis.collect_dataframes C read_csv fs);
                            rows := tagged_rows prof_id cfg algo df |} = true) as Hcol.
  { intros c Hc. unfold has_column. simpl columns.
    fold (has_column c (final_analysis.collect_dataframes C read_csv fs)).
    by eapply aggregate_has_column. }
  split.
  - rewrite getitem_ok by (apply Hcol; right; unfold tag_columns; simpl; tauto).
    simpl rows. unfold tagged_rows. f_equal.
    apply map_zip_with_snd; [|exact Hlen].
    intros r i. unfold field. by rewrite lookup_insert_eq.
  - intros c Hc Htag.
    rewrite getitem_ok by (apply Hcol; by left).
    rewrite (getitem_ok df) by (by apply mem_In).
    simpl rows. unfold tagged_rows. f_equal.
    apply map_zip_with_fst; [|exact Hlen].
    intros r i. unfold field.
    unfold tag_columns in Htag. simpl in Htag.
    rewrite !lookup_insert_ne; [reflexivity|..]; intros E; subst c; tauto.
Qed.

Lemma aggregate_preserves_columns_witness :
  exists sub,
    final_analysis.group
      (final_analysis.collect_dataframes final_analysis.module_catalog ex_read_csv
         ex_one_artifact) (Str "cubic") (Str "1") = Ok sub /\
    getitem sub "timestamp" = Ok (range (len ex_one_frame)) /\
    forall c, In c (columns ex_one_frame) -> ~ In c tag_columns ->
              getitem sub c = getitem ex_one_frame c.
Proof.
  apply (aggregate_preserves_columns final_analysis.module_catalog ex_read_csv
           ex_one_artifact "1" ex_profile_1 "cubic" ex_one_frame).
  - exact module_profiles_distinct.
  - exact module_schemes_distinct.
  - left. reflexivity.
  - left. reflexivity.
  - vm_compute. reflexivity.
Defined.

(** C10 as stated fails: the artifact has a column [latency] with the values
    42 and 43; in the aggregate the records of the run have the latency of
    the profile there. *)
Lemma metadata_overwrites_artifact_column :
  (do df <- final_analysis.read_csv_file ex_read_csv ex_latency_artifact
              (final_analysis.log_file_of "1" "cubic");
   getitem df "latency") = Ok [Num 42; Num 43] /\
  (do sub <- final_analysis.group
               (final_analysis.collect_dataframes final_analysis.module_catalog
                  ex_read_csv ex_latency_artifact) (Str "cubic") (Str "1");
   getitem sub "latency") = Ok [Num 5; Num 5].
Proof. split; vm_compute; reflexivity. Qed.

(** C5.  Whatever the exit statuses of the tests, the runner invokes every
    pair of the catalog, in order; and whatever files are there, the records
    of the aggregate are those of the pairs whose artifact is present and
    parses, pair after pair in the order of the catalog: a pair whose
    artifact is missing or does not parse contributes nothing and takes
    nothing away. *)
Theorem partial_failure_isolation (C : final_analysis.catalog)
    (shell : final_analysis.shell_t) (now : Q) (read_csv : string -> result DataFrame)
    (fs fs' : gmap string final_analysis.file) :
  invocations (final_analysis.execute_tests C shell now fs).2 =
    map (fun t => (t.1.1, t.2)) (pairs C) /\
  rows (final_analysis.collect_dataframes C read_csv fs') =
    flat_map (contribution read_csv fs') (pairs C).
Proof.
  split; [apply execute_tests_invocations | apply rows_collect_dataframes].
Qed.

(** ** Claims on the test runner *)

(** C7.  After an invocation with exit status 0, the runner takes the files
    of the metrics area whose name matches [logs/metrics_<scheme>_*.csv];
    when there is one, a file of greatest modification time among them is
    copied to [<scheme>_cc_log.csv] in the run directory; when there is
    none, the files stay as they are and the runner reports the missing
    metrics and goes on. *)
Theorem latest_metrics_copied (shell : final_analysis.shell_t) (now : Q)
    (prof_id : string) (cfg : final_analysis.profile) (algo : string)
    (fs fs1 : gmap string final_analysis.file) (log : list final_analysis.report) :
  let result_path := final_analysis.result_path_of prof_id algo in
  let pattern := ("logs/metrics_" ++ algo ++ "_*.csv")%string in
  let matches := final_analysis.glob fs1 pattern in
  let dst := path_join result_path (algo ++ "_cc_log.csv")%string in
  let out := final_analysis.run_pair shell now prof_id cfg algo (fs, log) in
  shell (final_analysis.test_command_of cfg algo result_path) fs = (fs1, 0%Z) ->
  (forall p, In p matches <->
             (exists f, fs1 !! p = Some f) /\
             final_analysis.fnmatch (list_ascii_of_string pattern)
               (list_ascii_of_string p) = true) /\
  (matches = [] ->
     out = (fs1, log ++ [final_analysis.TestCompleted prof_id algo;
                         final_analysis.NoMetricsFound prof_id algo])) /\
  (matches <> [] ->
     exists newest f,
       In newest matches /\
       fs1 !! newest = Some f /\
       (forall p, In p matches ->
                  (final_analysis.getmtime fs1 p <= final_analysis.getmtime fs1 newest)%Q) /\
       out = (<[dst := {| final_analysis.mtime := now;
                          final_analysis.content := final_analysis.content f |}]> fs1,
              log ++ [final_analysis.TestCompleted prof_id algo;
                      final_analysis.MetricsSaved prof_id algo newest])).
Proof.
  intros result_path pattern matches dst out Hrun.
  split; [intros p; apply glob_In|].
  unfold out, final_analysis.run_pair, final_analysis.makedirs.
  fold result_path. rewrite Hrun.
  simpl Z.eqb. cbv iota. unfold final_analysis.copy_latest_metrics.
  fold result_path pattern matches. split.
  - intros ->. simpl. by rewrite <- app_assoc.
  - intros Hne.
    destruct (final_analysis.sorted_desc (final_analysis.getmtime fs1) matches)
      as [|newest rest] eqn:Hs.
    { destruct matches as [|m ms]; [done|].
      assert (In m (final_analysis.sorted_desc (final_analysis.getmtime fs1) (m :: ms)))
        as Hm by (apply sorted_desc_In; by left).
      rewrite Hs in Hm. contradiction. }
    assert (In newest matches) as Hin.
    { apply (sorted_desc_In (final_analysis.getmtime fs1)). rewrite Hs. by left. }
    destruct (proj1 (glob_In fs1 pattern newest) Hin) as [[f Hf] _].
    exists newest, f. split; [exact Hin|]. split; [exact Hf|]. split.
    + intros p Hp. by eapply sorted_desc_head.
    + unfold final_analysis.copy. rewrite Hf. by rewrite <- app_assoc.
Qed.

Lemma latest_metrics_copied_witness :
  let fs1 := (ex_shell "" ∅).1 in
  let matches := final_analysis.glob fs1 "logs/metrics_cubic_*.csv" in
  let out := final_analysis.run_pair ex_shell 99 "1" ex_profile_1 "cubic" (∅, []) in
  (forall p, In p matches <->
             (exists f, fs1 !! p = Some f) /\
             final_analysis.fnmatch (list_ascii_of_string "logs/metrics_cubic_*.csv")
               (list_ascii_of_string p) = true) /\
  (matches = [] ->
     out = (fs1, [] ++ [final_analysis.TestCompleted "1" "cubic";
                        final_analysis.NoMetricsFound "1" "cubic"])) /\
  (matches <> [] ->
     exists newest f,
       In newest matches /\
       fs1 !! newest = Some f /\
       (forall p, In p matches ->
                  (final_analysis.getmtime fs1 p <= final_analysis.getmtime fs1 newest)%Q) /\
       out = (<["results/profile_1/cubic/cubic_cc_log.csv" :=
                  {| final_analysis.mtime := 99;
                     final_analysis.content := final_analysis.content f |}]> fs1,
              [] ++ [final_analysis.TestCompleted "1" "cubic";
                     final_analysis.MetricsSaved "1" "cubic" newest])).
Proof.
  apply (latest_metrics_copied ex_shell 99 "1" ex_profile_1 "cubic" ∅ (ex_shell "" ∅).1 []).
  reflexivity.
Defined.

(** On that input the newer of the two metric files is the one copied. *)
Example newest_of_two_is_copied :
  (final_analysis.run_pair ex_shell 99 "1" ex_profile_1 "cubic" (∅, [])).1
    !! "results/profile_1/cubic/cubic_cc_log.csv" =
  Some {| final_analysis.mtime := 99; final_analysis.content := "new" |}.
Proof. vm_compute. reflexivity. Qed.

(** ** Claims on the derived statistics *)

Section Statistics.
Import final_analysis.

Variable C : catalog.
Variable sqrt : Q -> Q.

(** A frame without records that has the column [profile]: both generators
    return no record. *)
Lemma summarize_rtt_no_rows data :
  rows data = [] -> has_column "profile" data = true ->
  summarize_rtt C sqrt data = Ok [].
Proof.
  intros Hr Hc. unfold summarize_rtt. rewrite (getitem_ok _ _ Hc), Hr. reflexivity.
Qed.

Lemma generate_comparison_table_no_rows data :
  rows data = [] -> has_column "profile" data = true ->
  generate_comparison_table C sqrt data = Ok [].
Proof.
  intros Hr Hc. unfold generate_comparison_table.
  rewrite (getitem_ok _ _ Hc), Hr. reflexivity.
Qed.

(** Without an artifact for any pair there is no frame to concatenate. *)
Lemma collect_dataframes_no_artifact read_csv (fs : gmap string file) :
  (forall prof_id cfg algo,
     In (prof_id, cfg) (NET_PROFILES C) -> In algo (CC_ALGOS C) ->
     isfile fs (log_file_of prof_id algo) = false) ->
  collect_dataframes C read_csv fs = empty_frame.
Proof.
  intros Hno. unfold collect_dataframes.
  rewrite collect_frames_pairs, flat_map_nil_ext; [reflexivity|].
  intros [[p cfg] a] Hin. apply In_pairs in Hin as [Hp Ha].
  unfold collect_pair. by rewrite (Hno p cfg a Hp Ha).
Qed.

(** The loss entry of a comparison record is 0 when the frame has no column
    [loss_rate]. *)
Lemma compare_group_loss_default data prof_id algo recs recs' :
  has_column "loss_rate" data = false ->
  Forall (fun r => cr_Avg_Loss_Rate r = Num 0) recs ->
  compare_group C sqrt data prof_id algo recs = Ok recs' ->
  Forall (fun r => cr_Avg_Loss_Rate r = Num 0) recs'.
Proof.
  intros Hcol Hrecs. unfold compare_group, group.
  destruct (getitem data "scheme") as [ss|]; [|discriminate].
  destruct (getitem data "profile") as [ps|]; [|discriminate].
  simpl rbind. unfold has_column at 1. simpl columns.
  fold (has_column "loss_rate" data). rewrite Hcol.
  destruct (negb _); [|intros H; by inversion H; subst].
  repeat match goal with
         | |- rbind ?r _ = _ -> _ => destruct r; [simpl rbind|discriminate]
         end.
  intros H. inversion H; subst. apply Forall_app. split; [exact Hrecs|].
  by repeat constructor.
Qed.

Lemma for_each_invariant {A S} (I : S -> Prop) (body : A -> S -> result S) (l : list A) :
  (forall x s s', I s -> body x s = Ok s' -> I s') ->
  forall s s', I s -> for_each body l s = Ok s' -> I s'.
Proof.
  intros Hbody. induction l as [|x l IH]; intros s s' Hs H; simpl in H.
  - by inversion H; subst.
  - destruct (body x s) as [s1|] eqn:Hb; [|discriminate].
    simpl in H. eapply IH; [|exact H]. by eapply Hbody.
Qed.

Lemma loss_default_when_column_absent data recs :
  has_column "loss_rate" data = false ->
  generate_comparison_table C sqrt data = Ok recs ->
  Forall (fun r => cr_Avg_Loss_Rate r = Num 0) recs.
Proof.
  intros Hcol. unfold generate_comparison_table.
  destruct (getitem data "profile") as [ps|]; [|discriminate]. simpl rbind.
  apply (for_each_invariant (Forall (fun r => cr_Avg_Loss_Rate r = Num 0))); [|constructor].
  intros p s s' Hs. destruct (getitem data "scheme") as [ss|]; [|discriminate].
  simpl rbind. apply (for_each_invariant (Forall (fun r => cr_Avg_Loss_Rate r = Num 0)));
    [|exact Hs].
  intros a t t' Ht. by apply compare_group_loss_default.
Qed.

End Statistics.

(** C2 (as the code has it).  When no artifact exists for any pair after the
    tests, the aggregator returns the empty frame, without columns and
    without records, and [orchestrate] returns on it before any statistics
    are derived: no summary record is produced and nothing is raised.  The
    two generators return no record on a frame without records that still
    has the column [profile]. *)
Theorem no_artifact_no_summary (C : final_analysis.catalog)
    (X : final_analysis.externals) (fs : gmap string final_analysis.file) :
  (forall prof_id cfg algo,
     In (prof_id, cfg) (final_analysis.NET_PROFILES C) ->
     In algo (final_analysis.CC_ALGOS C) ->
     final_analysis.isfile
       (final_analysis.execute_tests C (final_analysis.shell X) (final_analysis.now X) fs).1
       (final_analysis.log_file_of prof_id algo) = false) ->
  final_analysis.collect_dataframes C (final_analysis.read_csv X)
    (final_analysis.execute_tests C (final_analysis.shell X) (final_analysis.now X) fs).1
    = empty_frame /\
  final_analysis.orchestrate C X fs =
    Ok (final_analysis.execute_tests C (final_analysis.shell X) (final_analysis.now X) fs,
        final_analysis.NoData) /\
  (forall data, rows data = [] -> has_column "profile" data = true ->
     final_analysis.summarize_rtt C (final_analysis.sqrt X) data = Ok [] /\
     final_analysis.generate_comparison_table C (final_analysis.sqrt X) data = Ok []).
Proof.
  intros Hno.
  pose proof (collect_dataframes_no_artifact C (final_analysis.read_csv X) _ Hno) as Hempty.
  split; [exact Hempty|]. split.
  - unfold final_analysis.orchestrate, final_analysis.makedirs.
    destruct (final_analysis.execute_tests C _ _ fs) as [fs1 log].
    simpl in Hempty. by rewrite Hempty.
  - intros data Hr Hc. split.
    + by apply summarize_rtt_no_rows.
    + by apply generate_comparison_table_no_rows.
Qed.

Lemma no_artifact_no_summary_witness :
  final_analysis.collect_dataframes final_analysis.module_catalog
    (final_analysis.read_csv ex_failing_externals)
    (final_analysis.execute_tests final_analysis.module_catalog
       (final_analysis.shell ex_failing_externals)
       (final_analysis.now ex_failing_externals) ∅).1
    = empty_frame /\
  final_analysis.orchestrate final_analysis.module_catalog ex_failing_externals ∅ =
    Ok (final_analysis.execute_tests final_analysis.module_catalog
          (final_analysis.shell ex_failing_externals)
          (final_analysis.now ex_failing_externals) ∅,
        final_analysis.NoData) /\
  (forall data, rows data = [] -> has_column "profile" data = true ->
     final_analysis.summarize_rtt final_analysis.module_catalog
       (final_analysis.sqrt ex_failing_externals) data = Ok [] /\
     final_analysis.generate_comparison_table final_analysis.module_catalog
       (final_analysis.sqrt ex_failing_externals) data = Ok []).
Proof.
  apply (no_artifact_no_summary final_analysis.module_catalog ex_failing_externals ∅).
  intros prof_id cfg algo _ _. reflexivity.
Defined.

(** C2 as stated fails: with no artifact at all, the aggregate is
    [pd.DataFrame()], which has no column [profile], and both generators
    raise [KeyError] on it. *)
Lemma summary_of_empty_aggregate_raises :
  final_analysis.collect_dataframes final_analysis.module_catalog ex_read_csv ∅
    = empty_frame /\
  final_analysis.summarize_rtt final_analysis.module_catalog (fun q => q)
    (final_analysis.collect_dataframes final_analysis.module_catalog ex_read_csv ∅)
    = Raised (KeyError "profile") /\
  final_analysis.generate_comparison_table final_analysis.module_catalog (fun q => q)
    (final_analysis.collect_dataframes final_analysis.module_catalog ex_read_csv ∅)
    = Raised (KeyError "profile").
Proof. repeat split; reflexivity. Qed.

(** C6 (fails on a mixed aggregate).  The artifact of cubic has a column
    [loss_rate], the artifact of vegas has none.  In the aggregate the
    column exists for every record, so the test of the comparison table for
    the column succeeds for the group of vegas too, and the mean over its
    missing values is not-a-number instead of 0. *)
Theorem loss_default_missed_in_mixed_aggregate (sqrt : Q -> Q) :
  (do df <- final_analysis.read_csv_file ex_read_csv ex_mixed_artifacts
              (final_analysis.log_file_of "1" "vegas");
   Ok (has_column "loss_rate" df)) = Ok false /\
  (do recs <- final_analysis.generate_comparison_table final_analysis.module_catalog sqrt
                (final_analysis.collect_dataframes final_analysis.module_catalog
                   ex_read_csv ex_mixed_artifacts);
   Ok (map (fun r => (final_analysis.cr_Algorithm r, final_analysis.cr_Avg_Loss_Rate r))
           recs))
  = Ok [("CUBIC", Num (3 # 2)); ("VEGAS", NaN)].
Proof. split; vm_compute; reflexivity. Qed.

(** ** The scenarios of the design document *)

(** Only (P1, A) has an artifact: the aggregate has its three records,
    tagged P1, A and 5 ms, with the indices 0, 1, 2; the comparison table
    has one record, for (P1, A), with mean throughput 5. *)
Example scenario_single_artifact :
  let data := final_analysis.collect_dataframes ex_scenario_catalog ex_read_csv
                ex_scenario_files in
  len data = 3 /\
  getitem data "profile" = Ok [Str "P1"; Str "P1"; Str "P1"] /\
  getitem data "scheme" = Ok [Str "A"; Str "A"; Str "A"] /\
  getitem data "latency" = Ok [Num 5; Num 5; Num 5] /\
  getitem data "timestamp" = Ok [Num 0; Num 1; Num 2] /\
  (do recs <- final_analysis.generate_comparison_table ex_scenario_catalog (fun q => q) data;
   Ok (map (fun r => (final_analysis.cr_Profile r, final_analysis.cr_Algorithm r,
                      final_analysis.cr_Avg_Throughput r)) recs))
  = Ok [("P1", "A", Num 5)].
Proof. repeat split; vm_compute; reflexivity. Qed.

(** A sampler run of three seconds with one-second ticks takes three
    samples. *)
Example scenario_three_samples :
  ledbat.sample_phase 4 ex_sampler_env 3 = Some ex_samples /\ length ex_samples = 3.
Proof. split; reflexivity. Qed.

(** A sender whose deadline has passed at the first test writes one chunk,
    kills the transfer process, asks the sampler to terminate and
    returns. *)
Example scenario_expired_deadline :
  ledbat.main 1 ex_failing_transfer ex_context
    {| ledbat.option_ := "sender"; ledbat.port := "9000"; ledbat.ip := "10.0.0.1" |} [] =
  Some (Ok tt,
        [ledbat.Started ledbat.Transfer ["third_party/libutp/ucat-static"; "10.0.0.1"; "9000"];
         ledbat.Started ledbat.Sampler (ledbat.sampler_cmd "out/ledbat_metrics.csv");
         ledbat.Wrote 0;
         ledbat.Terminated ledbat.Sampler]).
Proof. reflexivity. Qed.

(** The tests of cubic fail: the runner still invokes the six pairs. *)
Example runner_goes_on_after_failure :
  (final_analysis.execute_tests final_analysis.module_catalog ex_cubic_fails 0 ∅).2 =
  [final_analysis.TestFailed "1" "cubic" 2;
   final_analysis.TestCompleted "1" "fillp_sheep";
   final_analysis.NoMetricsFound "1" "fillp_sheep";
   final_analysis.TestCompleted "1" "vegas";
   final_analysis.NoMetricsFound "1" "vegas";
   final_analysis.TestFailed "2" "cubic" 2;
   final_analysis.TestCompleted "2" "fillp_sheep";
   final_analysis.NoMetricsFound "2" "fillp_sheep";
   final_analysis.TestCompleted "2" "vegas";
   final_analysis.NoMetricsFound "2" "vegas"].
Proof. vm_compute. reflexivity. Qed.

(** One artifact does not parse and four are missing: the aggregate has the
    records of the two artifacts that parse. *)
Example aggregator_goes_on_after_failure :
  let data := final_analysis.collect_dataframes final_analysis.module_catalog ex_read_csv
                ex_partial_files in
  getitem data "profile" = Ok [Str "1"; Str "1"; Str "2"] /\
  getitem data "scheme" = Ok [Str "cubic"; Str "cubic"; Str "vegas"] /\
  getitem data "throughput" = Ok [Num 4; Num 5; Num 9] /\
  getitem data "timestamp" = Ok [Num 0; Num 1; Num 0].
Proof. repeat split; vm_compute; reflexivity. Qed.

(** * Part III.  Further properties of the two programs *)

(** ** The transfer lifecycle, mode by mode *)

Section LifecycleModes.
Import ledbat.

Variable P : procs.
Variable context : Context.

(** The trace of the send loop: it writes chunk after chunk while the
    writes succeed and the deadline has not passed. *)
Lemma send_loop_trace n : forall fuel k tr,
  (n < fuel)%nat ->
  (forall j, (j < n)%nat -> write_ok P (k + j) = true /\ deadline_passed P (k + j) = false) ->
  send_loop fuel P k tr =
    if write_ok P (k + n) then
      if deadline_passed P (k + n)
      then Some (Ok tt, tr ++ map Wrote (seq k (S n)))
      else send_loop (fuel - S n) P (k + S n) (tr ++ map Wrote (seq k (S n)))
    else Some (Raised BrokenPipeError, tr ++ map Wrote (seq k n)).
Proof.
  induction n as [|n IH]; intros fuel k tr Hfuel Hbefore.
  - destruct fuel as [|fuel]; [lia|]. rewrite Nat.add_0_r. simpl send_loop.
    destruct (write_ok P k); [|by rewrite app_nil_r].
    unfold bind, emit. destruct (deadline_passed P k); [reflexivity|].
    by rewrite Nat.sub_0_r, Nat.add_1_r.
  - destruct fuel as [|fuel]; [lia|].
    destruct (Hbefore 0%nat) as [Hw Hd]; [lia|]. rewrite Nat.add_0_r in Hw, Hd.
    change (send_loop (S fuel) P k tr) with
      ((if write_ok P k
        then (emit (Wrote k) ;;
              if deadline_passed P k then ret tt else send_loop fuel P (S k))%proc
        else raise BrokenPipeError) tr).
    rewrite Hw. unfold bind, emit. rewrite Hd.
    rewrite (IH fuel (S k) (tr ++ [Wrote k])); [|lia|].
    + replace (S k + n)%nat with (k + S n)%nat by lia.
      replace (S k + S n)%nat with (k + S (S n))%nat by lia.
      replace (fuel - S n)%nat with (S fuel - S (S n))%nat by lia.
      rewrite <- !app_assoc. reflexivity.
    + intros j Hj. replace (S k + j)%nat with (k + S j)%nat by lia.
      apply Hbefore. lia.
Qed.

Lemma sender_prefix fuel args :
  option_ args = "sender" ->
  popen_ok P [path_join (path_join (third_party_dir context) "libutp") "ucat-static";
              ip args; port args] = true ->
  popen_ok P (sampler_cmd (path_join (output_dir context) "ledbat_metrics.csv")) = true ->
  main fuel P context args [] =
    try_finally (send_loop fuel P 0)
      ((if poll_is_none P then emit (Killed Transfer) else ret tt) ;;
       emit (Terminated Sampler))%proc
      [Started Transfer
         [path_join (path_join (third_party_dir context) "libutp") "ucat-static";
          ip args; port args];
       Started Sampler (sampler_cmd (path_join (output_dir context) "ledbat_metrics.csv"))].
Proof.
  intros Hopt Ht Hs. unfold main. rewrite Hopt.
  cbn [String.eqb Ascii.eqb Bool.eqb]. unfold bind at 1 2, Popen.
  rewrite Ht. unfold emit at 1. cbn [app]. by rewrite Hs.
Qed.

End LifecycleModes.

(** X1.  In sender mode, whenever [main] returns or raises, the
    termination of the sampler has been requested if the sampler was
    started: the cleanup of the [finally] clause runs on every way out. *)
Theorem sender_exit_paths_release_sampler (fuel : nat) (P : ledbat.procs)
    (context : ledbat.Context) (args : ledbat.Args)
    (r : result unit) (tr : list ledbat.event) :
  ledbat.option_ args = "sender" ->
  ledbat.main fuel P context args [] = Some (r, tr) ->
  ledbat.sampler_pending tr = false.
Proof. apply sender_releases_sampler. Qed.

Lemma sender_exit_paths_release_sampler_witness :
  ledbat.sampler_pending
    [ledbat.Started ledbat.Transfer ["third_party/libutp/ucat-static"; "10.0.0.1"; "9000"];
     ledbat.Started ledbat.Sampler (ledbat.sampler_cmd "out/ledbat_metrics.csv");
     ledbat.Wrote 0; ledbat.Wrote 1;
     ledbat.Terminated ledbat.Sampler] = false.
Proof.
  apply (sender_exit_paths_release_sampler 3 ex_pipe_breaks ex_context ex_sender_args
           (Raised BrokenPipeError)); reflexivity.
Defined.

(** X2.  In sender mode [main] does not hang: it returns or raises within
    [n + 1] iterations of the send loop when the [n]-th write fails or the
    deadline has passed at the [n]-th test. *)
Theorem sender_ends_with_the_loop (n : nat) (P : ledbat.procs)
    (context : ledbat.Context) (args : ledbat.Args) :
  ledbat.option_ args = "sender" ->
  ledbat.write_ok P n = false \/ ledbat.deadline_passed P n = true ->
  exists r tr, ledbat.main (S n) P context args [] = Some (r, tr).
Proof. apply sender_returns. Qed.

Lemma sender_ends_with_the_loop_witness :
  exists r tr, ledbat.main 3 ex_pipe_breaks ex_context ex_sender_args [] = Some (r, tr).
Proof.
  apply (sender_ends_with_the_loop 2 ex_pipe_breaks ex_context ex_sender_args).
  - reflexivity.
  - left. reflexivity.
Defined.

(** X3.  In sender mode, when the first write that fails is the [n]-th,
    [main] raises [BrokenPipeError] after [n] chunks; before it does, it
    kills the transfer process if that is still running and then asks the
    sampler to terminate. *)
Theorem sender_write_failure (fuel n : nat) (P : ledbat.procs)
    (context : ledbat.Context) (args : ledbat.Args) :
  let cmd := [path_join (path_join (ledbat.third_party_dir context) "libutp") "ucat-static";
              ledbat.ip args; ledbat.port args] in
  let sampler :=
    ledbat.sampler_cmd (path_join (ledbat.output_dir context) "ledbat_metrics.csv") in
  ledbat.option_ args = "sender" ->
  ledbat.popen_ok P cmd = true ->
  ledbat.popen_ok P sampler = true ->
  (forall j, (j < n)%nat ->
             ledbat.write_ok P j = true /\ ledbat.deadline_passed P j = false) ->
  ledbat.write_ok P n = false ->
  (n < fuel)%nat ->
  ledbat.main fuel P context args [] =
    Some (Raised BrokenPipeError,
          [ledbat.Started ledbat.Transfer cmd; ledbat.Started ledbat.Sampler sampler]
          ++ map ledbat.Wrote (seq 0 n)
          ++ (if ledbat.poll_is_none P then [ledbat.Killed ledbat.Transfer] else [])
          ++ [ledbat.Terminated ledbat.Sampler]).
Proof.
  intros cmd sampler Hopt Ht Hs Hbefore Hfail Hfuel.
  rewrite (sender_prefix P context fuel args Hopt Ht Hs).
  unfold ledbat.try_finally.
  rewrite (send_loop_trace P n fuel 0 _ Hfuel Hbefore). simpl Nat.add. rewrite Hfail.
  unfold ledbat.bind, ledbat.emit, ledbat.ret. fold cmd sampler.
  destruct (ledbat.poll_is_none P); simpl; by rewrite <- ?app_assoc.
Qed.

Lemma sender_write_failure_witness :
  ledbat.main 3 ex_pipe_breaks ex_context ex_sender_args [] =
    Some (Raised BrokenPipeError,
          [ledbat.Started ledbat.Transfer
             ["third_party/libutp/ucat-static"; "10.0.0.1"; "9000"];
           ledbat.Started ledbat.Sampler (ledbat.sampler_cmd "out/ledbat_metrics.csv")]
          ++ map ledbat.Wrote (seq 0 2)
          ++ (if ledbat.poll_is_none ex_pipe_breaks then [ledbat.Killed ledbat.Transfer]
              else [])
          ++ [ledbat.Terminated ledbat.Sampler]).
Proof.
  apply (sender_write_failure 3 2 ex_pipe_breaks ex_context ex_sender_args);
    try reflexivity; [|lia].
  intros j Hj. destruct j as [|[|j]]; [split; reflexivity..|lia].
Defined.

(** X4.  In sender mode, when the writes succeed and the deadline is first
    seen passed at the [n]-th test, [main] returns after [n + 1] chunks: one
    chunk is written even when the deadline has passed from the start.  The
    transfer process is killed if it is still running and the sampler is
    asked to terminate. *)
Theorem sender_deadline (fuel n : nat) (P : ledbat.procs)
    (context : ledbat.Context) (args : ledbat.Args) :
  let cmd := [path_join (path_join (ledbat.third_party_dir context) "libutp") "ucat-static";
              ledbat.ip args; ledbat.port args] in
  let sampler :=
    ledbat.sampler_cmd (path_join (ledbat.output_dir context) "ledbat_metrics.csv") in
  ledbat.option_ args = "sender" ->
  ledbat.popen_ok P cmd = true ->
  ledbat.popen_ok P sampler = true ->
  (forall j, (j < n)%nat ->
             ledbat.write_ok P j = true /\ ledbat.deadline_passed P j = false) ->
  ledbat.write_ok P n = true ->
  ledbat.deadline_passed P n = true ->
  (n < fuel)%nat ->
  ledbat.main fuel P context args [] =
    Some (Ok tt,
          [ledbat.Started ledbat.Transfer cmd; ledbat.Started ledbat.Sampler sampler]
          ++ map ledbat.Wrote (seq 0 (S n))
          ++ (if ledbat.poll_is_none P then [ledbat.Killed ledbat.Transfer] else [])
          ++ [ledbat.Terminated ledbat.Sampler]).
Proof.
  intros cmd sampler Hopt Ht Hs Hbefore Hw Hd Hfuel.
  rewrite (sender_prefix P context fuel args Hopt Ht Hs).
  unfold ledbat.try_finally.
  rewrite (send_loop_trace P n fuel 0 _ Hfuel Hbefore). simpl Nat.add. rewrite Hw, Hd.
  unfold ledbat.bind, ledbat.emit, ledbat.ret. fold cmd sampler.
  destruct (ledbat.poll_is_none P); simpl; by rewrite <- ?app_assoc.
Qed.

Lemma sender_deadline_witness :
  ledbat.main 1 ex_deadline_passed ex_context ex_sender_args [] =
    Some (Ok tt,
          [ledbat.Started ledbat.Transfer
             ["third_party/libutp/ucat-static"; "10.0.0.1"; "9000"];
           ledbat.Started ledbat.Sampler (ledbat.sampler_cmd "out/ledbat_metrics.csv")]
          ++ map ledbat.Wrote (seq 0 1)
          ++ (if ledbat.poll_is_none ex_deadline_passed then [ledbat.Killed ledbat.Transfer]
              else [])
          ++ [ledbat.Terminated ledbat.Sampler]).
Proof.
  apply (sender_deadline 1 0 ex_deadline_passed ex_context ex_sender_args);
    try reflexivity; [|lia].
  intros j Hj. lia.
Defined.

(** X5.  In sender mode, when the transfer process has been started and the
    sampler cannot be started, [main] raises at once: the transfer process
    is neither written to nor killed. *)
Theorem sender_sampler_start_failure (fuel : nat) (P : ledbat.procs)
    (context : ledbat.Context) (args : ledbat.Args) :
  let cmd := [path_join (path_join (ledbat.third_party_dir context) "libutp") "ucat-static";
              ledbat.ip args; ledbat.port args] in
  ledbat.option_ args = "sender" ->
  ledbat.popen_ok P cmd = true ->
  ledbat.popen_ok P
    (ledbat.sampler_cmd (path_join (ledbat.output_dir context) "ledbat_metrics.csv"))
    = false ->
  ledbat.main fuel P context args [] =
    Some (Raised OSError, [ledbat.Started ledbat.Transfer cmd]).
Proof.
  intros cmd Hopt Ht Hs. unfold ledbat.main. rewrite Hopt.
  cbn [String.eqb Ascii.eqb Bool.eqb]. unfold ledbat.bind at 1 2, ledbat.Popen.
  fold cmd. rewrite Ht. unfold ledbat.emit at 1. cbn [app]. by rewrite Hs.
Qed.

Lemma sender_sampler_start_failure_witness :
  ledbat.main 1 ex_no_sampler ex_context ex_sender_args [] =
    Some (Raised OSError,
          [ledbat.Started ledbat.Transfer
             ["third_party/libutp/ucat-static"; "10.0.0.1"; "9000"]]).
Proof.
  apply (sender_sampler_start_failure 1 ex_no_sampler ex_context ex_sender_args);
    reflexivity.
Defined.

(** X6.  In receiver mode, once the sampler has been started, its
    termination is requested exactly when [main] returns normally, that is
    when the transfer process ends with exit status 0. *)
Theorem receiver_release_iff_success (fuel : nat) (P : ledbat.procs)
    (context : ledbat.Context) (args : ledbat.Args)
    (r : result unit) (tr : list ledbat.event) :
  ledbat.option_ args = "receiver" ->
  ledbat.main fuel P context args [] = Some (r, tr) ->
  In (ledbat.Started ledbat.Sampler
        (ledbat.sampler_cmd (path_join (ledbat.output_dir context) "ledbat_metrics.csv")))
     tr ->
  (ledbat.sampler_pending tr = false <-> r = Ok tt).
Proof.
  intros Hopt H. unfold ledbat.main in H. rewrite Hopt in H. simpl in H.
  unfold ledbat.bind, ledbat.Popen in H.
  destruct (ledbat.popen_ok P _).
  2: { inversion H; subst. intros []. }
  unfold ledbat.emit at 1 in H. unfold ledbat.check_call in H.
  destruct (ledbat.check_call_status P _) as [[| |]|];
    unfold ledbat.bind, ledbat.emit, ledbat.raise in H;
    inversion H; subst; intros _; split; intros E; try reflexivity; discriminate E.
Qed.

Lemma receiver_release_iff_success_witness :
  ledbat.sampler_pending
    [ledbat.Started ledbat.Sampler (ledbat.sampler_cmd "out/ledbat_metrics.csv");
     ledbat.Completed ["third_party/libutp/ucat-static"; "-l"; "-p"; "9000"]] = false <->
  Raised (CalledProcessError 1) = Ok tt.
Proof.
  apply (receiver_release_iff_success 1 ex_failing_transfer ex_context ex_receiver_args).
  - reflexivity.
  - reflexivity.
  - left. reflexivity.
Defined.

(** X7.  With any option other than [receiver] and [sender], [main] starts
    no child process: [setup] only runs [make] to its end, any other option
    does nothing. *)
Theorem other_options_start_no_child (fuel : nat) (P : ledbat.procs)
    (context : ledbat.Context) (args : ledbat.Args)
    (r : result unit) (tr : list ledbat.event) :
  ledbat.option_ args <> "receiver" ->
  ledbat.option_ args <> "sender" ->
  ledbat.main fuel P context args [] = Some (r, tr) ->
  (tr = [] \/ tr = [ledbat.Completed ["make"; "-j"]]) /\
  (tr = [ledbat.Completed ["make"; "-j"]] -> ledbat.option_ args = "setup").
Proof.
  intros Hr Hs H. unfold ledbat.main in H.
  apply String.eqb_neq in Hr, Hs. rewrite Hr, Hs in H.
  destruct (String.eqb (ledbat.option_ args) "setup") eqn:Hsetup.
  - apply String.eqb_eq in Hsetup. unfold ledbat.check_call in H.
    destruct (ledbat.check_call_status P _) as [[| |]|];
      unfold ledbat.bind, ledbat.emit, ledbat.raise in H; inversion H; subst;
      split; auto.
  - inversion H; subst. split; [by left | discriminate].
Qed.

Lemma other_options_start_no_child_witness :
  ([ledbat.Completed ["make"; "-j"]] = [] \/
   [ledbat.Completed ["make"; "-j"]] = [ledbat.Completed ["make"; "-j"]]) /\
  ([ledbat.Completed ["make"; "-j"]] = [ledbat.Completed ["make"; "-j"]] ->
   ledbat.option_ ex_setup_args = "setup").
Proof.
  apply (other_options_start_no_child 1 ex_failing_transfer ex_context ex_setup_args
           (Raised (CalledProcessError 1))).
  - discriminate.
  - discriminate.
  - reflexivity.
Defined.

(** ** The sampler: order, count and storage *)

Section SamplerOrder.
Import ledbat.

Variable E : sampler_env.
Variable start : Q.

(** The loop appends the samples of the successive iterations. *)
Lemma sample_loop_samples fuel duration : forall i metrics ms,
  sample_loop fuel E start duration (2 * i + 1) (4 * i) metrics = Some ms ->
  exists cnt, ms = metrics ++ map (sample_at E start) (seq i cnt).
Proof.
  induction fuel as [|fuel IH]; intros i metrics ms H; [discriminate|].
  rewrite sample_loop_step in H. destruct (Qlt_bool _ _).
  - replace (2 * i + 1 + 2)%nat with (2 * S i + 1)%nat in H by lia.
    replace (4 * i + 4)%nat with (4 * S i)%nat in H by lia.
    apply IH in H as [cnt ->]. exists (S cnt).
    rewrite <- app_assoc. f_equal. cbn [seq map app]. f_equal.
    unfold sample_at.
    replace (2 * i + 1 + 1)%nat with (2 * i + 2)%nat by lia. reflexivity.
  - inversion H; subst. exists 0%nat. by rewrite app_nil_r.
Qed.

Lemma lookup_map_seq {A} (f : nat -> A) (i cnt k : nat) (x : A) :
  map f (seq i cnt) !! k = Some x -> x = f (i + k)%nat /\ (k < cnt)%nat.
Proof.
  revert i k. induction cnt as [|cnt IH]; intros i k H; [destruct k; discriminate|].
  destruct k as [|k]; simpl in H.
  - inversion H. rewrite Nat.add_0_r. split; [reflexivity|lia].
  - apply IH in H as [-> Hk]. split; [f_equal; lia|lia].
Qed.

End SamplerOrder.

(** X8.  With a duration that is not positive the sampler takes no sample
    and still goes on to write the artifact, with an empty list of
    samples. *)
Theorem sampler_without_duration (fuel : nat) (E : ledbat.sampler_env)
    (to_csv : list ledbat.sample -> string) (fs : gmap (list string) ledbat.node)
    (metrics_file : string) (duration : Q) :
  (duration <= 0)%Q ->
  (ledbat.clock E 0 <= ledbat.clock E 1)%Q ->
  ledbat.collect_metrics (S fuel) E to_csv fs metrics_file duration =
    Some (ledbat.save_metrics to_csv fs metrics_file []).
Proof.
  intros Hd Hc. unfold ledbat.collect_metrics, ledbat.sample_phase.
  rewrite sample_loop_step.
  assert (ledbat.Qlt_bool (ledbat.clock E 1 - ledbat.clock E 0) duration = false) as ->;
    [|reflexivity].
  unfold ledbat.Qlt_bool. apply negb_false_iff, Qle_bool_iff. lra.
Qed.

Lemma sampler_without_duration_witness :
  ledbat.collect_metrics 1 ex_sampler_env ex_to_csv ∅ "out/ledbat_metrics.csv" 0 =
    Some (ledbat.save_metrics ex_to_csv ∅ "out/ledbat_metrics.csv" []).
Proof.
  apply (sampler_without_duration 0 ex_sampler_env ex_to_csv ∅ "out/ledbat_metrics.csv" 0);
    discriminate.
Defined.

(** X9.  When the clock does not run backwards and every sleep lasts one
    second at least, the elapsed times recorded in the samples are not
    negative and grow by one second at least from each sample to the next:
    the order of the list is the order in time. *)
Theorem sample_timestamps_spaced (fuel : nat) (E : ledbat.sampler_env) (duration : Q)
    (metrics : list ledbat.sample) :
  (forall n, (ledbat.clock E n <= ledbat.clock E (S n))%Q) ->
  (forall i, (ledbat.clock E (2 * i + 2) + 1 <= ledbat.clock E (2 * i + 3))%Q) ->
  ledbat.sample_phase fuel E duration = Some metrics ->
  (forall k s, metrics !! k = Some s -> (0 <= ledbat.timestamp s)%Q) /\
  (forall k s1 s2, metrics !! k = Some s1 -> metrics !! S k = Some s2 ->
                   (ledbat.timestamp s1 + 1 <= ledbat.timestamp s2)%Q).
Proof.
  intros Hmono Hsleep H. unfold ledbat.sample_phase in H.
  apply (sample_loop_samples E (ledbat.clock E 0) fuel duration 0 []) in H as [cnt ->].
  simpl app.
  assert (forall n m, (n <= m)%nat -> (ledbat.clock E n <= ledbat.clock E m)%Q) as Hle.
  { intros n m Hnm. induction Hnm as [|m Hnm IH]; [apply Qle_refl|].
    eapply Qle_trans; [exact IH | apply Hmono]. }
  split.
  - intros k s Hs. apply lookup_map_seq in Hs as [-> _].
    unfold sample_at. cbn [ledbat.timestamp].
    pose proof (Hle 0%nat (2 * (0 + k) + 2)%nat ltac:(lia)). lra.
  - intros k s1 s2 H1 H2.
    apply lookup_map_seq in H1 as [-> _]. apply lookup_map_seq in H2 as [-> _].
    unfold sample_at. cbn [ledbat.timestamp].
    replace (0 + k)%nat with k by lia. replace (0 + S k)%nat with (S k) by lia.
    pose proof (Hsleep k) as Hs.
    pose proof (Hle (2 * k + 3)%nat (2 * S k + 2)%nat ltac:(lia)). lra.
Qed.

Lemma sample_timestamps_spaced_witness :
  (forall k s, ex_samples !! k = Some s -> (0 <= ledbat.timestamp s)%Q) /\
  (forall k s1 s2, ex_samples !! k = Some s1 -> ex_samples !! S k = Some s2 ->
                   (ledbat.timestamp s1 + 1 <= ledbat.timestamp s2)%Q).
Proof.
  apply (sample_timestamps_spaced 4 ex_sampler_env 3 ex_samples).
  - intros n. unfold ex_sampler_env, ledbat.clock. rewrite <- Zle_Qle.
    apply Nat2Z.inj_le. apply Nat.Div0.div_le_mono. lia.
  - intros i. unfold ex_sampler_env, ledbat.clock.
    replace ((2 * i + 2 - 1) / 2)%nat with i.
    2: { replace (2 * i + 2 - 1)%nat with (1 + i * 2)%nat by lia.
         rewrite Nat.div_add by lia. reflexivity. }
    replace ((2 * i + 3 - 1) / 2)%nat with (S i).
    2: { replace (2 * i + 3 - 1)%nat with (S i * 2)%nat by lia.
         symmetry. apply Nat.div_mul. lia. }
    rewrite Nat2Z.inj_succ. unfold Z.succ. rewrite inject_Z_plus. apply Qle_refl.
  - reflexivity.
Defined.

Section SamplerCount.
Import ledbat.

Variable E : sampler_env.

(** Iterations that last one second exactly. *)
Hypothesis exact_ticks :
  forall i, (clock E (2 * i + 1) - clock E 0 == inject_Z (Z.of_nat i))%Q.

Lemma sample_loop_exact (duration : Q) :
  forall fuel i metrics,
    length metrics = i ->
    (i <= Z.to_nat (Qceiling duration))%nat ->
    (Z.to_nat (Qceiling duration) < fuel + i)%nat ->
    exists ms,
      sample_loop fuel E (clock E 0) duration (2 * i + 1) (4 * i) metrics = Some ms /\
      length ms = Z.to_nat (Qceiling duration).
Proof.
  set (N := Z.to_nat (Qceiling duration)).
  induction fuel as [|fuel IH]; intros i metrics Hlen Hi Hfuel; [lia|].
  rewrite sample_loop_step. pose proof (exact_ticks i) as Ht.
  destruct (Qlt_bool _ _) eqn:Hc; unfold Qlt_bool in Hc.
  - apply negb_true_iff in Hc.
    assert (i < N)%nat as HiN.
    { destruct (Nat.eq_dec i N) as [Heq|]; [|lia]. exfalso.
      assert (Qle_bool duration (clock E (2 * i + 1) - clock E 0) = true) as Hle;
        [|congruence].
      apply Qle_bool_iff. rewrite Ht.
      eapply Qle_trans; [apply Qle_ceiling|]. rewrite <- Zle_Qle. unfold N in Heq. lia. }
    replace (2 * i + 1 + 2)%nat with (2 * S i + 1)%nat by lia.
    replace (4 * i + 4)%nat with (4 * S i)%nat by lia.
    apply IH; [|lia|lia]. rewrite length_app. simpl. lia.
  - apply negb_false_iff, Qle_bool_iff in Hc. rewrite Ht in Hc.
    exists metrics. split; [reflexivity|].
    apply Qceiling_resp_le in Hc. rewrite Qceiling_Z in Hc. unfold N in *. lia.
Qed.

End SamplerCount.

(** X10.  When every iteration of the loop lasts one second exactly, the
    sampler takes as many samples as the duration has seconds, rounded up:
    three samples for a duration of 3. *)
Theorem sampler_exact_count (E : ledbat.sampler_env) (duration : Q) :
  (forall i, (ledbat.clock E (2 * i + 1) - ledbat.clock E 0 == inject_Z (Z.of_nat i))%Q) ->
  exists metrics,
    ledbat.sample_phase (S (Z.to_nat (Qceiling duration))) E duration = Some metrics /\
    length metrics = Z.to_nat (Qceiling duration).
Proof.
  intros Hticks. unfold ledbat.sample_phase.
  apply (sample_loop_exact E Hticks duration _ 0 []); [reflexivity|lia|lia].
Qed.

Lemma sampler_exact_count_witness :
  exists metrics,
    ledbat.sample_phase 4 ex_sampler_env 3 = Some metrics /\ length metrics = 3%nat.
Proof.
  apply (sampler_exact_count ex_sampler_env 3).
  intros i. unfold ex_sampler_env, ledbat.clock.
  replace ((2 * i + 1 - 1) / 2)%nat with i
    by (rewrite Nat.add_sub, Nat.mul_comm; symmetry; apply Nat.div_mul; lia).
  change ((0 - 1) / 2)%nat with 0%nat. change (inject_Z (Z.of_nat 0)) with 0%Q. ring.
Defined.

Section Storage.
Import ledbat.

Variable to_csv : list sample -> string.

Lemma Path_mkdir_is_dir fs name fs' :
  Path_mkdir fs name = Ok fs' -> is_dir fs' (parts name) = true.
Proof.
  unfold Path_mkdir, os_mkdir, is_dir.
  destruct (node_at fs (parts name)) as [[|c]|] eqn:Hn.
  - intros H. inversion H; subst. unfold node_at in *.
    destruct (parts name); [reflexivity|]. by rewrite Hn.
  - intros H. discriminate H.
  - destruct (node_at fs (parent (parts name))) as [[|c]|]; try discriminate.
    intros H. inversion H; subst. unfold node_at.
    destruct (parts name); [reflexivity|]. by rewrite lookup_insert_eq.
Qed.

Lemma Path_mkdir_again fs name :
  is_dir fs (parts name) = true -> Path_mkdir fs name = Ok fs.
Proof.
  unfold Path_mkdir, os_mkdir, is_dir.
  destruct (node_at fs (parts name)) as [[|c]|] eqn:Hn; try discriminate.
  reflexivity.
Qed.

Lemma write_file_stored fs name content fs' :
  write_file fs name content = Ok fs' ->
  parts name <> [] /\ node_at fs (parts name) <> Some Dir /\
  fs' = <[parts name := File content]> fs.
Proof.
  unfold write_file.
  destruct (node_at fs (parts name)) as [[|c]|] eqn:Hn; try discriminate.
  - intros H. inversion H; subst. split; [|split; [discriminate|reflexivity]].
    intros E0. rewrite E0 in Hn. discriminate.
  - destruct (node_at fs (parent (parts name))) as [[|c]|]; try discriminate.
    intros H. inversion H; subst. split; [|split; [discriminate|reflexivity]].
    intros E0. rewrite E0 in Hn. discriminate.
Qed.

End Storage.



(** X12.  Saving again to a path where a save has succeeded succeeds too:
    the directory that exists now is accepted, and the artifact is replaced
    by the new text, nothing else changes. *)
Theorem save_metrics_again (to_csv : list ledbat.sample -> string)
    (fs fs1 : gmap (list string) ledbat.node) (metrics_file : string)
    (metrics1 metrics2 : list ledbat.sample) :
  ledbat.save_metrics to_csv fs metrics_file metrics1 = Ok fs1 ->
  ledbat.save_metrics to_csv fs1 metrics_file metrics2 =
    Ok (<[parts metrics_file := ledbat.File (to_csv metrics2)]> fs1).
Proof.
  unfold ledbat.save_metrics.
  destruct (ledbat.Path_mkdir fs (dirname metrics_file)) as [fs0|] eqn:Hmk;
    [|discriminate]. simpl rbind. intros Hw.
  apply Path_mkdir_is_dir in Hmk.
  apply write_file_stored in Hw as (Hne & Hnd & ->).
  set (p := parts metrics_file) in *. set (d := parts (dirname metrics_file)) in *.
  assert (p <> d) as Hpd.
  { intros E0. apply Hnd. rewrite E0. unfold ledbat.is_dir in Hmk.
    by destruct (ledbat.node_at fs0 d) as [[]|]. }
  rewrite Path_mkdir_again.
  - simpl rbind. unfold ledbat.write_file. fold p.
    assert (ledbat.node_at (<[p := ledbat.File (to_csv metrics1)]> fs0) p
            = Some (ledbat.File (to_csv metrics1))) as ->; [|reflexivity].
    unfold ledbat.node_at. destruct p; [done|]. by rewrite lookup_insert_eq.
  - fold d. unfold ledbat.is_dir, ledbat.node_at in *.
    destruct d; [reflexivity|]. by rewrite lookup_insert_ne.
Qed.

Lemma save_metrics_again_witness :
  ledbat.save_metrics ex_to_csv
    (<[["out"; "ledbat_metrics.csv"] := ledbat.File (ex_to_csv ex_samples)]>
       (<[["out"] := ledbat.Dir]> ∅))
    "out/ledbat_metrics.csv" [] =
  Ok (<[parts "out/ledbat_metrics.csv" := ledbat.File (ex_to_csv [])]>
        (<[["out"; "ledbat_metrics.csv"] := ledbat.File (ex_to_csv ex_samples)]>
           (<[["out"] := ledbat.Dir]> ∅))).
Proof.
  apply (save_metrics_again ex_to_csv ∅ _ "out/ledbat_metrics.csv" ex_samples []).
  vm_compute. reflexivity.
Defined.

(** ** Paths *)

Lemma append_nil_l (b : string) : String.append "" b = b.
Proof. reflexivity. Qed.

Lemma append_cons c (a b : string) :
  String.append (String c a) b = String c (String.append a b).
Proof. reflexivity. Qed.

Lemma append_assoc (a b c : string) :
  String.append a (String.append b c) = String.append (String.append a b) c.
Proof.
  induction a as [|x a IH]; [reflexivity|]. by rewrite !append_cons, IH.
Qed.

Lemma length_append_slash (a : string) :
  String.length (String.append a "/") = (String.length a + 1)%nat.
Proof.
  induction a as [|x a IH]; [reflexivity|]. rewrite append_cons. simpl. by rewrite IH.
Qed.

Lemma rfind_slash_app (a b : string) :
  rfind_slash (a ++ b) =
  match rfind_slash b with
  | O => rfind_slash a
  | S n => (String.length a + S n)%nat
  end.
Proof.
  induction a as [|c a IH].
  - rewrite append_nil_l. by destruct (rfind_slash b).
  - rewrite append_cons. cbn [rfind_slash String.length]. rewrite IH.
    destruct (rfind_slash b); [reflexivity|].
    rewrite Nat.add_succ_r. cbn [Nat.add]. by rewrite Nat.add_succ_r.
Qed.

Lemma substring_prefix_app (a b : string) :
  String.substring 0 (String.length a) (a ++ b) = a.
Proof.
  induction a as [|c a IH].
  - rewrite append_nil_l. by destruct b.
  - rewrite append_cons. cbn [String.length String.substring]. by rewrite IH.
Qed.

Lemma ends_with_slash_cons c (a : string) :
  ends_with_slash (String c a) =
  match a with
  | EmptyString => Ascii.eqb c slash
  | _ => ends_with_slash a
  end.
Proof.
  unfold ends_with_slash. destruct a as [|d a]; [reflexivity|].
  cbn [String.length]. simpl String.get. reflexivity.
Qed.

Lemma rstrip_slash_keeps (a : string) :
  ends_with_slash a = false -> rstrip_slash a = a.
Proof.
  induction a as [|c a IH]; [reflexivity|].
  rewrite ends_with_slash_cons. destruct a as [|d a].
  - intros H. cbn [rstrip_slash]. by rewrite H.
  - intros H. specialize (IH H).
    change (rstrip_slash (String c (String d a))) with
      (match rstrip_slash (String d a) with
       | EmptyString => if Ascii.eqb c slash then EmptyString else String c EmptyString
       | r' => String c r'
       end).
    by rewrite IH.
Qed.

Lemma rstrip_slash_app_slash (a : string) :
  rstrip_slash (a ++ "/") = rstrip_slash a.
Proof.
  induction a as [|c a IH]; [reflexivity|].
  rewrite append_cons. cbn [rstrip_slash]. by rewrite IH.
Qed.

Lemma all_slashes_ends (a : string) :
  a <> "" -> ends_with_slash a = false -> all_slashes a = false.
Proof.
  induction a as [|c a IH]; [done|]. intros _.
  rewrite ends_with_slash_cons. destruct a as [|d a].
  - intros H. simpl. by rewrite H.
  - intros H.
    change (all_slashes (String c (String d a))) with
      (Ascii.eqb c slash && all_slashes (String d a)).
    rewrite IH; [apply andb_false_r|done|exact H].
Qed.

Lemma all_slashes_app (a b : string) :
  all_slashes (a ++ b) = all_slashes a && all_slashes b.
Proof.
  induction a as [|c a IH]; [reflexivity|].
  rewrite append_cons. cbn [all_slashes]. by rewrite IH, andb_assoc.
Qed.

(** X13.  [dirname] undoes [join]: the directory of [join(a, b)] is [a],
    for a name [b] without slash and a directory [a] that does not end with
    a slash.  So the directory the sampler creates for the metrics file of
    [main] is [context.output_dir]. *)
Theorem dirname_path_join (a b : string) :
  rfind_slash b = 0%nat ->
  ends_with_slash a = false ->
  dirname (path_join a b) = a.
Proof.
  intros Hb Ha. unfold path_join.
  assert (String.prefix "/" b = false) as ->.
  { destruct b as [|c b]; [reflexivity|]. cbn [rfind_slash] in Hb.
    destruct (rfind_slash b); [|discriminate].
    destruct (Ascii.eqb c slash) eqn:Hc; [discriminate|].
    cbn [String.prefix].
    destruct (ascii_dec "/" c) as [<-|]; [by vm_compute in Hc|reflexivity]. }
  destruct (String.eqb a "") eqn:Hempty.
  - apply String.eqb_eq in Hempty. subst a. simpl orb. cbv iota.
    rewrite append_nil_l. unfold dirname. rewrite Hb. by destruct b.
  - rewrite Ha. simpl orb. cbv iota. unfold dirname.
    rewrite rfind_slash_app.
    assert (rfind_slash (String.append "/" b) = 1%nat) as ->.
    { rewrite append_cons, append_nil_l. cbn [rfind_slash]. by rewrite Hb. }
    rewrite append_assoc, <- length_append_slash, substring_prefix_app.
    assert (a <> "") as Hne by (intros ->; discriminate).
    assert (String.eqb (String.append a "/") "" = false) as ->.
    { destruct a; [done|reflexivity]. }
    rewrite all_slashes_app, (all_slashes_ends a Hne Ha). simpl.
    rewrite rstrip_slash_app_slash. by apply rstrip_slash_keeps.
Qed.

Lemma dirname_path_join_witness :
  dirname (path_join "out" "ledbat_metrics.csv") = "out".
Proof. apply (dirname_path_join "out" "ledbat_metrics.csv"); reflexivity. Defined.

(** ** The runner: what it writes and what it picks up *)

Section RunnerFrame.
Import final_analysis.

Variable shell : shell_t.
Variable now : Q.
Variable path : string.

Hypothesis shell_keeps : forall cmd fs, (shell cmd fs).1 !! path = fs !! path.

Lemma run_pair_keeps prof_id cfg algo st :
  path <> path_join (result_path_of prof_id algo) (algo ++ "_cc_log.csv")%string ->
  (run_pair shell now prof_id cfg algo st).1 !! path = st.1 !! path.
Proof.
  intros Hne. destruct st as [fs log]. unfold run_pair, makedirs.
  pose proof (shell_keeps (test_command_of cfg algo (result_path_of prof_id algo)) fs)
    as Hk.
  destruct (shell _ fs) as [fs1 rc]. simpl in Hk. destruct (Z.eqb rc 0); [|exact Hk].
  unfold copy_latest_metrics. destruct (sorted_desc _ _) as [|newest rest]; [exact Hk|].
  simpl. unfold copy. destruct (fs1 !! newest); [|exact Hk].
  by rewrite lookup_insert_ne.
Qed.

Lemma run_inner_keeps prof_id cfg algos : forall st,
  (forall algo, In algo algos ->
     path <> path_join (result_path_of prof_id algo) (algo ++ "_cc_log.csv")%string) ->
  (fold_left (fun st algo => run_pair shell now prof_id cfg algo st) algos st).1 !! path
  = st.1 !! path.
Proof.
  induction algos as [|a algos IH]; intros st Hne; [reflexivity|].
  simpl. rewrite IH by (intros algo Hin; apply Hne; by right).
  apply run_pair_keeps, Hne. by left.
Qed.

Lemma execute_tests_keeps C fs :
  (forall prof_id cfg algo,
     In (prof_id, cfg) (NET_PROFILES C) -> In algo (CC_ALGOS C) ->
     path <> path_join (result_path_of prof_id algo) (algo ++ "_cc_log.csv")%string) ->
  (execute_tests C shell now fs).1 !! path = fs !! path.
Proof.
  intros Hne. unfold execute_tests.
  change (fs !! path) with ((fs, @nil report).1 !! path).
  generalize (fs, @nil report) as st.
  revert Hne. generalize (NET_PROFILES C) as ps.
  induction ps as [|[p cfg] ps IH]; intros Hne st; [reflexivity|].
  simpl. rewrite IH
    by (intros p' cfg' a Hin Ha; apply (Hne p' cfg' a); [by right|exact Ha]).
  apply run_inner_keeps. intros a Ha. apply (Hne p cfg a); [by left|exact Ha].
Qed.

End RunnerFrame.

(** X14.  The runner writes to the run destinations only: a file that the
    shell commands leave alone and that is not the metrics destination
    [results/profile_<id>/<scheme>/<scheme>_cc_log.csv] of a pair of the
    catalog is the same before and after [execute_tests]. *)
Theorem runner_writes_only_destinations (C : final_analysis.catalog)
    (shell : final_analysis.shell_t) (now : Q) (fs : gmap string final_analysis.file)
    (path : string) :
  (forall cmd fs0, (shell cmd fs0).1 !! path = fs0 !! path) ->
  (forall prof_id cfg algo,
     In (prof_id, cfg) (final_analysis.NET_PROFILES C) ->
     In algo (final_analysis.CC_ALGOS C) ->
     path <> path_join (final_analysis.result_path_of prof_id algo)
                       (algo ++ "_cc_log.csv")%string) ->
  (final_analysis.execute_tests C shell now fs).1 !! path = fs !! path.
Proof. intros Hshell Hne. by apply execute_tests_keeps. Qed.

Lemma runner_writes_only_destinations_witness :
  (final_analysis.execute_tests final_analysis.module_catalog ex_shell 99 ex_one_artifact).1
    !! "results/profile_1/cubic/log.txt"
  = ex_one_artifact !! "results/profile_1/cubic/log.txt".
Proof.
  apply (runner_writes_only_destinations final_analysis.module_catalog ex_shell 99
           ex_one_artifact "results/profile_1/cubic/log.txt").
  - intros cmd fs0. unfold ex_shell. simpl. by rewrite !lookup_insert_ne.
  - intros prof_id cfg algo Hp Ha. simpl in Hp, Ha.
    destruct Hp as [Hp|[Hp|[]]]; inversion Hp; subst;
      destruct Ha as [<-|[<-|[<-|[]]]]; discriminate.
Defined.

Section Patterns.
Import final_analysis.

Lemma fnmatch_literal_cons c pat s :
  c <> "*"%char -> c <> "?"%char ->
  fnmatch (c :: pat) s =
  match s with
  | [] => false
  | d :: s' => Ascii.eqb c d && fnmatch pat s'
  end.
Proof.
  intros Hs Hq. cbn [fnmatch].
  apply Ascii.eqb_neq in Hs, Hq. rewrite Hs, Hq. reflexivity.
Qed.

Lemma fnmatch_star_unfold pat s :
  fnmatch ("*"%char :: pat) s =
  fnmatch pat s ||
  match s with
  | [] => false
  | c :: s' => negb (Ascii.eqb c slash) && fnmatch ("*"%char :: pat) s'
  end.
Proof. destruct s; reflexivity. Qed.

Lemma fnmatch_literal_prefix pre pat : forall s,
  literal_pattern pre ->
  (fnmatch (pre ++ pat) s = true <-> exists rest, s = pre ++ rest /\ fnmatch pat rest = true).
Proof.
  induction pre as [|c pre IH]; intros s Hlit.
  - simpl. split; [by eauto|]. by intros (rest & -> & H).
  - inversion Hlit as [|? ? (Hs & Hq & _) Hlit']; subst.
    change ((c :: pre) ++ pat) with (c :: (pre ++ pat)).
    rewrite fnmatch_literal_cons by assumption. destruct s as [|d s].
    + split; [discriminate|]. by intros (rest & H & _).
    + rewrite andb_true_iff, (IH s Hlit'), Ascii.eqb_eq. split.
      * intros (-> & rest & -> & H). by exists rest.
      * intros (rest & Heq & H). inversion Heq; subst. split; [reflexivity|by eauto].
Qed.

Lemma fnmatch_literal_whole l s :
  literal_pattern l -> (fnmatch l s = true <-> s = l).
Proof.
  intros Hlit. rewrite <- (app_nil_r l) at 1. rewrite fnmatch_literal_prefix by assumption.
  split.
  - intros (rest & -> & H). destruct rest; [by rewrite app_nil_r|discriminate].
  - intros ->. exists []. by rewrite app_nil_r.
Qed.

Lemma fnmatch_star pat : forall s,
  fnmatch ("*"%char :: pat) s = true <->
  exists mid rest, s = mid ++ rest /\ Forall (fun c => c <> slash) mid /\
                   fnmatch pat rest = true.
Proof.
  intros s. split.
  - induction s as [|c s IH]; rewrite fnmatch_star_unfold, orb_true_iff.
    + intros [H|H]; [|discriminate]. exists [], []. by repeat split.
    + intros [H|H].
      * exists [], (c :: s). by repeat split.
      * apply andb_true_iff in H as [Hc H]. apply IH in H as (mid & rest & -> & Hmid & H).
        exists (c :: mid), rest. repeat split; [|exact H].
        constructor; [|exact Hmid]. apply negb_true_iff in Hc. by apply Ascii.eqb_neq.
  - intros (mid & rest & -> & Hmid & H).
    induction Hmid as [|c mid Hc Hmid IH]; rewrite fnmatch_star_unfold, orb_true_iff.
    + by left.
    + right. simpl. apply andb_true_iff. split; [|exact IH].
      apply negb_true_iff. by apply Ascii.eqb_neq.
Qed.

Lemma list_ascii_of_string_app (a b : string) :
  list_ascii_of_string (String.append a b) = list_ascii_of_string a ++ list_ascii_of_string b.
Proof.
  induction a as [|c a IH]; [reflexivity|].
  rewrite append_cons. simpl. by rewrite IH.
Qed.

Lemma rfind_slash_zero (s : string) :
  rfind_slash s = 0%nat <-> Forall (fun c => c <> slash) (list_ascii_of_string s).
Proof.
  induction s as [|c s IH]; simpl.
  - split; [constructor|reflexivity].
  - destruct (rfind_slash s) as [|n].
    + destruct (Ascii.eqb c slash) eqn:Hc.
      * apply Ascii.eqb_eq in Hc. split; [discriminate|].
        intros H. inversion H; subst. congruence.
      * apply Ascii.eqb_neq in Hc. split; [|reflexivity].
        intros _. constructor; [exact Hc|]. by apply IH.
    + split; [discriminate|]. intros H. inversion H as [|? ? _ Hs]; subst.
      apply IH in Hs. discriminate.
Qed.

End Patterns.

(** X15.  For a scheme name without [*], [?] and opening bracket, the files
    the runner considers for the scheme are the files named
    [logs/metrics_<scheme>_<x>.csv] for a text [x] without slash (the empty
    text included): nothing in a sub-directory, nothing with another
    extension. *)
Theorem glob_metrics_pattern (fs : gmap string final_analysis.file) (algo p : string) :
  literal_pattern (list_ascii_of_string algo) ->
  (In p (final_analysis.glob fs ("logs/metrics_" ++ algo ++ "_*.csv")%string) <->
   (exists f, fs !! p = Some f) /\
   exists x, p = ("logs/metrics_" ++ algo ++ "_" ++ x ++ ".csv")%string /\
             rfind_slash x = 0%nat).
Proof.
  intros Hlit. rewrite glob_In.
  assert (forall q : string,
            final_analysis.fnmatch
              (list_ascii_of_string ("logs/metrics_" ++ algo ++ "_*.csv")%string)
              (list_ascii_of_string q) = true <->
            exists x, q = ("logs/metrics_" ++ algo ++ "_" ++ x ++ ".csv")%string /\
                      rfind_slash x = 0%nat) as Hmatch; [|by rewrite Hmatch].
  intros q.
  set (pre := list_ascii_of_string "logs/metrics_" ++ list_ascii_of_string algo
              ++ ["_"%char]).
  assert (literal_pattern pre) as Hpre.
  { unfold pre, literal_pattern. rewrite !Forall_app. split; [|split].
    - repeat constructor; discriminate.
    - exact Hlit.
    - repeat constructor; discriminate. }
  assert (list_ascii_of_string ("logs/metrics_" ++ algo ++ "_*.csv")%string
          = pre ++ "*"%char :: list_ascii_of_string ".csv") as ->.
  { unfold pre. rewrite !list_ascii_of_string_app, <- !app_assoc. reflexivity. }
  rewrite fnmatch_literal_prefix by exact Hpre. split.
  - intros (rest & Hq & Hrest).
    apply fnmatch_star in Hrest as (mid & suf & -> & Hmid & Hsuf).
    apply fnmatch_literal_whole in Hsuf; [|repeat constructor; discriminate]. subst suf.
    exists (string_of_list_ascii mid). split.
    + rewrite <- (string_of_list_ascii_of_string q), Hq. unfold pre.
      rewrite <- (string_of_list_ascii_of_string
                    ("logs/metrics_" ++ algo ++ "_" ++ string_of_list_ascii mid ++ ".csv")).
      f_equal. rewrite !list_ascii_of_string_app, list_ascii_of_string_of_list_ascii.
      by rewrite <- !app_assoc.
    + apply rfind_slash_zero. by rewrite list_ascii_of_string_of_list_ascii.
  - intros (x & -> & Hx).
    exists (list_ascii_of_string x ++ list_ascii_of_string ".csv"). split.
    + unfold pre. rewrite !list_ascii_of_string_app, <- !app_assoc. reflexivity.
    + apply fnmatch_star. exists (list_ascii_of_string x), (list_ascii_of_string ".csv").
      split; [reflexivity|]. split; [by apply rfind_slash_zero|reflexivity].
Qed.

Lemma glob_metrics_pattern_witness :
  In "logs/metrics_cubic_2.csv"
     (final_analysis.glob (ex_shell "" ∅).1 ("logs/metrics_" ++ "cubic" ++ "_*.csv")%string) <->
  (exists f, (ex_shell "" ∅).1 !! "logs/metrics_cubic_2.csv" = Some f) /\
  exists x, "logs/metrics_cubic_2.csv" = ("logs/metrics_" ++ "cubic" ++ "_" ++ x ++ ".csv")%string /\
            rfind_slash x = 0%nat.
Proof.
  apply (glob_metrics_pattern (ex_shell "" ∅).1 "cubic" "logs/metrics_cubic_2.csv").
  repeat constructor; discriminate.
Defined.

(** ** The aggregate as a whole *)

Lemma flat_map_ext_In {A B} (f g : A -> list B) (l : list A) :
  (forall x, In x l -> f x = g x) -> flat_map f l = flat_map g l.
Proof.
  induction l as [|x l IH]; intros H; simpl; [reflexivity|].
  rewrite (H x) by (by left). f_equal. apply IH. intros y Hy. apply H. by right.
Qed.

Lemma add_column_NoDup c cols : List.NoDup cols -> List.NoDup (add_column c cols).
Proof.
  intros H. unfold add_column. destruct (mem c cols) eqn:Hm; [exact H|].
  apply NoDup_app_remove_l with (l := []). simpl.
  apply (Permutation.Permutation_NoDup (l := c :: cols)).
  - apply Permutation.Permutation_cons_append.
  - constructor; [|exact H]. intros Hin. apply mem_In in Hin. congruence.
Qed.

Lemma In_add_column x c cols : In x (add_column c cols) <-> x = c \/ In x cols.
Proof.
  unfold add_column. destruct (mem c cols) eqn:Hm.
  - split; [by right|]. intros [->|H]; [by apply mem_In|exact H].
  - rewrite in_app_iff. simpl. intuition.
Qed.

Lemma fold_add_column_spec cs : forall acc,
  (List.NoDup acc -> List.NoDup (fold_left (fun acc c => add_column c acc) cs acc)) /\
  (forall x, In x (fold_left (fun acc c => add_column c acc) cs acc) <-> In x acc \/ In x cs).
Proof.
  induction cs as [|c cs IH]; intros acc; simpl.
  - split; [done|]. intuition.
  - destruct (IH (add_column c acc)) as [Hnd Hin]. split.
    + intros H. by apply Hnd, add_column_NoDup.
    + intros x. rewrite Hin, In_add_column. intuition.
Qed.

Lemma union_columns_spec frames :
  List.NoDup (union_columns frames) /\
  (forall x, In x (union_columns frames) <->
             exists df, In df frames /\ In x (columns df)).
Proof.
  unfold union_columns.
  enough (forall acc,
    (List.NoDup acc ->
     List.NoDup (fold_left (fun acc df =>
                   fold_left (fun acc c => add_column c acc) (columns df) acc) frames acc)) /\
    (forall x, In x (fold_left (fun acc df =>
                   fold_left (fun acc c => add_column c acc) (columns df) acc) frames acc)
               <-> In x acc \/ exists df, In df frames /\ In x (columns df))) as H.
  { destruct (H []) as [Hnd Hin]. split; [apply Hnd; constructor|].
    intros x. rewrite Hin. simpl. intuition. }
  induction frames as [|df frames IH]; intros acc; simpl.
  - split; [done|]. intros x. split; [by left|]. by intros [H|(df & [] & _)].
  - destruct (IH (fold_left (fun acc c => add_column c acc) (columns df) acc))
      as [Hnd Hin].
    destruct (fold_add_column_spec (columns df) acc) as [Hnd1 Hin1]. split.
    + intros H. by apply Hnd, Hnd1.
    + intros x. rewrite Hin, Hin1. split.
      * intros [[H|H]|(df' & Hdf & H)]; [by left| |]; right; eauto.
      * intros [H|(df' & [<-|Hdf] & H)]; [by left; left|by left; right|right; eauto].
Qed.

Section AggregateShape.
Import final_analysis.

Variable C : catalog.
Variable read_csv : string -> result DataFrame.

(** A frame of the list comes from a pair of the catalog whose artifact
    parses, and is that artifact tagged. *)
Lemma collect_frames_In fs tdf :
  In tdf (collect_frames C read_csv fs) <->
  exists prof_id cfg algo df,
    In (prof_id, cfg) (NET_PROFILES C) /\ In algo (CC_ALGOS C) /\
    read_csv_file read_csv fs (log_file_of prof_id algo) = Ok df /\
    tdf = {| columns :=
               add_column "timestamp"
                 (add_column "latency"
                    (add_column "profile_name"
                       (add_column "profile" (add_column "scheme" (columns df)))));
             rows := tagged_rows prof_id cfg algo df |}.
Proof.
  rewrite collect_frames_pairs, in_flat_map. split.
  - intros ([[p cfg] a] & Hpair & Hin). apply In_pairs in Hpair as [Hp Ha].
    unfold collect_pair, isfile in Hin.
    destruct (read_csv_file read_csv fs (log_file_of p a)) as [df|e] eqn:Hr.
    + rewrite (tag_frame_ok read_csv fs p cfg a _ df Hr) in Hin.
      destruct (fs !! log_file_of p a); [|contradiction].
      destruct Hin as [<-|[]]. exists p, cfg, a, df. by repeat split.
    + rewrite (tag_frame_raised read_csv fs p cfg a _ e Hr) in Hin.
      by destruct (fs !! log_file_of p a).
  - intros (p & cfg & a & df & Hp & Ha & Hr & ->).
    exists (p, cfg, a). split; [by apply In_pairs|].
    unfold collect_pair, isfile. rewrite (tag_frame_ok read_csv fs p cfg a _ df Hr).
    unfold read_csv_file in Hr. destruct (fs !! log_file_of p a); [by left|discriminate].
Qed.

End AggregateShape.

Lemma df_empty_collect (C : final_analysis.catalog) (read_csv : string -> result DataFrame)
    (fs : gmap string final_analysis.file) :
  df_empty (final_analysis.collect_dataframes C read_csv fs) =
  match rows (final_analysis.collect_dataframes C read_csv fs) with
  | [] => true
  | _ => false
  end.
Proof.
  unfold final_analysis.collect_dataframes.
  destruct (final_analysis.collect_frames C read_csv fs) as [|tdf frames] eqn:E;
    [reflexivity|].
  assert (In "scheme" (columns (concat (tdf :: frames)))) as Hcol.
  { apply (union_columns_spec (tdf :: frames)). exists tdf. split; [by left|].
    assert (In tdf (final_analysis.collect_frames C read_csv fs)) as Hin
      by (rewrite E; by left).
    apply collect_frames_In in Hin as (p & cfg & a & df & _ & _ & _ & ->).
    simpl columns. rewrite !In_add_column. tauto. }
  unfold df_empty. destruct (columns (concat (tdf :: frames))); [contradiction|].
  reflexivity.
Qed.

(** X16.  [orchestrate] stops with "no data" exactly when the aggregate has
    no record: not only when no artifact is found, also when the artifacts
    found have a header and no line of data. *)
Theorem no_data_iff_no_rows (C : final_analysis.catalog) (X : final_analysis.externals)
    (fs : gmap string final_analysis.file) :
  let st := final_analysis.execute_tests C (final_analysis.shell X)
              (final_analysis.now X) fs in
  let data := final_analysis.collect_dataframes C (final_analysis.read_csv X) st.1 in
  (rows data = [] -> final_analysis.orchestrate C X fs = Ok (st, final_analysis.NoData)) /\
  (rows data <> [] ->
   forall st', final_analysis.orchestrate C X fs <> Ok (st', final_analysis.NoData)).
Proof.
  intros st data. unfold final_analysis.orchestrate, final_analysis.makedirs.
  subst data. fold st. clearbody st. destruct st as [fs1 log]. cbn [fst].
  rewrite (df_empty_collect C (final_analysis.read_csv X) fs1).
  destruct (rows (final_analysis.collect_dataframes C (final_analysis.read_csv X) fs1))
    as [|r rs]; split; try done.
  intros _ st'.
  repeat match goal with
         | |- rbind ?r _ <> _ => destruct r; [simpl rbind|discriminate]
         end.
  discriminate.
Qed.

(** A header without data: the runner leaves the artifact, the aggregate
    has columns and no record, and [orchestrate] stops with "no data". *)
Example header_only_is_no_data :
  final_analysis.orchestrate final_analysis.module_catalog ex_failing_externals
    ex_header_only =
  Ok (ex_header_only,
      (final_analysis.execute_tests final_analysis.module_catalog
         (final_analysis.shell ex_failing_externals) 0 ex_header_only).2,
      final_analysis.NoData).
Proof. vm_compute. reflexivity. Qed.

(** X17.  The aggregator reads the artifacts of the pairs of the catalog and
    nothing else: two sets of files that agree on the paths
    [results/profile_<id>/<scheme>/<scheme>_cc_log.csv] of the catalog give
    the same aggregate. *)
Theorem aggregate_reads_only_artifacts (C : final_analysis.catalog)
    (read_csv : string -> result DataFrame) (fs fs' : gmap string final_analysis.file) :
  (forall prof_id cfg algo,
     In (prof_id, cfg) (final_analysis.NET_PROFILES C) ->
     In algo (final_analysis.CC_ALGOS C) ->
     fs !! final_analysis.log_file_of prof_id algo
     = fs' !! final_analysis.log_file_of prof_id algo) ->
  final_analysis.collect_dataframes C read_csv fs =
  final_analysis.collect_dataframes C read_csv fs'.
Proof.
  intros Hsame. unfold final_analysis.collect_dataframes.
  rewrite !collect_frames_pairs.
  rewrite (flat_map_ext_In _
             (fun '(prof_id, cfg, algo) =>
                final_analysis.collect_pair read_csv fs' prof_id cfg algo [])); [reflexivity|].
  intros [[p cfg] a] Hin. apply In_pairs in Hin as [Hp Ha].
  unfold final_analysis.collect_pair, final_analysis.isfile, final_analysis.tag_frame,
    final_analysis.read_csv_file.
  by rewrite (Hsame p cfg a Hp Ha).
Qed.

Lemma aggregate_reads_only_artifacts_witness :
  final_analysis.collect_dataframes final_analysis.module_catalog ex_read_csv
    ex_one_artifact =
  final_analysis.collect_dataframes final_analysis.module_catalog ex_read_csv
    (<["results/profile_1/cubic/log.txt" := ex_file ["ok"]]> ex_one_artifact).
Proof.
  apply (aggregate_reads_only_artifacts final_analysis.module_catalog ex_read_csv).
  intros prof_id cfg algo Hp Ha. simpl in Hp, Ha.
  destruct Hp as [Hp|[Hp|[]]]; inversion Hp; subst;
    destruct Ha as [<-|[<-|[<-|[]]]]; by rewrite lookup_insert_ne.
Defined.

Lemma length_flat_map {A B} (f : A -> list B) (l : list A) :
  length (flat_map f l) = list_sum (map (fun x => length (f x)) l).
Proof.
  induction l as [|x l IH]; simpl; [reflexivity|]. by rewrite length_app, IH.
Qed.

(** X18.  The aggregate has as many records as the artifacts that parse
    have lines of data, taken together: no record is lost and none is
    duplicated by the concatenation. *)
Theorem aggregate_row_count (C : final_analysis.catalog)
    (read_csv : string -> result DataFrame) (fs : gmap string final_analysis.file) :
  len (final_analysis.collect_dataframes C read_csv fs) =
  list_sum (map (artifact_len read_csv fs) (pairs C)).
Proof.
  unfold len. rewrite rows_collect_dataframes, length_flat_map. f_equal.
  apply map_ext. intros [[p cfg] a]. unfold contribution, artifact_len.
  unfold final_analysis.read_csv_file.
  destruct (fs !! final_analysis.log_file_of p a) as [f|]; [|reflexivity].
  destruct (read_csv (final_analysis.content f)) as [df|]; [|reflexivity].
  unfold tagged_rows. rewrite length_zip_with, length_range. unfold len. lia.
Qed.

(** X19.  The column labels of the aggregate are distinct, and they are the
    labels of the artifacts that parse together with the five labels the
    aggregator writes ([scheme], [profile], [profile_name], [latency],
    [timestamp]). *)
Theorem aggregate_columns (C : final_analysis.catalog)
    (read_csv : string -> result DataFrame) (fs : gmap string final_analysis.file) :
  List.NoDup (columns (final_analysis.collect_dataframes C read_csv fs)) /\
  forall c,
    In c (columns (final_analysis.collect_dataframes C read_csv fs)) <->
    exists prof_id cfg algo df,
      In (prof_id, cfg) (final_analysis.NET_PROFILES C) /\
      In algo (final_analysis.CC_ALGOS C) /\
      final_analysis.read_csv_file read_csv fs (final_analysis.log_file_of prof_id algo)
        = Ok df /\
      (In c (columns df) \/ In c tag_columns).
Proof.
  assert (columns (final_analysis.collect_dataframes C read_csv fs) =
          union_columns (final_analysis.collect_frames C read_csv fs)) as ->.
  { unfold final_analysis.collect_dataframes.
    by destruct (final_analysis.collect_frames C read_csv fs). }
  destruct (union_columns_spec (final_analysis.collect_frames C read_csv fs))
    as [Hnd Hin].
  split; [exact Hnd|]. intros c. rewrite Hin. split.
  - intros (tdf & Htdf & Hc).
    apply collect_frames_In in Htdf as (p & cfg & a & df & Hp & Ha & Hr & ->).
    exists p, cfg, a, df. repeat split; try assumption.
    simpl columns in Hc. rewrite !In_add_column in Hc.
    unfold tag_columns. simpl.
    destruct Hc as [->|[->|[->|[->|[->|Hc]]]]]; auto 10.
  - intros (p & cfg & a & df & Hp & Ha & Hr & Hc).
    eexists. split.
    + apply collect_frames_In. exists p, cfg, a, df. by repeat split.
    + simpl columns. rewrite !In_add_column.
      unfold tag_columns in Hc. simpl in Hc.
      destruct Hc as [Hc|[<-|[<-|[<-|[<-|[<-|[]]]]]]]; auto 10.
Qed.

(** ** The derived statistics *)

Section SeriesFacts.

Lemma numbers_Num (xs : list Q) : numbers (map Num xs) = Ok xs.
Proof. induction xs as [|x xs IH]; simpl; [reflexivity|]. by rewrite IH. Qed.

Lemma diff_from_Num (prev : Q) (xs : list Q) :
  diff_from (Num prev) (map Num xs) = Ok (map Num (first_differences prev xs)).
Proof.
  revert prev. induction xs as [|x xs IH]; intros prev; simpl; [reflexivity|].
  by rewrite IH.
Qed.

Lemma series_abs_Num (xs : list Q) :
  series_abs (map Num xs) = Ok (map Num (map Qabs xs)).
Proof.
  unfold series_abs. induction xs as [|x xs IH]; simpl; [reflexivity|]. by rewrite IH.
Qed.

Lemma numbers_ok (l : list cell) : Forall no_string l -> exists qs, numbers l = Ok qs.
Proof.
  induction 1 as [|c l Hc Hl [qs IH]]; simpl; [by eauto|].
  destruct c as [|q|s]; [by eauto| |by destruct (Hc s)].
  rewrite IH. simpl. by eauto.
Qed.

Lemma cell_sub_ok (a b : cell) :
  no_string a -> no_string b -> exists d, cell_sub a b = Ok d /\ no_string d.
Proof.
  intros Ha Hb. destruct a as [|x|s]; [| |by destruct (Ha s)];
    (destruct b as [|y|s]; [| |by destruct (Hb s)]); simpl;
    eexists; (split; [reflexivity|]); intros s; discriminate.
Qed.

Lemma diff_from_ok (l : list cell) : forall prev,
  no_string prev -> Forall no_string l ->
  exists ds, diff_from prev l = Ok ds /\ Forall no_string ds.
Proof.
  induction l as [|c l IH]; intros prev Hp Hl; simpl; [by eauto|].
  inversion Hl as [|? ? Hc Hl']; subst.
  destruct (cell_sub_ok c prev Hc Hp) as (d & -> & Hd).
  destruct (IH c Hc Hl') as (ds & -> & Hds). simpl. by eauto.
Qed.

Lemma series_abs_ok (l : list cell) :
  Forall no_string l -> exists l', series_abs l = Ok l' /\ Forall no_string l'.
Proof.
  unfold series_abs. induction 1 as [|c l Hc Hl (l' & IH & Hl')]; simpl; [by eauto|].
  destruct c as [|q|s]; [| |by destruct (Hc s)]; rewrite IH;
    (eexists; split; [reflexivity|]); constructor; try exact Hl'; intros s; discriminate.
Qed.

Lemma jitter_ok (l : list cell) :
  Forall no_string l -> exists j, final_analysis.jitter l = Ok j.
Proof.
  intros Hl. unfold final_analysis.jitter, series_diff.
  destruct l as [|c l].
  - simpl. by eauto.
  - inversion Hl as [|? ? Hc Hl']; subst.
    destruct (cell_sub_ok c c Hc Hc) as (d & -> & _).
    destruct (diff_from_ok l c Hc Hl') as (ds & -> & Hds). simpl rbind.
    destruct (series_abs_ok (NaN :: ds)) as (l' & -> & Hl'').
    { constructor; [intros s; discriminate|exact Hds]. }
    simpl rbind. unfold series_mean.
    destruct (numbers_ok l' Hl'') as (qs & ->). simpl. by eauto.
Qed.

End SeriesFacts.

(** X20.  The jitter of a series of numbers is the mean of the absolute
    differences between consecutive values: the undefined first difference
    is left out, so that [n] values give [n - 1] differences, and one value
    alone gives not-a-number. *)
Theorem jitter_mean_absolute_difference (x : Q) (xs : list Q) :
  final_analysis.jitter (map Num (x :: xs)) =
  Ok match xs with
     | [] => NaN
     | _ => Num (Qred (Qsum (map Qabs (first_differences x xs))
                       / inject_Z (Z.of_nat (length xs))))
     end.
Proof.
  unfold final_analysis.jitter, series_diff. simpl map. simpl cell_sub.
  simpl rbind. rewrite diff_from_Num. simpl rbind.
  change (series_abs (NaN :: map Num (first_differences x xs))) with
    (match series_abs (map Num (first_differences x xs)) with
     | Ok ys => Ok (NaN :: ys)
     | Raised e => Raised e
     end).
  rewrite series_abs_Num. simpl rbind. unfold series_mean. simpl numbers.
  rewrite numbers_Num. simpl rbind. unfold mean_of, Qlen.
  assert (forall p l, length (first_differences p l) = length l) as Hlen.
  { clear. intros p l. revert p. induction l as [|z l IH]; intros p; simpl;
      [reflexivity|]. by rewrite IH. }
  destruct xs as [|y ys]; [reflexivity|].
  cbn [first_differences map length]. by rewrite length_map, Hlen.
Qed.

Section Unique.

Lemma cell_same_refl c : cell_same c c = true.
Proof.
  destruct c as [|q|s]; simpl; [reflexivity| |apply String.eqb_refl].
  apply Qeq_bool_iff, Qeq_refl.
Qed.

Lemma cell_eqb_Str c s : cell_eqb c (Str s) = true <-> c = Str s.
Proof.
  destruct c as [|q|t]; simpl; try (split; discriminate).
  rewrite String.eqb_eq. split; [by intros ->|by intros [= ->]].
Qed.

Lemma cell_same_Str s c : cell_same (Str s) c = true -> c = Str s.
Proof.
  destruct c as [|q|t]; simpl; try discriminate.
  intros H. apply String.eqb_eq in H. by subst.
Qed.

Lemma existsb_false_not_In c acc : existsb (cell_same c) acc = false -> ~ In c acc.
Proof.
  intros H Hin. assert (existsb (cell_same c) acc = true) as Ht; [|congruence].
  apply existsb_exists. exists c. split; [exact Hin|apply cell_same_refl].
Qed.

Lemma unique_from l : forall acc,
  (forall c, In c (fold_left (fun acc c => if existsb (cell_same c) acc then acc
                                           else acc ++ [c]) l acc)
             -> In c acc \/ In c l) /\
  (forall s, In (Str s) acc \/ In (Str s) l ->
             In (Str s) (fold_left (fun acc c => if existsb (cell_same c) acc then acc
                                                 else acc ++ [c]) l acc)) /\
  (List.NoDup acc ->
   List.NoDup (fold_left (fun acc c => if existsb (cell_same c) acc then acc
                                       else acc ++ [c]) l acc)).
Proof.
  induction l as [|x l IH]; intros acc; simpl.
  - split; [by left|]. split; [|done]. by intros s [H|[]].
  - destruct (IH (if existsb (cell_same x) acc then acc else acc ++ [x]))
      as (Hin & Hstr & Hnd).
    destruct (existsb (cell_same x) acc) eqn:Hex.
    + split; [|split; [|exact Hnd]].
      * intros c Hc. destruct (Hin c Hc); [by left|by right; right].
      * intros s [H|[->|H]]; apply Hstr; [by left| |by right].
        left. apply existsb_exists in Hex as (c' & Hc' & Hsame).
        apply cell_same_Str in Hsame. by subst.
    + split; [|split].
      * intros c Hc. destruct (Hin c Hc) as [H|H]; [|by right; right].
        apply in_app_iff in H as [H|[<-|[]]]; [by left|by right; left].
      * intros s [H|[->|H]]; apply Hstr; [left|left|by right];
          apply in_app_iff; [by left|right; by left].
      * intros H. apply Hnd. apply List.NoDup_app; [exact H|repeat constructor; by intros []|].
        intros a Ha [<-|[]]. by apply (existsb_false_not_In x acc).
Qed.

Lemma unique_In l c : In c (unique l) -> In c l.
Proof.
  intros H. destruct (unique_from l []) as (Hin & _). by destruct (Hin c H) as [[]|].
Qed.

Lemma unique_In_Str l s : In (Str s) l -> In (Str s) (unique l).
Proof.
  intros H. destruct (unique_from l []) as (_ & Hstr & _). apply Hstr. by right.
Qed.

Lemma unique_NoDup l : List.NoDup (unique l).
Proof. destruct (unique_from l []) as (_ & _ & Hnd). apply Hnd. constructor. Qed.

End Unique.

Section Loops.
Import final_analysis.

Lemma for_each_length {A R} (w : A -> nat) (body : A -> list R -> result (list R))
    (l : list A) :
  (forall x s, In x l ->
     exists s', body x s = Ok s' /\ length s' = (length s + w x)%nat) ->
  forall s, exists s',
    for_each body l s = Ok s' /\ length s' = (length s + list_sum (map w l))%nat.
Proof.
  induction l as [|x l IH]; intros Hbody s; simpl.
  - exists s. split; [reflexivity|lia].
  - destruct (Hbody x s) as (s1 & -> & Hlen1); [by left|]. simpl rbind.
    destruct (IH (fun y t Hy => Hbody y t (or_intror Hy)) s1) as (s2 & -> & Hlen2).
    exists s2. split; [reflexivity|lia].
Qed.

Lemma filter_nil_existsb {A} (h : A -> bool) (l : list A) :
  match List.filter h l with [] => true | _ => false end = negb (existsb h l).
Proof.
  induction l as [|x l IH]; simpl; [reflexivity|]. by destruct (h x).
Qed.

Lemma df_empty_rows cols (rs : list (gmap string cell)) :
  cols <> [] ->
  df_empty {| columns := cols; rows := rs |} = match rs with [] => true | _ => false end.
Proof. intros H. unfold df_empty. simpl. by destruct cols. Qed.

Lemma has_column_nonempty c data : has_column c data = true -> columns data <> [].
Proof. unfold has_column. by destruct (columns data). Qed.

(** [group] on a frame that has the two columns: the records that pass the
    test, under the same labels. *)
Lemma group_rows data algo prof_id :
  has_column "scheme" data = true -> has_column "profile" data = true ->
  group data algo prof_id =
    Ok {| columns := columns data;
          rows := List.filter (in_group_cells algo prof_id) (rows data) |}.
Proof.
  intros Hs Hp. unfold group. rewrite (getitem_ok _ _ Hs), (getitem_ok _ _ Hp).
  simpl rbind. unfold select. do 2 f_equal.
  rewrite !map_map, zip_with_andb_map. apply (select_rows_map (in_group_cells algo prof_id)).
Qed.

Lemma list_sum_prod {A B} (h : A -> B -> bool) (l : list A) (k : list B) :
  list_sum (map (fun x => list_sum (map (fun y => if h x y then 1 else 0)%nat k)) l) =
  length (List.filter (fun xy => h xy.1 xy.2) (list_prod l k)).
Proof.
  induction l as [|x l IH]; simpl; [reflexivity|].
  rewrite List.filter_app, length_app, <- IH. f_equal.
  clear. induction k as [|y k IH]; simpl; [reflexivity|].
  destruct (h x y); simpl; by rewrite IH.
Qed.

Lemma NoDup_list_prod {A B} (l : list A) (k : list B) :
  List.NoDup l -> List.NoDup k -> List.NoDup (list_prod l k).
Proof.
  intros Hl Hk. induction Hl as [|x l Hx Hl IH]; simpl; [constructor|].
  apply List.NoDup_app; [|exact IH|].
  - apply Finite.Injective_map_NoDup; [|exact Hk]. by intros y1 y2 [= ->].
  - intros [x' y'] H1 H2. apply in_map_iff in H1 as (y & [= <- <-] & _).
    apply in_prod_iff in H2 as [H2 _]. contradiction.
Qed.

End Loops.

Section Generators.
Import final_analysis.

Variable C : catalog.
Variable sqrt : Q -> Q.
Variable data : DataFrame.

Hypothesis tagged : tagged_data C data.

Lemma tagged_profile_cell p :
  In p (unique (map (field "profile") (rows data))) ->
  exists ps cfg, p = Str ps /\ lookup_profile ps (NET_PROFILES C) = Ok cfg /\
                 exists r, In r (rows data) /\ field "profile" r = Str ps.
Proof.
  intros Hp. apply unique_In, in_map_iff in Hp as (r & <- & Hr).
  destruct tagged as (_ & _ & _ & Hrows).
  destruct (Hrows r Hr) as (ps & cfg & a & Hps & _ & Hl).
  exists ps, cfg. split; [exact Hps|]. split; [exact Hl|]. by exists r.
Qed.

Lemma tagged_scheme_cell a :
  In a (unique (map (field "scheme") (rows data))) -> exists s, a = Str s.
Proof.
  intros Ha. apply unique_In, in_map_iff in Ha as (r & <- & Hr).
  destruct tagged as (_ & _ & _ & Hrows).
  destruct (Hrows r Hr) as (ps & cfg & s & _ & Hs & _). by exists s.
Qed.

Lemma numeric_group c algo prof_id :
  numeric_column c data ->
  Forall no_string (map (field c) (List.filter (in_group_cells algo prof_id) (rows data))).
Proof.
  intros Hnum. apply List.Forall_forall. intros x Hx.
  apply in_map_iff in Hx as (r & <- & Hr). apply filter_In in Hr as [Hr _].
  by apply Hnum.
Qed.

(** The body of the inner loop of [summarize_rtt] adds one record for a
    group that is not empty, when the frame has a column [rtt]. *)
Lemma summarize_group_length ps cfg s prof_name recs :
  numeric_column "rtt" data ->
  lookup_profile ps (NET_PROFILES C) = Ok cfg ->
  exists recs',
    summarize_group C sqrt data (Str ps) prof_name (Str s) recs = Ok recs' /\
    length recs' =
      (length recs +
       (if has_column "rtt" data && existsb (in_group_cells (Str s) (Str ps)) (rows data)
        then 1 else 0))%nat.
Proof.
  intros Hnum Hcfg. destruct tagged as (Hp & Hs & _ & _).
  unfold summarize_group. rewrite (group_rows data _ _ Hs Hp). simpl rbind.
  rewrite (df_empty_rows _ _ (has_column_nonempty _ _ Hp)), filter_nil_existsb, negb_involutive.
  change (has_column "rtt" {| columns := columns data;
                              rows := List.filter (in_group_cells (Str s) (Str ps)) (rows data) |})
    with (has_column "rtt" data).
  rewrite andb_comm.
  destruct (has_column "rtt" data && existsb (in_group_cells (Str s) (Str ps)) (rows data))
    eqn:Hguard.
  2: { exists recs. split; [reflexivity|lia]. }
  apply andb_true_iff in Hguard as [Hrtt _].
  cbn [cell_upper profile_of rbind]. rewrite Hcfg. cbn [rbind].
  unfold getitem at 1.
  change (has_column "rtt" {| columns := columns data;
                              rows := List.filter (in_group_cells (Str s) (Str ps)) (rows data) |})
    with (has_column "rtt" data).
  rewrite Hrtt. cbn [rbind rows].
  pose proof (numeric_group "rtt" (Str s) (Str ps) Hnum) as Hns.
  destruct (numbers_ok _ Hns) as (qs & Hqs).
  destruct (jitter_ok _ Hns) as (j & Hj).
  unfold series_mean, series_min, series_max, series_median, series_std, series_quantile.
  rewrite Hqs, Hj. cbn [rbind].
  eexists. split; [reflexivity|]. rewrite length_app. simpl. lia.
Qed.

(** The body of the inner loop of [generate_comparison_table] adds one
    record for a group that is not empty. *)
Lemma compare_group_length ps cfg s recs :
  has_column "throughput" data = true ->
  has_column "rtt" data = true ->
  numeric_column "throughput" data ->
  numeric_column "rtt" data ->
  numeric_column "loss_rate" data ->
  lookup_profile ps (NET_PROFILES C) = Ok cfg ->
  exists recs',
    compare_group C sqrt data (Str ps) (Str s) recs = Ok recs' /\
    length recs' =
      (length recs +
       (if existsb (in_group_cells (Str s) (Str ps)) (rows data) then 1 else 0))%nat.
Proof.
  intros Htp Hrtt Hntp Hnrtt Hnloss Hcfg. destruct tagged as (Hp & Hs & _ & _).
  unfold compare_group. rewrite (group_rows data _ _ Hs Hp). simpl rbind.
  rewrite (df_empty_rows _ _ (has_column_nonempty _ _ Hp)), filter_nil_existsb, negb_involutive.
  destruct (existsb (in_group_cells (Str s) (Str ps)) (rows data)).
  2: { exists recs. split; [reflexivity|lia]. }
  cbn [cell_upper profile_of rbind]. rewrite Hcfg. cbn [rbind].
  unfold getitem.
  repeat match goal with
         | |- context [has_column ?c {| columns := columns data; rows := ?rs |}] =>
             change (has_column c {| columns := columns data; rows := rs |})
               with (has_column c data)
         end.
  rewrite Htp, Hrtt. cbn [rbind rows].
  destruct (numbers_ok _ (numeric_group "throughput" (Str s) (Str ps) Hntp)) as (tq & Htq).
  destruct (numbers_ok _ (numeric_group "rtt" (Str s) (Str ps) Hnrtt)) as (rq & Hrq).
  destruct (numbers_ok _ (numeric_group "loss_rate" (Str s) (Str ps) Hnloss)) as (lq & Hlq).
  unfold series_mean, series_std, series_quantile.
  rewrite Htq, Hrq. cbn [rbind].
  destruct (has_column "loss_rate" data); cbn [rbind].
  - rewrite Hlq. cbn [rbind].
    assert (exists loss, times100 (mean_of lq) = Ok loss) as (loss & ->)
      by (unfold mean_of; destruct lq; simpl; eauto).
    cbn [rbind]. eexists. split; [reflexivity|]. rewrite length_app. simpl. lia.
  - eexists. split; [reflexivity|]. rewrite length_app. simpl. lia.
Qed.

(** The groups that are not empty, counted over the two loops, are the
    distinct (profile, scheme) pairs of the records. *)
Lemma count_groups :
  list_sum
    (map (fun p =>
            list_sum
              (map (fun a => if existsb (in_group_cells a p) (rows data) then 1 else 0)%nat
                   (unique (map (field "scheme") (rows data)))))
         (unique (map (field "profile") (rows data))))
  = length (group_keys data).
Proof.
  rewrite (list_sum_prod (fun p a => existsb (in_group_cells a p) (rows data))).
  apply Permutation.Permutation_length, Permutation.NoDup_Permutation.
  - apply List.NoDup_filter, NoDup_list_prod; apply unique_NoDup.
  - apply List.NoDup_nodup.
  - intros [p a]. unfold group_keys. rewrite nodup_In, filter_In, in_prod_iff, in_map_iff.
    cbn [fst snd]. split.
    + intros [[Hp Ha] Hex].
      apply tagged_profile_cell in Hp as (ps & cfg & -> & _ & _).
      apply tagged_scheme_cell in Ha as (s & ->).
      apply existsb_exists in Hex as (r & Hr & Hg). exists r. split; [|exact Hr].
      unfold in_group_cells in Hg. apply andb_true_iff in Hg as [Hg1 Hg2].
      apply cell_eqb_Str in Hg1, Hg2. by rewrite Hg1, Hg2.
    + intros (r & [= <- <-] & Hr).
      destruct tagged as (_ & _ & _ & Hrows).
      destruct (Hrows r Hr) as (ps & cfg & s & Hps & Hs & _).
      rewrite Hps, Hs. split; [split|].
      * apply unique_In_Str. rewrite <- Hps. by apply in_map.
      * apply unique_In_Str. rewrite <- Hs. by apply in_map.
      * apply existsb_exists. exists r. split; [exact Hr|].
        unfold in_group_cells. rewrite Hps, Hs. simpl. by rewrite !String.eqb_refl.
Qed.

End Generators.

Section GeneratorLoops.
Import final_analysis.

Variable C : catalog.
Variable sqrt : Q -> Q.
Variable data : DataFrame.

Hypothesis tagged : tagged_data C data.

(** The statements of the outer loops before the inner loop: the name of
    the profile is found. *)
Lemma profile_name_found ps r :
  In r (rows data) -> field "profile" r = Str ps ->
  exists prof_name,
    (do names <- getitem (select data (map (fun c => cell_eqb c (Str ps))
                                           (map (field "profile") (rows data))))
                         "profile_name";
     iloc0 names) = Ok prof_name.
Proof.
  intros Hr Hps. destruct tagged as (_ & _ & Hpn & _).
  unfold getitem.
  change (has_column "profile_name" (select data _)) with (has_column "profile_name" data).
  rewrite Hpn. cbn [rbind]. unfold select. cbn [rows].
  rewrite map_map, (select_rows_map (fun r => cell_eqb (field "profile" r) (Str ps))).
  destruct (List.filter _ (rows data)) as [|r0 rs] eqn:Hf.
  - exfalso. assert (In r (List.filter (fun r => cell_eqb (field "profile" r) (Str ps))
                                       (rows data))) as Hin.
    { apply filter_In. split; [exact Hr|]. by apply cell_eqb_Str. }
    rewrite Hf in Hin. contradiction.
  - simpl. by eauto.
Qed.

Lemma list_sum_zero {A} (l : list A) : list_sum (map (fun _ => 0%nat) l) = 0%nat.
Proof. induction l as [|x l IH]; simpl; [reflexivity|exact IH]. Qed.

Lemma summarize_rtt_length :
  numeric_column "rtt" data ->
  exists recs,
    summarize_rtt C sqrt data = Ok recs /\
    length recs = if has_column "rtt" data then length (group_keys data) else 0%nat.
Proof.
  intros Hnum. pose proof tagged as (Hp & Hs & _ & _).
  unfold summarize_rtt. rewrite (getitem_ok _ _ Hp). cbn [rbind].
  match goal with
  | |- exists recs, for_each ?body ?l ?s0 = Ok recs /\ _ =>
      destruct (for_each_length
        (fun p => list_sum
           (map (fun a => if has_column "rtt" data
                             && existsb (in_group_cells a p) (rows data)
                          then 1 else 0)%nat
                (unique (map (field "scheme") (rows data)))))
        body l) with (s := s0) as (recs & Hrecs & Hlen)
  end.
  { intros p s Hin.
    destruct (tagged_profile_cell C data tagged p Hin) as (ps & cfg & -> & Hcfg & r & Hr & Hps).
    destruct (profile_name_found ps r Hr Hps) as (prof_name & Hname).
    destruct (getitem (select data _) "profile_name") as [names|]; [|discriminate].
    cbn [rbind] in Hname |- *. rewrite Hname. cbn [rbind].
    rewrite (getitem_ok _ _ Hs). cbn [rbind].
    apply for_each_length. intros a t Ha.
    destruct (tagged_scheme_cell C data tagged a Ha) as (sa & ->).
    by apply (summarize_group_length C sqrt data tagged ps cfg). }
  exists recs. split; [exact Hrecs|]. rewrite Hlen. simpl length.
  destruct (has_column "rtt" data).
  - simpl andb. apply (count_groups C data tagged).
  - cbn [andb length Nat.add].
    rewrite (map_ext _ (fun _ : cell => 0%nat)) by (intros p; apply list_sum_zero).
    apply list_sum_zero.
Qed.

Lemma generate_comparison_table_length :
  has_column "throughput" data = true ->
  has_column "rtt" data = true ->
  numeric_column "throughput" data ->
  numeric_column "rtt" data ->
  numeric_column "loss_rate" data ->
  exists recs,
    generate_comparison_table C sqrt data = Ok recs /\
    length recs = length (group_keys data).
Proof.
  intros Htp Hrtt Hntp Hnrtt Hnloss. pose proof tagged as (Hp & Hs & _ & _).
  unfold generate_comparison_table. rewrite (getitem_ok _ _ Hp). cbn [rbind].
  match goal with
  | |- exists recs, for_each ?body ?l ?s0 = Ok recs /\ _ =>
      destruct (for_each_length
        (fun p => list_sum
           (map (fun a => if existsb (in_group_cells a p) (rows data) then 1 else 0)%nat
                (unique (map (field "scheme") (rows data)))))
        body l) with (s := s0) as (recs & Hrecs & Hlen)
  end.
  { intros p s Hin.
    destruct (tagged_profile_cell C data tagged p Hin) as (ps & cfg & -> & Hcfg & _).
    rewrite (getitem_ok _ _ Hs). cbn [rbind].
    apply for_each_length. intros a t Ha.
    destruct (tagged_scheme_cell C data tagged a Ha) as (sa & ->).
    by apply (compare_group_length C sqrt data tagged ps cfg). }
  exists recs. split; [exact Hrecs|]. rewrite Hlen. simpl length.
  apply (count_groups C data tagged).
Qed.

End GeneratorLoops.

Lemma numeric_column_check (c : string) (data : DataFrame) :
  forallb (fun r => match field c r with Str _ => false | _ => true end) (rows data) = true ->
  numeric_column c data.
Proof.
  intros H r Hr s Hs. rewrite forallb_forall in H. specialize (H r Hr). by rewrite Hs in H.
Qed.

Section AggregateGroups.
Import final_analysis.

Variable C : catalog.
Variable read_csv : string -> result DataFrame.
Variable fs : gmap string file.

Lemma lookup_profile_In p cfg ps :
  In (p, cfg) ps -> exists cfg', lookup_profile p ps = Ok cfg'.
Proof.
  induction ps as [|[k c] ps IH]; intros Hin; [contradiction|].
  simpl. destruct (String.eqb k p) eqn:E; [by eauto|].
  destruct Hin as [Heq|Hin]; [|by apply IH].
  inversion Heq; subst. by rewrite String.eqb_refl in E.
Qed.

Lemma length_contribution pair :
  length (contribution read_csv fs pair) = artifact_len read_csv fs pair.
Proof.
  destruct pair as [[p cfg] a]. unfold contribution, artifact_len, read_csv_file.
  destruct (fs !! log_file_of p a) as [f|]; [|reflexivity].
  destruct (read_csv (content f)) as [df|]; [|reflexivity].
  unfold tagged_rows. rewrite length_zip_with, length_range. unfold len. lia.
Qed.

(** An aggregate with a record is tagged. *)
Lemma aggregate_tagged :
  rows (collect_dataframes C read_csv fs) <> [] ->
  tagged_data C (collect_dataframes C read_csv fs).
Proof.
  intros Hrows.
  assert (forall c, In c tag_columns ->
            has_column c (collect_dataframes C read_csv fs) = true) as Hcol.
  { intros c Hc. unfold collect_dataframes in *.
    destruct (collect_frames C read_csv fs) as [|tdf frames] eqn:E; [done|].
    apply mem_In, (union_columns_spec (tdf :: frames)). exists tdf. split; [by left|].
    assert (In tdf (collect_frames C read_csv fs)) as Hin by (rewrite E; by left).
    apply collect_frames_In in Hin as (p & cfg & a & df & _ & _ & _ & ->).
    simpl columns. rewrite !In_add_column. unfold tag_columns in Hc. simpl in Hc.
    destruct Hc as [<-|[<-|[<-|[<-|[<-|[]]]]]]; auto 10. }
  repeat split; try (apply Hcol; unfold tag_columns; simpl; tauto).
  intros r Hr. rewrite rows_collect_dataframes in Hr.
  apply in_flat_map in Hr as ([[p cfg] a] & Hpair & Hr).
  apply In_pairs in Hpair as [Hp _].
  apply contribution_tags in Hr as (Hs & Hpr & _ & _).
  destruct (lookup_profile_In p cfg _ Hp) as (cfg' & Hl).
  exists p, cfg', a. unfold field. by rewrite Hs, Hpr.
Qed.

Hypothesis profiles_distinct : List.NoDup (map fst (NET_PROFILES C)).
Hypothesis schemes_distinct : List.NoDup (CC_ALGOS C).

Lemma pair_keys_NoDup :
  List.NoDup (map (fun t : string * profile * string => (Str t.1.1, Str t.2)) (pairs C)).
Proof.
  unfold pairs. revert profiles_distinct. generalize (NET_PROFILES C) as ps.
  induction ps as [|[p cfg] ps IH]; intros Hnd; simpl; [constructor|].
  inversion Hnd as [|? ? Hp Hnd']; subst. rewrite map_app, map_map. cbn [fst snd].
  apply List.NoDup_app.
  - apply Finite.Injective_map_NoDup; [|exact schemes_distinct]. by intros a1 a2 [= ->].
  - by apply IH.
  - intros [k1 k2] H1 H2. apply in_map_iff in H1 as (a & Hk & _).
    apply in_map_iff in H2 as ([[p' c'] a'] & Hk' & Hin).
    cbn [fst snd] in Hk'. rewrite <- Hk in Hk'. inversion Hk'; subst p' a'.
    apply in_flat_map in Hin as ([p2 c2] & Hin2 & Hm).
    apply in_map_iff in Hm as (a2 & Heq & _). inversion Heq; subst p2 c2 a2.
    apply Hp. apply in_map_iff. by exists (p, c').
Qed.

Lemma NoDup_map_filter {A B} (g : A -> B) (h : A -> bool) (l : list A) :
  List.NoDup (map g l) -> List.NoDup (map g (List.filter h l)).
Proof.
  induction l as [|x l IH]; simpl; intros Hnd; [constructor|].
  inversion Hnd as [|? ? Hx Hnd']; subst. destruct (h x); [|by apply IH].
  simpl. constructor; [|by apply IH].
  intros Hin. apply Hx. apply in_map_iff in Hin as (y & Hy & Hin).
  apply filter_In in Hin as [Hin _]. apply in_map_iff. by exists y.
Qed.

(** The groups of the aggregate are the pairs of the catalog whose artifact
    has a line of data. *)
Lemma aggregate_group_keys :
  length (group_keys (collect_dataframes C read_csv fs)) =
  length (List.filter (fun pair => negb (Nat.eqb (artifact_len read_csv fs pair) 0))
                      (pairs C)).
Proof.
  rewrite <- (length_map (fun t : string * profile * string => (Str t.1.1, Str t.2))
                (List.filter _ (pairs C))).
  apply Permutation.Permutation_length, Permutation.NoDup_Permutation.
  - apply List.NoDup_nodup.
  - apply NoDup_map_filter, pair_keys_NoDup.
  - intros k. unfold group_keys. rewrite nodup_In, !in_map_iff. split.
    + intros (r & <- & Hr). rewrite rows_collect_dataframes in Hr.
      apply in_flat_map in Hr as ([[p cfg] a] & Hpair & Hr).
      exists (p, cfg, a). split.
      * apply contribution_tags in Hr as (Hs & Hp & _ & _).
        unfold field. by rewrite Hs, Hp.
      * apply filter_In. split; [exact Hpair|].
        rewrite <- length_contribution. by destruct (contribution read_csv fs (p, cfg, a)).
    + intros ([[p cfg] a] & <- & Hin). apply filter_In in Hin as [Hpair Hlen].
      rewrite <- length_contribution in Hlen.
      destruct (contribution read_csv fs (p, cfg, a)) as [|r rs] eqn:Hc; [discriminate|].
      assert (In r (contribution read_csv fs (p, cfg, a))) as Hr by (rewrite Hc; by left).
      exists r. split.
      * apply contribution_tags in Hr as (Hs & Hp & _ & _).
        unfold field. by rewrite Hs, Hp.
      * rewrite rows_collect_dataframes. apply in_flat_map. by exists (p, cfg, a).
Qed.

End AggregateGroups.

Lemma nonempty_by_length {A : Type} (l : list A) :
  negb (Nat.eqb (length l) 0) = true -> l <> [].
Proof. by destruct l. Qed.

Lemma unique_head (x : cell) (l : list cell) : exists t, unique (x :: l) = x :: t.
Proof.
  assert (forall l a acc, exists t,
            fold_left (fun acc c => if existsb (cell_same c) acc then acc else acc ++ [c])
                      l (a :: acc) = a :: t) as H.
  { clear. induction l as [|c l IH]; intros a acc; simpl; [by eauto|].
    destruct (cell_same c a || existsb (cell_same c) acc); apply IH. }
  apply (H l x []).
Qed.





(** X23.  [generate_comparison_table] needs the column [throughput]: on a
    frame without it whose first record belongs to a profile of the table,
    it raises [KeyError] for [throughput] (where [summarize_rtt] passes
    over a missing [rtt]). *)
Theorem comparison_missing_throughput (C : final_analysis.catalog) (sqrt : Q -> Q)
    (data : DataFrame) (r : gmap string cell) (rs : list (gmap string cell))
    (ps s : string) (cfg : final_analysis.profile) :
  rows data = r :: rs ->
  has_column "profile" data = true ->
  has_column "scheme" data = true ->
  has_column "throughput" data = false ->
  field "profile" r = Str ps ->
  field "scheme" r = Str s ->
  final_analysis.lookup_profile ps (final_analysis.NET_PROFILES C) = Ok cfg ->
  final_analysis.generate_comparison_table C sqrt data = Raised (KeyError "throughput").
Proof.
  intros Hrows Hp Hs Htp Hps Hss Hcfg.
  unfold final_analysis.generate_comparison_table.
  rewrite (getitem_ok _ _ Hp), (getitem_ok _ _ Hs). cbn [rbind].
  rewrite Hrows. cbn [map]. rewrite Hps, Hss.
  destruct (unique_head (Str ps) (map (field "profile") rs)) as (tp & ->).
  destruct (unique_head (Str s) (map (field "scheme") rs)) as (tsch & ->).
  cbn [final_analysis.for_each].
  assert (final_analysis.compare_group C sqrt data (Str ps) (Str s) []
          = Raised (KeyError "throughput")) as ->; [|reflexivity].
  unfold final_analysis.compare_group. rewrite (group_rows data _ _ Hs Hp). cbn [rbind].
  rewrite (df_empty_rows _ _ (has_column_nonempty _ _ Hp)), filter_nil_existsb,
    negb_involutive.
  assert (existsb (in_group_cells (Str s) (Str ps)) (rows data) = true) as ->.
  { apply existsb_exists. exists r. split; [rewrite Hrows; by left|].
    unfold in_group_cells. rewrite Hps, Hss. simpl. by rewrite !String.eqb_refl. }
  cbn [final_analysis.profile_of final_analysis.cell_upper rbind]. rewrite Hcfg.
  cbn [rbind]. unfold getitem at 1.
  change (has_column "throughput" {| columns := columns data; rows := _ |})
    with (has_column "throughput" data).
  by rewrite Htp.
Qed.

Lemma comparison_missing_throughput_witness :
  final_analysis.generate_comparison_table final_analysis.module_catalog (fun q => q)
    ex_no_throughput = Raised (KeyError "throughput").
Proof.
  apply (comparison_missing_throughput final_analysis.module_catalog (fun q => q)
           ex_no_throughput
           {[ "rtt" := Num 100; "scheme" := Str "cubic"; "profile" := Str "1";
              "profile_name" := Str "LTE (Low Latency)" ]} [] "1" "cubic" ex_profile_1);
    reflexivity.
Defined.

(** X24.  When the frame has no column [loss_rate] at all, every record of
    the comparison table has the loss rate 0. *)
Theorem loss_rate_defaults_to_zero (C : final_analysis.catalog) (sqrt : Q -> Q)
    (data : DataFrame) (recs : list final_analysis.comparison) :
  has_column "loss_rate" data = false ->
  final_analysis.generate_comparison_table C sqrt data = Ok recs ->
  Forall (fun r => final_analysis.cr_Avg_Loss_Rate r = Num 0) recs.
Proof. apply loss_default_when_column_absent. Qed.

Lemma loss_rate_defaults_to_zero_witness :
  Forall (fun r => final_analysis.cr_Avg_Loss_Rate r = Num 0)
    [{| final_analysis.cr_Profile := "LTE (Low Latency)";
        final_analysis.cr_Algorithm := "CUBIC";
        final_analysis.cr_Avg_Throughput := Num 5;
        final_analysis.cr_Throughput_Std_Dev := Num 1;
        final_analysis.cr_Avg_RTT := Num (340 # 3);
        final_analysis.cr_Avg_Loss_Rate := Num 0;
        final_analysis.cr_90_Throughput := Num (29 # 5) |}].
Proof.
  apply (loss_rate_defaults_to_zero final_analysis.module_catalog (fun q => q)
           (final_analysis.collect_dataframes final_analysis.module_catalog ex_read_csv
              ex_one_artifact)).
  - vm_compute. reflexivity.
  - vm_compute. reflexivity.
Defined.

(** X25.  End to end: when the aggregate has a record, its artifacts have
    the columns [throughput] and [rtt] with numbers in them and in
    [loss_rate], and the four plotting functions return, [orchestrate]
    returns the two summaries, each with one record for every pair of the
    catalog whose artifact has a line of data. *)
Theorem orchestrate_analyses (C : final_analysis.catalog) (X : final_analysis.externals)
    (fs : gmap string final_analysis.file) :
  let st := final_analysis.execute_tests C (final_analysis.shell X)
              (final_analysis.now X) fs in
  let data := final_analysis.collect_dataframes C (final_analysis.read_csv X) st.1 in
  let n := length (List.filter
                     (fun pair =>
                        negb (Nat.eqb (artifact_len (final_analysis.read_csv X) st.1 pair) 0))
                     (pairs C)) in
  List.NoDup (map fst (final_analysis.NET_PROFILES C)) ->
  List.NoDup (final_analysis.CC_ALGOS C) ->
  rows data <> [] ->
  final_analysis.draw_throughput_plot X data = Ok tt ->
  final_analysis.draw_loss_plot X data = Ok tt ->
  final_analysis.draw_throughput_cdf X data = Ok tt ->
  final_analysis.scatter_rtt_vs_throughput X data = Ok tt ->
  has_column "throughput" data = true ->
  has_column "rtt" data = true ->
  numeric_column "throughput" data ->
  numeric_column "rtt" data ->
  numeric_column "loss_rate" data ->
  exists rtt cmp,
    final_analysis.orchestrate C X fs = Ok (st, final_analysis.Analysed rtt cmp) /\
    length rtt = n /\ length cmp = n.
Proof.
  intros st data n Hps Has Hrows Hp1 Hp2 Hp3 Hp4 Htp Hrtt Hntp Hnrtt Hnloss.
  pose proof (aggregate_tagged C (final_analysis.read_csv X) st.1 Hrows) as Htag.
  fold data in Htag.
  destruct (summarize_rtt_length C (final_analysis.sqrt X) data Htag Hnrtt)
    as (rtt & Hsum & Hlen1).
  destruct (generate_comparison_table_length C (final_analysis.sqrt X) data Htag
              Htp Hrtt Hntp Hnrtt Hnloss) as (cmp & Hcmp & Hlen2).
  rewrite Hrtt in Hlen1.
  pose proof (aggregate_group_keys C (final_analysis.read_csv X) st.1 Hps Has) as Hkeys.
  fold data in Hkeys. fold n in Hkeys.
  exists rtt, cmp. split; [|split; congruence].
  unfold final_analysis.orchestrate, final_analysis.makedirs. fold st.
  pose proof (df_empty_collect C (final_analysis.read_csv X) st.1) as Hempty.
  fold data in Hempty.
  clearbody n. revert Hempty Hp1 Hp2 Hp3 Hp4 Hsum Hcmp. unfold data.
  destruct st as [fs1 log]. cbn [fst]. intros Hempty Hp1 Hp2 Hp3 Hp4 Hsum Hcmp.
  rewrite Hempty.
  destruct (rows (final_analysis.collect_dataframes C (final_analysis.read_csv X) fs1))
    as [|r0 rs0] eqn:Hr; [by destruct Hrows|].
  rewrite Hp1, Hp2, Hp3, Hsum, Hp4, Hcmp. reflexivity.
Qed.

Lemma orchestrate_analyses_witness :
  let st := final_analysis.execute_tests final_analysis.module_catalog
              (final_analysis.shell ex_failing_externals)
              (final_analysis.now ex_failing_externals) ex_mixed_artifacts in
  let n := length (List.filter
                     (fun pair =>
                        negb (Nat.eqb (artifact_len
                                         (final_analysis.read_csv ex_failing_externals)
                                         st.1 pair) 0))
                     (pairs final_analysis.module_catalog)) in
  exists rtt cmp,
    final_analysis.orchestrate final_analysis.module_catalog ex_failing_externals
      ex_mixed_artifacts = Ok (st, final_analysis.Analysed rtt cmp) /\
    length rtt = n /\ length cmp = n.
Proof.
  apply (orchestrate_analyses final_analysis.module_catalog ex_failing_externals
           ex_mixed_artifacts).
  - exact module_profiles_distinct.
  - exact module_schemes_distinct.
  - apply nonempty_by_length. vm_compute. reflexivity.
  - reflexivity.
  - reflexivity.
  - reflexivity.
  - reflexivity.
  - vm_compute. reflexivity.
  - vm_compute. reflexivity.
  - apply numeric_column_check. vm_compute. reflexivity.
  - apply numeric_column_check. vm_compute. reflexivity.
  - apply numeric_column_check. vm_compute. reflexivity.
Defined.
